(** * PDFManager: range parser, merge and split workers, page rotation, preview scale

    A shallow embedding of [src/pdf_merger_app.py]:
    - [parse_ranges]                     (lines 73-101)
    - [rotate_page_inplace]              (lines 104-114) and
      [PdfManagerWindow.on_edit_rotate]  (lines 939-950)
    - [MergeWorker.run]                  (lines 141-186)
    - [SplitWorker.__init__] / [run]     (lines 199-261)
    - the scale computation of [PdfManagerWindow._render_preview]
                                         (lines 1040-1079)

    Python [int] is [Z]; [str] is [string]; a Qt signal emission is an entry
    of an event trace; the PDF library and the file system are explicit
    environments; a raised exception is an explicit result. *)

From Stdlib Require Import ZArith List String Ascii Bool Lia QArith Qround.
From Stdlib Require Import DecimalString SpecFloat.
From Stdlib Require DecimalZ DecimalPos DecimalFacts.
Import ListNotations.

Local Open Scope string_scope.
Local Open Scope list_scope.
Local Open Scope Z_scope.

(** ** Python string operations used by the program *)

Module PyStr.

(** [c in s] for a one-character [c]. *)
Fixpoint contains (c : ascii) (s : string) : bool :=
  match s with
  | EmptyString => false
  | String a s' => if Ascii.eqb a c then true else contains c s'
  end.

(** [s.split(c)]: every occurrence of [c] separates two fields, so an
    empty text gives one empty field. *)
Fixpoint split (c : ascii) (s : string) : list string :=
  match s with
  | EmptyString => [EmptyString]
  | String a s' =>
      if Ascii.eqb a c then EmptyString :: split c s'
      else match split c s' with
           | h :: t => String a h :: t
           | [] => [String a EmptyString]
           end
  end.

(** [s.split(c, 1)] when [c in s]: the text before the first [c] and the
    text after it; [None] when [c] does not occur. *)
Fixpoint split_first (c : ascii) (s : string) : option (string * string) :=
  match s with
  | EmptyString => None
  | String a s' =>
      if Ascii.eqb a c then Some (EmptyString, s')
      else match split_first c s' with
           | Some (x, y) => Some (String a x, y)
           | None => None
           end
  end.

(** White space of [str.isspace] among the ASCII characters:
    TAB, LF, VT, FF, CR, FS, GS, RS, US and SPACE. *)
Definition isspace (c : ascii) : bool :=
  let n := nat_of_ascii c in
  ((9 <=? n) && (n <=? 13) || (28 <=? n) && (n <=? 32))%nat.

Fixpoint lstrip (s : string) : string :=
  match s with
  | EmptyString => EmptyString
  | String a s' => if isspace a then lstrip s' else s
  end.

Fixpoint rstrip (s : string) : string :=
  match s with
  | EmptyString => EmptyString
  | String a s' =>
      match rstrip s' with
      | EmptyString => if isspace a then EmptyString else String a EmptyString
      | r => String a r
      end
  end.

(** [s.strip()] on ASCII text. *)
Definition strip (s : string) : string := rstrip (lstrip s).

Definition digit_val (c : ascii) : option Z :=
  let n := nat_of_ascii c in
  if ((48 <=? n) && (n <=? 57))%nat then Some (Z.of_nat n - 48) else None.

(** The digits of a base-10 literal; single underscores are allowed between
    two digits. [last_digit] tells whether the previous character was a
    digit. *)
Fixpoint digits (acc : Z) (last_digit : bool) (s : string) : option Z :=
  match s with
  | EmptyString => if last_digit then Some acc else None
  | String c s' =>
      match digit_val c with
      | Some d => digits (10 * acc + d) true s'
      | None =>
          if Ascii.eqb c "_" && last_digit then digits acc false s' else None
      end
  end.

(** [int(s)] on ASCII text: surrounding white space, an optional sign, the
    digits. [None] stands for [ValueError]. *)
Definition int (s : string) : option Z :=
  match strip s with
  | String "-" r => option_map Z.opp (digits 0 false r)
  | String "+" r => digits 0 false r
  | r => digits 0 false r
  end.

(** [str(n)] for an integer. *)
Definition str (n : Z) : string := NilZero.string_of_int (Z.to_int n).

Fixpoint zeros (n : nat) : string :=
  match n with
  | O => EmptyString
  | S n' => String "0" (zeros n')
  end.

(** [s.zfill(width)]: zeros are inserted after a leading sign. *)
Definition zfill (s : string) (width : Z) : string :=
  let fill := zeros (Z.to_nat (width - Z.of_nat (String.length s))) in
  match s with
  | String "-" r => String "-" (fill ++ r)
  | String "+" r => String "+" (fill ++ r)
  | _ => fill ++ s
  end.

End PyStr.

(** ** [parse_ranges] *)

Section RangeParser.

(** [str.strip] and [int] are builtins whose white-space and digit classes
    are Unicode tables; [parse_ranges] is embedded over any such pair.
    [py_int s = None] stands for [ValueError]. [PyStr.strip] and
    [PyStr.int] are the instances for ASCII text. *)
Variable py_strip : string -> string.
Variable py_int : string -> option Z.

Definition is_empty (s : string) : bool :=
  match s with EmptyString => true | _ => false end.

(** [max(1, min(total_pages, x))] *)
Definition clamp (total_pages x : Z) : Z := Z.max 1 (Z.min total_pages x).

(** One iteration of the [for part in t.split(",")] loop. *)
Definition parse_part (total_pages : Z) (rngs : list (Z * Z)) (part : string)
  : list (Z * Z) :=
  let part := py_strip part in
  if is_empty part then rngs
  else
    match PyStr.split_first "-" part with
    | Some (a, b) =>
        match py_int a with
        | None => rngs
        | Some ia =>
            let start := clamp total_pages ia in
            let end_ :=
              match py_int b with
              | Some ib => clamp total_pages ib
              | None => start
              end in
            if start >? end_ then rngs ++ [(end_, start)]
            else rngs ++ [(start, end_)]
        end
    | None =>
        match py_int part with
        | Some p => rngs ++ [(clamp total_pages p, clamp total_pages p)]
        | None => rngs
        end
    end.

Definition parse_ranges (text : string) (total_pages : Z) : list (Z * Z) :=
  let t := py_strip text in
  if is_empty t then []
  else fold_left (parse_part total_pages) (PyStr.split "," t) [].

(** The fields of the text that the loop of [parse_ranges] visits. *)
Definition tokens (text : string) : list string :=
  if is_empty (py_strip text) then [] else PyStr.split "," (py_strip text).

(** An interval within the pages [1 .. total]. *)
Definition in_bounds (total : Z) (r : Z * Z) : Prop :=
  1 <= fst r <= snd r /\ snd r <= total.

End RangeParser.

(** [parse_ranges] on ASCII text. *)
Definition parse_ranges_ascii : string -> Z -> list (Z * Z) :=
  parse_ranges PyStr.strip PyStr.int.

(** ** Python floats

    A finite binary64 value is the rational it denotes. An arithmetic
    operation of Python on floats is the exact operation followed by
    [round]: rounding to the nearest value with a 53-bit significand, ties
    to the even significand, with the gradual underflow of binary64.
    Results beyond the largest finite binary64 value are outside the model;
    page counts and pixel sizes do not reach them. *)

Module B64.

(** The integer nearest to [n / d] for [0 < d], ties to the even one. *)
Definition rne (n d : Z) : Z :=
  let q := n / d in
  match (2 * (n mod d)) ?= d with
  | Lt => q
  | Gt => q + 1
  | Eq => if Z.even q then q else q + 1
  end.

(** For [0 < n] and [0 < d], the [k] with [2^k <= n/d < 2^(k+1)]. *)
Definition ilog2 (n d : Z) : Z :=
  let k := Z.log2 n - Z.log2 d in
  if (if 0 <=? k then d * 2 ^ k <=? n else d <=? n * 2 ^ (- k))
  then k else k - 1.

(** Exponent of the last place of the result for the positive rational
    [n / d]: 53 significant bits, not below the subnormal exponent. *)
Definition ulp_exp (n d : Z) : Z := Z.max (ilog2 n d - 52) (-1074).

(** The significand of the rounded positive rational [n / d]. *)
Definition significand (n d : Z) : Z :=
  let e := ulp_exp n d in
  if 0 <=? e then rne n (d * 2 ^ e) else rne (n * 2 ^ (- e)) d.

Definition round_pos (n d : Z) : Q :=
  let e := ulp_exp n d in
  let m := significand n d in
  if 0 <=? e then inject_Z (m * 2 ^ e) else Qred (m # Z.to_pos (2 ^ (- e))).

Definition round (x : Q) : Q :=
  match Qnum x with
  | Z0 => 0%Q
  | Zpos n => round_pos (Zpos n) (Zpos (Qden x))
  | Zneg n => Qopp (round_pos (Zpos n) (Zpos (Qden x)))
  end.

Definition is_zero (x : Q) : bool :=
  match Qnum x with Z0 => true | _ => false end.

(** [x / y] on floats; [None] stands for [ZeroDivisionError]. *)
Definition truediv (x y : Q) : option Q :=
  if is_zero y then None else Some (round (x / y)).

(** [x * y] on floats. *)
Definition mul (x y : Q) : Q := round (x * y).

(** [int(x)] for a float [x]: truncation toward zero. *)
Definition trunc (x : Q) : Z :=
  if 0 <=? Qnum x then Qfloor x else Qceiling x.

(** [min(x, y)]: the first argument unless the second is smaller. *)
Definition min (x y : Q) : Q :=
  match Qcompare y x with Lt => y | _ => x end.

End B64.

(** [a / b] for two integers: the correctly rounded quotient. *)
Definition int_truediv (a b : Z) : option Q :=
  B64.truediv (inject_Z a) (inject_Z b).

(** [int(done / total * 100)]; [None] stands for [ZeroDivisionError]. *)
Definition percent (done total : Z) : option Z :=
  match int_truediv done total with
  | Some x => Some (B64.trunc (B64.mul x 100))
  | None => None
  end.

(** The float [done / total * 100] before truncation. *)
Definition percent_float (a t : Z) : Q :=
  B64.mul (B64.round (inject_Z a / inject_Z t)) 100.

(** The positive rationals [n / d] from [2^-1022] up to, but excluding,
    [2^52]: their rounding keeps 53 significant bits and has a last place
    below the unit. *)
Definition in_range (n d : Z) : Prop :=
  0 < n /\ 0 < d /\ d <= n * 2 ^ 1022 /\ n < 2 ^ 52 * d.

Definition in_rangeQ (x : Q) : Prop := in_range (Qnum x) (QDen x).

(** The smallest quotient [done / total] of two page counts below [2^53],
    and the largest one below 1. *)
Definition q_min : Q := 1 # Z.to_pos (2 ^ 53).
Definition q_below_one : Q := (2 ^ 53 - 1) # Z.to_pos (2 ^ 53).

(** *** Comparison with the IEEE 754 operations of the standard library *)

(** The rational denoted by a finite [spec_float]. *)
Definition Q_of_spec_float (f : spec_float) : option Q :=
  match f with
  | S754_zero _ => Some 0%Q
  | S754_finite s m e =>
      let v := if 0 <=? e then inject_Z (Zpos m * 2 ^ e)
               else Qred (Zpos m # Z.to_pos (2 ^ (- e))) in
      Some (if s then Qopp v else v)
  | _ => None
  end.

(** The binary64 value of an integer. *)
Definition ieee_of_int (n : Z) : spec_float :=
  binary_normalize 53 1024 n 0 false.

(** [a / b] and [a / b * 100] computed with the binary64 division and
    multiplication of [SpecFloat]. *)
Definition ieee_quotient (a b : Z) : option Q :=
  Q_of_spec_float (SFdiv 53 1024 (ieee_of_int a) (ieee_of_int b)).

Definition ieee_percent_float (a b : Z) : option Q :=
  Q_of_spec_float
    (SFmul 53 1024 (SFdiv 53 1024 (ieee_of_int a) (ieee_of_int b))
       (ieee_of_int 100)).

Definition option_Q_eqb (x y : option Q) : bool :=
  match x, y with
  | Some u, Some v => Qeq_bool u v
  | _, _ => false
  end.

(** Whether the model and [SpecFloat] agree on [a / b] and on
    [a / b * 100] for all [1 <= a, b <= bound]. *)
Definition agrees_with_ieee (bound : nat) : bool :=
  forallb
    (fun b =>
       forallb
         (fun a =>
            option_Q_eqb (int_truediv (Z.of_nat a) (Z.of_nat b))
              (ieee_quotient (Z.of_nat a) (Z.of_nat b))
            && option_Q_eqb (Some (percent_float (Z.of_nat a) (Z.of_nat b)))
                 (ieee_percent_float (Z.of_nat a) (Z.of_nat b)))
         (seq 1 bound))
    (seq 1 bound).

(** ** Signals, exceptions and the PDF library *)

(** Exceptions that reach the handlers of the workers. *)
Inductive exn : Type :=
| ZeroDivisionError
| IndexError
| LibraryError (what : string).

(** The texts sent through the [message] signal. *)
Inductive message : Type :=
| MsgReading (path : string)             (* "読み込み中: {path}" *)
| MsgSkipEncrypted (path : string)       (* "スキップ(暗号化): {path}" *)
| MsgSkipError (path : string) (e : exn) (* "スキップ(エラー): {path}  —  {e}" *)
| MsgBookmarkFailed (path : string)      (* "ブックマーク追加失敗: {basename(path)}" *)
| MsgOutput (dir name : string) (s1 e1 : Z).
                                         (* "出力: {join(dir, name)} (p{s1}-{e1})" *)

(** The texts sent through [finished_error]. *)
Inductive diagnostic : Type :=
| NoMergeItems        (* "結合対象のPDFがありません。" *)
| SourceMissing       (* "分割元PDFが存在しません。" *)
| EncryptedSource     (* "暗号化PDFは分割できません。..." *)
| BadRanges           (* "カスタム範囲の指定が不正です。..." *)
| Traceback (e : exn) (* traceback.format_exc() *).

(** One emission of a signal of a worker. *)
Inductive event : Type :=
| Progress (percent : Z)
| Message (m : message)
| FinishedOk (out : string)
| FinishedError (d : diagnostic).

Definition progress_of (ev : event) : option Z :=
  match ev with Progress p => Some p | _ => None end.

(** The values sent through the [progress] signal, in order. *)
Fixpoint progress_values (tr : list event) : list Z :=
  match tr with
  | [] => []
  | ev :: tr' =>
      match progress_of ev with
      | Some p => p :: progress_values tr'
      | None => progress_values tr'
      end
  end.

Record PdfItem : Type := { path : string; size : Z }.

Section Workers.

(** The page objects of the PDF library. *)
Context {page : Type}.

(** What [PdfReader(path, strict=False)] gives once it has returned:
    [decrypt_raises] tells whether [reader.decrypt("")] raises;
    [pages_raise = Some e] when reading [reader.pages] raises [e]
    (after handing over [pages], when iterated). *)
Record Reader : Type := {
  is_encrypted : bool;
  decrypt_raises : bool;
  pages : list page;
  pages_raise : option exn
}.

(** A [PdfWriter]: its pages, and its outline entries as the source path
    whose base name is the title, with the target page index. *)
Record Writer : Type := {
  w_pages : list page;
  w_outline : list (string * nat)
}.

Definition empty_writer : Writer := {| w_pages := []; w_outline := [] |}.

(** *** [MergeWorker] *)

Record MergeEnv : Type := {
  (** [PdfReader(path, strict=False)] *)
  open_pdf : string -> exn + Reader;
  (** whether [writer.add_outline_item(title, index)] raises *)
  add_outline_raises : string -> nat -> bool;
  (** the exception of [os.makedirs], [open] or [writer.write], if any *)
  write_output : string -> option exn
}.

Record MergeState : Type := {
  m_writer : Writer;
  m_done : Z;
  m_trace : list event;
  (** the document written at [out_path] *)
  m_output : option Writer
}.

Definition m_init : MergeState :=
  {| m_writer := empty_writer; m_done := 0; m_trace := []; m_output := None |}.

Definition m_emit (ev : event) (st : MergeState) : MergeState :=
  {| m_writer := m_writer st; m_done := m_done st;
     m_trace := m_trace st ++ [ev]; m_output := m_output st |}.

(** [done += 1] *)
Definition m_bump (st : MergeState) : MergeState :=
  {| m_writer := m_writer st; m_done := m_done st + 1;
     m_trace := m_trace st; m_output := m_output st |}.

Definition m_set_writer (w : Writer) (st : MergeState) : MergeState :=
  {| m_writer := w; m_done := m_done st;
     m_trace := m_trace st; m_output := m_output st |}.

(** [self.progress.emit(int(done/total*100))] *)
Definition m_emit_progress (total : Z) (st : MergeState)
  : MergeState * option exn :=
  match percent (m_done st) total with
  | Some p => (m_emit (Progress p) st, None)
  | None => (st, Some ZeroDivisionError)
  end.

Variable env : MergeEnv.
Variable add_bookmarks : bool.

(** The body of the [try] of one iteration: the state it leaves and the
    exception it raises, if any. The [continue] of the encrypted case
    leaves the [try] without an exception. *)
Definition merge_try (total : Z) (st : MergeState) (item : PdfItem)
  : MergeState * option exn :=
  match open_pdf env (path item) with
  | inl e => (st, Some e)
  | inr reader =>
      if is_encrypted reader && decrypt_raises reader then
        m_emit_progress total
          (m_bump (m_emit (Message (MsgSkipEncrypted (path item))) st))
      else
        let w := m_writer st in
        let start_page_index := List.length (w_pages w) in
        let w1 := {| w_pages := w_pages w ++ pages reader;
                     w_outline := w_outline w |} in
        let st1 := m_set_writer w1 st in
        match pages_raise reader with
        | Some e => (st1, Some e)
        | None =>
            if add_bookmarks then
              if add_outline_raises env (path item) start_page_index then
                (m_emit (Message (MsgBookmarkFailed (path item))) st1, None)
              else
                (m_set_writer
                   {| w_pages := w_pages w1;
                      w_outline :=
                        w_outline w1 ++ [(path item, start_page_index)] |}
                   st1, None)
            else (st1, None)
        end
  end.

(** One iteration of [for item in self.items]: the message, the [try],
    its [except Exception as e] and its [finally]. *)
Definition merge_item (total : Z) (st : MergeState) (item : PdfItem)
  : MergeState * option exn :=
  let st0 := m_emit (Message (MsgReading (path item))) st in
  let (st1, raised) := merge_try total st0 item in
  let st2 :=
    match raised with
    | Some e => m_emit (Message (MsgSkipError (path item) e)) st1
    | None => st1
    end in
  m_emit_progress total (m_bump st2).

Fixpoint merge_loop (total : Z) (st : MergeState) (items : list PdfItem)
  : MergeState * option exn :=
  match items with
  | [] => (st, None)
  | item :: rest =>
      match merge_item total st item with
      | (st', None) => merge_loop total st' rest
      | (st', Some e) => (st', Some e)
      end
  end.

(** [MergeWorker.run]: the final state holds the trace of the emitted
    signals and the written document. *)
Definition merge_run (items : list PdfItem) (out_path : string)
  : MergeState :=
  match items with
  | [] => m_emit (FinishedError NoMergeItems) m_init
  | _ =>
      let total := Z.of_nat (List.length items) in
      match merge_loop total m_init items with
      | (st, Some e) => m_emit (FinishedError (Traceback e)) st
      | (st, None) =>
          match write_output env out_path with
          | Some e => m_emit (FinishedError (Traceback e)) st
          | None =>
              m_emit (FinishedOk out_path)
                {| m_writer := m_writer st; m_done := m_done st;
                   m_trace := m_trace st; m_output := Some (m_writer st) |}
          end
      end
  end.

(** *** [SplitWorker] *)

Variable py_strip : string -> string.
Variable py_int : string -> option Z.

Definition MODE_EACH : string := "each".
Definition MODE_CHUNK : string := "chunk".
Definition MODE_RANGES : string := "ranges".

Record SplitWorker : Type := {
  src_path : string;
  out_dir : string;
  filename_prefix : string;
  mode : string;
  chunk_size : Z;
  ranges_text : string;
  pad : Z;
  start_index : Z
}.

(** [x or d] for strings: the empty string is the only false one. *)
Definition str_or (x d : string) : string := if is_empty x then d else x.

(** [SplitWorker.__init__] *)
Definition SplitWorker_init (src_path out_dir filename_prefix mode : string)
    (chunk_size : Z) (ranges_text : string) (pad start_index : Z)
  : SplitWorker :=
  {| src_path := src_path;
     out_dir := out_dir;
     filename_prefix := str_or filename_prefix "split";
     mode := mode;
     chunk_size := Z.max 1 chunk_size;
     ranges_text := ranges_text;
     pad := Z.max 1 pad;
     start_index := start_index |}.

(** A file written by [write_range]: its path is
    [os.path.join(f_dir, f_name)]. *)
Record OutFile : Type := {
  f_dir : string;
  f_name : string;
  f_pages : list page
}.

Record SplitEnv : Type := {
  (** [os.path.exists] *)
  path_exists : string -> bool;
  (** the exception of [os.makedirs(dir, exist_ok=True)], if any *)
  makedirs_raises : string -> option exn;
  (** [PdfReader(path, strict=False)] *)
  s_open_pdf : string -> exn + Reader;
  (** the exception of [open(join(dir, name), "wb")] or [w.write(f)], if
      any; the file then counts as not written *)
  write_raises : string -> string -> option exn
}.

Record SplitState : Type := {
  s_idx : Z;
  s_files : list OutFile;
  s_trace : list event
}.

Definition s_emit (ev : event) (st : SplitState) : SplitState :=
  {| s_idx := s_idx st; s_files := s_files st;
     s_trace := s_trace st ++ [ev] |}.

(** [range(a, b)] *)
Definition py_range (a b : Z) : list Z :=
  map (fun i => a + Z.of_nat i) (seq 0 (Z.to_nat (b - a))).

(** [xs[p]]: a negative index counts from the end; [None] stands for
    [IndexError]. *)
Definition py_index {A : Type} (xs : list A) (p : Z) : option A :=
  let n := Z.of_nat (List.length xs) in
  let i := if p <? 0 then n + p else p in
  if (0 <=? i) && (i <? n) then nth_error xs (Z.to_nat i) else None.

(** [[xs[p] for p in ps]], stopping at the first [IndexError]. *)
Fixpoint collect_pages (xs : list page) (ps : list Z) : option (list page) :=
  match ps with
  | [] => Some []
  | p :: ps' =>
      match py_index xs p with
      | None => None
      | Some pg =>
          match collect_pages xs ps' with
          | None => None
          | Some pgs => Some (pg :: pgs)
          end
      end
  end.

(** [a // b]; [None] stands for [ZeroDivisionError]. *)
Definition py_floordiv (a b : Z) : option Z :=
  if b =? 0 then None else Some (a / b).

(** [f"{prefix}_{str(idx).zfill(pad)}.pdf"] *)
Definition out_name (prefix : string) (idx pad : Z) : string :=
  (prefix ++ "_" ++ PyStr.zfill (PyStr.str idx) pad ++ ".pdf")%string.

Variable senv : SplitEnv.

(** The closure [write_range(s1, e1)] of [run]. *)
Definition write_range (self : SplitWorker) (reader_pages : list page)
    (s1 e1 : Z) (st : SplitState) : SplitState * option exn :=
  match collect_pages reader_pages (py_range (s1 - 1) e1) with
  | None => (st, Some IndexError)
  | Some pgs =>
      let name := out_name (filename_prefix self) (s_idx st) (pad self) in
      match write_raises senv (out_dir self) name with
      | Some e => (st, Some e)
      | None =>
          (s_emit (Message (MsgOutput (out_dir self) name s1 e1))
             {| s_idx := s_idx st + 1;
                s_files :=
                  s_files st ++
                  [{| f_dir := out_dir self; f_name := name;
                      f_pages := pgs |}];
                s_trace := s_trace st |},
           None)
      end
  end.

(** [self.progress.emit(int(a / b * 100))] *)
Definition s_emit_progress (a b : Z) (st : SplitState)
  : SplitState * option exn :=
  match percent a b with
  | Some p => (s_emit (Progress p) st, None)
  | None => (st, Some ZeroDivisionError)
  end.

(** A [for] loop whose body may raise. *)
Fixpoint s_for {A : Type}
    (body : A -> SplitState -> SplitState * option exn)
    (xs : list A) (st : SplitState) : SplitState * option exn :=
  match xs with
  | [] => (st, None)
  | x :: xs' =>
      match body x st with
      | (st', None) => s_for body xs' st'
      | (st', Some e) => (st', Some e)
      end
  end.

(** Sequencing of two statements that may raise. *)
Definition s_then (r : SplitState * option exn)
    (k : SplitState -> SplitState * option exn) : SplitState * option exn :=
  match r with
  | (st, None) => k st
  | (st, Some e) => (st, Some e)
  end.

Definition each_body (self : SplitWorker) (reader_pages : list page)
    (total : Z) (p : Z) (st : SplitState) : SplitState * option exn :=
  s_then (write_range self reader_pages p p st) (s_emit_progress p total).

Definition chunk_body (self : SplitWorker) (reader_pages : list page)
    (total : Z) (c : Z) (st : SplitState) : SplitState * option exn :=
  let s := c * chunk_size self + 1 in
  let e := Z.min total ((c + 1) * chunk_size self) in
  s_then (write_range self reader_pages s e st) (s_emit_progress e total).

Definition ranges_body (self : SplitWorker) (reader_pages : list page)
    (n : Z) (ir : Z * (Z * Z)) (st : SplitState) : SplitState * option exn :=
  let '(i, (s, e)) := ir in
  s_then (write_range self reader_pages s e st) (s_emit_progress i n).

(** [enumerate(xs, start=1)] *)
Definition enumerate1 {A : Type} (xs : list A) : list (Z * A) :=
  combine (map (fun i => Z.of_nat i) (seq 1 (List.length xs))) xs.

(** The three branches on [self.mode]; [inl d] is an early
    [finished_error.emit(d); return]. *)
Definition split_modes (self : SplitWorker) (reader_pages : list page)
    (st : SplitState) : diagnostic + SplitState * option exn :=
  let total := Z.of_nat (List.length reader_pages) in
  if String.eqb (mode self) MODE_EACH then
    inr (s_for (each_body self reader_pages total) (py_range 1 (total + 1)) st)
  else if String.eqb (mode self) MODE_CHUNK then
    match py_floordiv (total + chunk_size self - 1) (chunk_size self) with
    | None => inr (st, Some ZeroDivisionError)
    | Some chunks =>
        inr (s_for (chunk_body self reader_pages total) (py_range 0 chunks) st)
    end
  else
    let rs := parse_ranges py_strip py_int (ranges_text self) total in
    match rs with
    | [] => inl BadRanges
    | _ =>
        inr (s_for (ranges_body self reader_pages (Z.of_nat (List.length rs)))
               (enumerate1 rs) st)
    end.

(** The state when [run] starts: [idx = self.start_index], nothing
    written or emitted. *)
Definition split_start (self : SplitWorker) : SplitState :=
  {| s_idx := start_index self; s_files := []; s_trace := [] |}.

(** [SplitWorker.run]: the final state holds the written files and the
    trace of the emitted signals. *)
Definition split_run (self : SplitWorker) : SplitState :=
  let st0 := split_start self in
  if negb (path_exists senv (src_path self)) then
    s_emit (FinishedError SourceMissing) st0
  else
    match makedirs_raises senv (str_or (out_dir self) ".") with
    | Some e => s_emit (FinishedError (Traceback e)) st0
    | None =>
        match s_open_pdf senv (src_path self) with
        | inl e => s_emit (FinishedError (Traceback e)) st0
        | inr reader =>
            if is_encrypted reader && decrypt_raises reader then
              s_emit (FinishedError EncryptedSource) st0
            else
              match pages_raise reader with
              | Some e => s_emit (FinishedError (Traceback e)) st0
              | None =>
                  match split_modes self (pages reader) st0 with
                  | inl d => s_emit (FinishedError d) st0
                  | inr (st, Some e) =>
                      s_emit (FinishedError (Traceback e)) st
                  | inr (st, None) => s_emit (FinishedOk (out_dir self)) st
                  end
              end
        end
    end.

End Workers.

Arguments Reader : clear implicits.
Arguments Writer : clear implicits.
Arguments MergeEnv : clear implicits.
Arguments MergeState : clear implicits.
Arguments OutFile : clear implicits.
Arguments SplitEnv : clear implicits.
Arguments SplitState : clear implicits.

(** ** Page rotation *)

(** The methods of a page object of the PDF library that the program calls.
    [None] stands for a raised exception, which leaves the page as it was. *)
Record PageAPI (P : Type) : Type := {
  (** the stored rotation of the page, in degrees *)
  rotation : P -> Z;
  (** [page.rotate(angle)] *)
  rotate : P -> Z -> option P;
  (** [page.rotate_clockwise(angle)] *)
  rotate_clockwise : P -> Z -> option P;
  (** [page.rotate_counter_clockwise(angle)] *)
  rotate_counter_clockwise : P -> Z -> option P
}.

Arguments rotation {P}.
Arguments rotate {P}.
Arguments rotate_clockwise {P}.
Arguments rotate_counter_clockwise {P}.

(** [rotate_page_inplace(page, deg)]: the page after the call, [None] when
    an exception leaves the function. *)
Definition rotate_page_inplace {P : Type} (api : PageAPI P) (pg : P) (deg : Z)
  : option P :=
  match rotate api pg deg with
  | Some pg' => Some pg'
  | None =>
      if deg mod 360 =? 90 then rotate_clockwise api pg 90
      else if deg mod 360 =? 180 then rotate_clockwise api pg 180
      else if deg mod 360 =? 270 then rotate_counter_clockwise api pg 90
      else Some pg
  end.

(** The page objects live in a store; [_edit_pages] lists references to
    them, and after a duplication two rows refer to one object. *)
Record EditSession (P : Type) : Type := {
  objects : nat -> P;
  _edit_pages : list nat
}.

Arguments objects {P}.
Arguments _edit_pages {P}.

Definition set_object {P : Type} (objs : nat -> P) (ref : nat) (pg : P)
  : nat -> P :=
  fun r => if Nat.eqb r ref then pg else objs r.

(** [for r in rows: rotate_page_inplace(self._edit_pages[r], deg)];
    [None] when an exception leaves the loop. *)
Fixpoint rotate_rows {P : Type} (api : PageAPI P) (pages : list nat)
    (deg : Z) (rows : list nat) (objs : nat -> P) : option (nat -> P) :=
  match rows with
  | [] => Some objs
  | r :: rows' =>
      match nth_error pages r with
      | None => None
      | Some ref =>
          match rotate_page_inplace api (objs ref) deg with
          | None => None
          | Some pg' => rotate_rows api pages deg rows' (set_object objs ref pg')
          end
      end
  end.

(** [PdfManagerWindow.on_edit_rotate(deg)] with the selected rows [rows]
    (sorted, without repetition); the two early returns leave the session
    as it is. *)
Definition on_edit_rotate {P : Type} (api : PageAPI P) (rows : list nat)
    (deg : Z) (s : EditSession P) : option (EditSession P) :=
  match _edit_pages s with
  | [] => Some s
  | _ =>
      match rows with
      | [] => Some s
      | _ =>
          match rotate_rows api (_edit_pages s) deg rows (objects s) with
          | None => None
          | Some objs => Some {| objects := objs; _edit_pages := _edit_pages s |}
          end
      end
  end.

(** A page that stores its rotation, whose [rotate] accepts the multiples
    of 90 and adds them to it, and that has none of the two older methods. *)
Definition stored_rotation_api : PageAPI Z :=
  {| rotation := fun r => r;
     rotate := fun r angle => if angle mod 90 =? 0 then Some (r + angle) else None;
     rotate_clockwise := fun _ _ => None;
     rotate_counter_clockwise := fun _ _ => None |}.

(** ** Preview scale *)

(** [self._preview_zoom_mode]: "fitw", "fitp" or "free". *)
Inductive ZoomMode : Type := fitw | fitp | free.

(** What [_render_preview] leaves in the preview pane. *)
Inductive Preview : Type :=
| PreviewUnavailable          (* "プレビューを有効にするには: ..." *)
| PreviewNoSelection          (* "ページを選択してください" *)
| PreviewFailed               (* "プレビューに失敗しました。..." *)
| PreviewShown (scale : Q).   (* the pixmap rendered with [fitz.Matrix(scale, scale)] *)

Record PreviewEnv : Type := {
  (** [_FitzOK] *)
  fitz_ok : bool;
  (** [page.rect.width, page.rect.height] of the one-page document made
      from a row; [None] when making or opening it raises *)
  page_rect : Z -> option (Q * Q);
  (** whether [page.get_pixmap] or the image conversion raises *)
  pixmap_raises : Z -> Q -> bool;
  (** [self.preview_scroll.viewport().size()] *)
  viewport_width : Z;
  viewport_height : Z
}.

(** [float(n)] for an integer. *)
Definition float_of_int (n : Z) : Q := B64.round (inject_Z n).

(** The scale computed by [_render_preview] from the viewport size and the
    page rectangle; [None] stands for [ZeroDivisionError]. *)
Definition preview_scale_for (mode : ZoomMode) (width height : Z) (pw ph : Q)
    (_preview_scale : Q) : option Q :=
  let vw := Z.max 1 (width - 6) in
  let vh := Z.max 1 (height - 6) in
  match mode with
  | fitw => B64.truediv (float_of_int vw) pw
  | fitp =>
      match B64.truediv (float_of_int vw) pw with
      | None => None
      | Some sw =>
          match B64.truediv (float_of_int vh) ph with
          | None => None
          | Some sh => Some (B64.min sw sh)
          end
      end
  | free => Some _preview_scale
  end.

(** [PdfManagerWindow._render_preview(row)] with [n_pages] the length of
    [self._edit_pages]. *)
Definition _render_preview (env : PreviewEnv) (n_pages : Z) (mode : ZoomMode)
    (_preview_scale : Q) (row : Z) : Preview :=
  if negb (fitz_ok env) then PreviewUnavailable
  else if (row <? 0) || (row >=? n_pages) then PreviewNoSelection
  else
    match page_rect env row with
    | None => PreviewFailed
    | Some (pw, ph) =>
        match preview_scale_for mode (viewport_width env) (viewport_height env)
                pw ph _preview_scale with
        | None => PreviewFailed
        | Some scale =>
            if pixmap_raises env row scale then PreviewFailed
            else PreviewShown scale
        end
    end.

(** ** Notions used to state the properties *)

(** What the program relies on from the page object: a call that returns
    has added the angle to the stored rotation ([rotate] and
    [rotate_clockwise]) or subtracted it ([rotate_counter_clockwise]), up to
    full turns. *)
Definition rotation_laws {P : Type} (api : PageAPI P) : Prop :=
  (forall pg a pg',
      rotate api pg a = Some pg' ->
      rotation api pg' mod 360 = (rotation api pg + a) mod 360)
  /\ (forall pg a pg',
        rotate_clockwise api pg a = Some pg' ->
        rotation api pg' mod 360 = (rotation api pg + a) mod 360)
  /\ (forall pg a pg',
        rotate_counter_clockwise api pg a = Some pg' ->
        rotation api pg' mod 360 = (rotation api pg - a) mod 360).

(** How many of the selected rows refer to the object [ref]. *)
Fixpoint hits (pages rows : list nat) (ref : nat) : Z :=
  match rows with
  | [] => 0
  | r :: rows' =>
      (match nth_error pages r with
       | Some ref' => if Nat.eqb ref' ref then 1 else 0
       | None => 0
       end) + hits pages rows' ref
  end.

(** The page spans [(s1, e1)] announced by the "出力" messages of a trace. *)
Fixpoint output_spans (tr : list event) : list (Z * Z) :=
  match tr with
  | [] => []
  | Message (MsgOutput _ _ s1 e1) :: tr' => (s1, e1) :: output_spans tr'
  | _ :: tr' => output_spans tr'
  end.

(** The pages numbered [s .. e] (from 1) of a document. *)
Definition span_pages {A : Type} (xs : list A) (s e : Z) : list A :=
  firstn (Z.to_nat (e - s + 1)) (skipn (Z.to_nat (s - 1)) xs).

(** The reader can be used: it is not an encrypted document whose
    [decrypt("")] raises, and its pages can be read. *)
Definition readable {page : Type} (r : Reader page) : Prop :=
  (is_encrypted r && decrypt_raises r = false) /\ pages_raise r = None.

(** The environment lets a split of [src] read the source as [r] and write
    every output file. *)
Definition split_env_ok {page : Type} (senv : SplitEnv page)
    (src out : string) (r : Reader page) : Prop :=
  path_exists senv src = true
  /\ makedirs_raises senv (str_or out ".") = None
  /\ s_open_pdf senv src = inr r
  /\ readable r
  /\ (forall dir name, write_raises senv dir name = None).

(** The document is encrypted and the attempt [decrypt("")] fails.  The PDF
    library tells a wrong password by the value that [decrypt] returns, which
    the program does not look at, and reading the pages then raises [e]
    before any page is handed over: [Some e].  The handler around the call
    is for a [decrypt] that itself raises: [None]. *)
Inductive undecryptable {page : Type} (r : Reader page) : option exn -> Prop :=
| decrypt_refuses (e : exn) :
    is_encrypted r = true -> decrypt_raises r = false ->
    pages r = [] -> pages_raise r = Some e ->
    undecryptable r (Some e)
| decrypt_raised :
    is_encrypted r = true -> decrypt_raises r = true ->
    undecryptable r None.

(** What a split reports for an undecryptable source: the traceback of the
    exception raised by the pages, or the text of the handler around
    [decrypt]. *)
Definition encrypted_diagnostic (why : option exn) : diagnostic :=
  match why with
  | Some e => Traceback e
  | None => EncryptedSource
  end.

(** The message with which a merge skips an undecryptable document: the one
    of [except Exception as e], or the one of the handler around
    [decrypt]. *)
Definition skip_message (x : PdfItem) (why : option exn) : message :=
  match why with
  | Some e => MsgSkipError (path x) e
  | None => MsgSkipEncrypted (path x)
  end.

(** The three causes of failure of a split named by the specification. *)
Inductive split_failure {page : Type} (py_strip : string -> string)
    (py_int : string -> option Z) (senv : SplitEnv page)
    (self : SplitWorker) : diagnostic -> Prop :=
| fail_missing :
    path_exists senv (src_path self) = false ->
    split_failure py_strip py_int senv self SourceMissing
| fail_encrypted (r : Reader page) (why : option exn) :
    path_exists senv (src_path self) = true ->
    makedirs_raises senv (str_or (out_dir self) ".") = None ->
    s_open_pdf senv (src_path self) = inr r ->
    undecryptable r why ->
    split_failure py_strip py_int senv self (encrypted_diagnostic why)
| fail_ranges (r : Reader page) :
    path_exists senv (src_path self) = true ->
    makedirs_raises senv (str_or (out_dir self) ".") = None ->
    s_open_pdf senv (src_path self) = inr r ->
    readable r ->
    mode self <> MODE_EACH -> mode self <> MODE_CHUNK ->
    (0 < List.length (pages r))%nat ->
    parse_ranges py_strip py_int (ranges_text self)
      (Z.of_nat (List.length (pages r))) = [] ->
    split_failure py_strip py_int senv self BadRanges.

(** The counter [idx] is the start index plus the number of files written
    so far, and file number [k] was named after index [start_index + k]. *)
Definition names_inv {page : Type} (self : SplitWorker) (st : SplitState page)
  : Prop :=
  s_idx st = start_index self + Z.of_nat (List.length (s_files st))
  /\ forall k f,
      nth_error (s_files st) k = Some f ->
      f_dir f = out_dir self
      /\ f_name f
         = out_name (filename_prefix self) (start_index self + Z.of_nat k)
             (pad self).

(** A document of one page that the merge loop can read. *)
Definition single_page {page : Type} (env : MergeEnv page) (y : PdfItem)
  : Prop :=
  exists ry pg,
    open_pdf env (path y) = inr ry /\ readable ry /\ pages ry = [pg].

(** No document of the plan is an encrypted one whose [decrypt("")]
    raises. *)
Definition no_encrypted_skip {page : Type} (env : MergeEnv page)
    (items : list PdfItem) : Prop :=
  forall y rd,
    In y items -> open_pdf env (path y) = inr rd ->
    is_encrypted rd && decrypt_raises rd = false.

(** The signals of a loop that emits, for each item in turn, the message
    that the item is being read, then messages only, then one progress
    value. *)
Inductive item_blocks : list PdfItem -> list Z -> list event -> Prop :=
| blocks_nil : item_blocks [] [] []
| blocks_cons (x : PdfItem) (p : Z) (msgs : list message)
    (xs : list PdfItem) (ps : list Z) (tr : list event) :
    item_blocks xs ps tr ->
    item_blocks (x :: xs) (p :: ps)
      (Message (MsgReading (path x)) :: map Message msgs ++ Progress p :: tr).

(** ** Concrete environments *)

(** An environment in which the source has the pages [1 .. n] and every
    call of the library and of the file system succeeds. *)
Definition plain_reader (n : nat) : Reader nat :=
  {| is_encrypted := false; decrypt_raises := false;
     pages := seq 1 n; pages_raise := None |}.

Definition plain_split_env (n : nat) : SplitEnv nat :=
  {| path_exists := fun _ => true;
     makedirs_raises := fun _ => None;
     s_open_pdf := fun _ => inr (plain_reader n);
     write_raises := fun _ _ => None |}.

(** An encrypted document whose [decrypt("")] raises. *)
Definition encrypted_reader : Reader nat :=
  {| is_encrypted := true; decrypt_raises := true;
     pages := [1%nat]; pages_raise := None |}.

Definition item (p : string) : PdfItem := {| path := p; size := 1024 |}.

(** Three one-page documents, of which "b.pdf" is encrypted with a
    [decrypt("")] that raises. *)
Definition three_docs_env : MergeEnv nat :=
  {| open_pdf := fun p =>
       if String.eqb p "b.pdf" then inr encrypted_reader
       else inr (plain_reader 1);
     add_outline_raises := fun _ _ => false;
     write_output := fun _ => None |}.

(** An encrypted document that the empty password does not open:
    [decrypt("")] returns, and reading the pages raises. *)
Definition locked_reader : Reader nat :=
  {| is_encrypted := true; decrypt_raises := false;
     pages := [];
     pages_raise := Some (LibraryError "File has not been decrypted") |}.

(** Three documents, of which "a.pdf" and "c.pdf" have one page and "b.pdf"
    is encrypted and not opened by the empty password. *)
Definition three_docs_locked_env : MergeEnv nat :=
  {| open_pdf := fun p =>
       if String.eqb p "b.pdf" then inr locked_reader
       else inr (plain_reader 1);
     add_outline_raises := fun _ _ => false;
     write_output := fun _ => None |}.

(** A page of the older library: no [rotate], and the two directed methods,
    which keep the stored rotation within [0, 360). *)
Definition legacy_rotation_api : PageAPI Z :=
  {| rotation := fun r => r;
     rotate := fun _ _ => None;
     rotate_clockwise := fun r angle => Some ((r + angle) mod 360);
     rotate_counter_clockwise := fun r angle => Some ((r - angle) mod 360) |}.

(** A viewport of 800 by 600 pixels showing a page of 400 by 300 points. *)
Definition preview_env_800 : PreviewEnv :=
  {| fitz_ok := true;
     page_rect := fun _ => Some (400, 300)%Q;
     pixmap_raises := fun _ _ => false;
     viewport_width := 800;
     viewport_height := 600 |}.

(** A viewport of 806 by 606 pixels showing a page of 400 by 300 points. *)
Definition preview_env_806 : PreviewEnv :=
  {| fitz_ok := true;
     page_rect := fun _ => Some (400, 300)%Q;
     pixmap_raises := fun _ _ => false;
     viewport_width := 806;
     viewport_height := 606 |}.

(** A terminal signal of a run. *)
Definition is_terminal (ev : event) : bool :=
  match ev with
  | FinishedOk _ | FinishedError _ => true
  | _ => false
  end.

(** The environment lets a split of [src] read the source as [r]; the
    writes may fail. *)
Definition split_source_ok {page : Type} (senv : SplitEnv page)
    (src out : string) (r : Reader page) : Prop :=
  path_exists senv src = true
  /\ makedirs_raises senv (str_or out ".") = None
  /\ s_open_pdf senv src = inr r
  /\ readable r.

(** No terminal signal has been emitted. *)
Definition running (tr : list event) : Prop :=
  forallb (fun ev => negb (is_terminal ev)) tr = true.

(** The trace of a finished run: signals of progress and messages, then
    one terminal signal. *)
Definition finished_with (tr : list event) (t : event) : Prop :=
  exists body, tr = body ++ [t] /\ running body /\ is_terminal t = true.

(** A source of five pages in an environment where the write of
    "p_003.pdf" raises and every other call succeeds. *)
Definition third_write_fails_env : SplitEnv nat :=
  {| path_exists := fun _ => true;
     makedirs_raises := fun _ => None;
     s_open_pdf := fun _ => inr (plain_reader 5);
     write_raises := fun _ name =>
       if String.eqb name "p_003.pdf" then Some (LibraryError "disk full")
       else None |}.

(** The text without its leading zeros. *)
Fixpoint drop_zeros (s : string) : string :=
  match s with
  | String "0" r => drop_zeros r
  | _ => s
  end.

(** The pages that the merge loop takes from an item: none when the
    document cannot be opened or is an encrypted one whose [decrypt("")]
    raises, else the pages the reader hands over. *)
Definition contribution {page : Type} (env : MergeEnv page) (x : PdfItem)
  : list page :=
  match open_pdf env (path x) with
  | inl _ => []
  | inr rd => if is_encrypted rd && decrypt_raises rd then [] else pages rd
  end.

(** Whether the item takes the encrypted branch of the merge loop. *)
Definition encrypted_skip {page : Type} (env : MergeEnv page) (x : PdfItem)
  : bool :=
  match open_pdf env (path x) with
  | inl _ => false
  | inr rd => is_encrypted rd && decrypt_raises rd
  end.

(** Every outline entry points at the place in the document where the
    pages of its source start. *)
Definition outline_on_sources {page : Type} (env : MergeEnv page)
    (w : Writer page) : Prop :=
  forall p i,
    In (p, i) (w_outline w) ->
    exists rd,
      open_pdf env p = inr rd
      /\ firstn (List.length (pages rd)) (skipn i (w_pages w)) = pages rd.

(** ** Printing a list of ranges *)

(** Every character of the text satisfies [P]. *)
Fixpoint all_chars (P : ascii -> bool) (s : string) : bool :=
  match s with
  | EmptyString => true
  | String c r => P c && all_chars P r
  end.

Definition is_digit (c : ascii) : bool :=
  match PyStr.digit_val c with Some _ => true | None => false end.

(** [f"{s}-{e}"] *)
Definition range_text (r : Z * Z) : string :=
  (PyStr.str (fst r) ++ "-" ++ PyStr.str (snd r))%string.

(** [",".join(ts)] *)
Fixpoint join_comma (ts : list string) : string :=
  match ts with
  | [] => EmptyString
  | [t] => t
  | t :: ts' => (t ++ "," ++ join_comma ts')%string
  end.

(** The characters of a printed range. *)
Definition range_char (a : ascii) : bool := is_digit a || Ascii.eqb a "-".

(** ** [natural_key] *)

(** An element of a sort key: [int(t)] or [t.lower()]. *)
Inductive key_token : Type :=
| KInt (n : Z)
| KStr (s : string).

(** [re.findall(r"\d+|\D+", s)] on ASCII text: the maximal runs of digits
    and of other characters, from left to right. *)
Fixpoint digit_runs (s : string) : list string :=
  match s with
  | EmptyString => []
  | String c r =>
      match digit_runs r with
      | String d t :: ts =>
          if Bool.eqb (is_digit c) (is_digit d)
          then String c (String d t) :: ts
          else String c EmptyString :: String d t :: ts
      | _ => [String c EmptyString]
      end
  end.

(** [c.lower()] for an ASCII character. *)
Definition lower_char (c : ascii) : ascii :=
  let n := nat_of_ascii c in
  if ((65 <=? n) && (n <=? 90))%nat then ascii_of_nat (n + 32) else c.

(** [s.lower()] on ASCII text. *)
Fixpoint py_lower (s : string) : string :=
  match s with
  | EmptyString => EmptyString
  | String c r => String (lower_char c) (py_lower r)
  end.

(** [t.isdigit()] on ASCII text. *)
Definition py_isdigit (t : string) : bool :=
  match t with
  | EmptyString => false
  | _ => all_chars is_digit t
  end.

(** The list comprehension of [natural_key]; [None] stands for the
    [ValueError] of [int]. *)
Fixpoint key_of_runs (ts : list string) : option (list key_token) :=
  match ts with
  | [] => Some []
  | t :: ts' =>
      let head :=
        if py_isdigit t then option_map KInt (PyStr.int t)
        else Some (KStr (py_lower t)) in
      match head with
      | None => None
      | Some k =>
          match key_of_runs ts' with
          | None => None
          | Some ks => Some (k :: ks)
          end
      end
  end.

(** [natural_key(s)] *)
Definition natural_key (s : string) : option (list key_token) :=
  key_of_runs (digit_runs s).

(** [x == y] for two elements of a key: an integer never equals a text. *)
Definition token_eqb (x y : key_token) : bool :=
  match x, y with
  | KInt m, KInt n => m =? n
  | KStr s, KStr t => String.eqb s t
  | _, _ => false
  end.

(** [x < y] for two elements of a key; [None] stands for the [TypeError]
    of comparing an integer with a text. *)
Definition token_lt (x y : key_token) : option bool :=
  match x, y with
  | KInt m, KInt n => Some (m <? n)
  | KStr s, KStr t => Some (String.ltb s t)
  | _, _ => None
  end.

(** [a < b] for two keys, as [list.sort] asks: the first elements that
    differ decide, else the shorter key is the smaller. *)
Fixpoint key_lt (a b : list key_token) : option bool :=
  match a, b with
  | [], [] => Some false
  | [], _ :: _ => Some true
  | _ :: _, [] => Some false
  | x :: a', y :: b' => if token_eqb x y then key_lt a' b' else token_lt x y
  end.

(** [natural_key(s) < natural_key(t)] *)
Definition natural_lt (s t : string) : option bool :=
  match natural_key s, natural_key t with
  | Some a, Some b => key_lt a b
  | _, _ => None
  end.

(** The runs of a text of one kind: none when it is empty. *)
Definition whole_run (s : string) : list string :=
  match s with
  | EmptyString => []
  | _ => [s]
  end.

(** No character of the text is a digit. *)
Definition digit_free (s : string) : bool :=
  all_chars (fun c => negb (is_digit c)) s.

(** A run: not empty, with characters of one kind. *)
Definition run_of (digit : bool) (t : string) : Prop :=
  t <> EmptyString /\ all_chars (fun c => Bool.eqb (is_digit c) digit) t = true.

From Stdlib Require Import Sorted Permutation.

(** ** The page list of the edit tab *)

(** [sorted({i.row() for i in w.selectedIndexes()})]: the selected rows in
    increasing order, each once. *)
Fixpoint insert_row (r : nat) (rows : list nat) : list nat :=
  match rows with
  | [] => [r]
  | x :: rows' =>
      if (r <? x)%nat then r :: rows
      else if (r =? x)%nat then rows
      else x :: insert_row r rows'
  end.

Definition sorted_rows (selected : list nat) : list nat :=
  fold_right insert_row [] selected.

(** [xs.pop(r)] for [r >= 0]; [None] stands for [IndexError]. *)
Definition py_pop {A : Type} (xs : list A) (r : nat) : option (list A) :=
  if (r <? List.length xs)%nat then Some (firstn r xs ++ skipn (S r) xs)
  else None.

(** [for r in rows: xs.pop(r)] *)
Fixpoint pop_rows {A : Type} (rows : list nat) (xs : list A)
  : option (list A) :=
  match rows with
  | [] => Some xs
  | r :: rows' =>
      match py_pop xs r with
      | None => None
      | Some xs' => pop_rows rows' xs'
      end
  end.

(** [xs.insert(i, x)] for [i >= 0]: an index past the end appends. *)
Definition py_insert {A : Type} (xs : list A) (i : nat) (x : A) : list A :=
  firstn i xs ++ x :: skipn i xs.

(** [for offset, pg in enumerate(new): xs.insert(pos + offset, pg)] *)
Fixpoint insert_each {A : Type} (pos : nat) (new : list A) (xs : list A)
  : list A :=
  match new with
  | [] => xs
  | pg :: new' => insert_each (S pos) new' (py_insert xs pos pg)
  end.

(** The message boxes of the edit operations that end them early. *)
Inductive edit_notice : Type :=
| LoadFirst            (* "PDFを読み込んでください。" *)
| SelectFirst          (* "...ページを選択してください。" *)
| Cancelled            (* a dialog was dismissed: nothing shown *)
| EncryptedInsert      (* "暗号化PDFは挿入できません。" *)
| InsertReadFailed     (* "挿入元の読み込みに失敗しました。..." *)
| InsertBadRanges.     (* "範囲の指定が不正です。" *)

(** What an edit operation does: it shows a notice and changes nothing, it
    leaves a new page list (with the row given to [setCurrentRow], where
    the code calls it), or an exception leaves the slot. *)
Inductive edit_result (A : Type) : Type :=
| Notice (n : edit_notice)
| Edited (pages : list A) (current_row : option Z)
| EditRaised (e : exn).

Arguments Notice {A}.
Arguments Edited {A}.
Arguments EditRaised {A}.

(** [PdfManagerWindow.on_edit_delete_pages] on the page list, with the
    selected rows. *)
Definition on_edit_delete_pages {A : Type} (selected : list nat)
    (_edit_pages : list A) : edit_result A :=
  match _edit_pages with
  | [] => Notice LoadFirst
  | _ =>
      let rows := rev (sorted_rows selected) in
      match rows with
      | [] => Notice SelectFirst
      | _ =>
          match pop_rows rows _edit_pages with
          | None => EditRaised IndexError
          | Some pages' =>
              let next_row :=
                match pages' with
                | [] => -1
                | _ => Z.min (Z.of_nat (last rows 0%nat))
                         (Z.of_nat (List.length pages') - 1)
                end in
              Edited pages' (Some next_row)
          end
      end
  end.

(** [[xs[r] for r in rows]] for rows [>= 0]. *)
Fixpoint rows_of {A : Type} (xs : list A) (rows : list nat)
  : option (list A) :=
  match rows with
  | [] => Some []
  | r :: rows' =>
      match nth_error xs r with
      | None => None
      | Some x =>
          match rows_of xs rows' with
          | None => None
          | Some more => Some (x :: more)
          end
      end
  end.

(** [PdfManagerWindow.on_edit_duplicate_pages] *)
Definition on_edit_duplicate_pages {A : Type} (selected : list nat)
    (_edit_pages : list A) : edit_result A :=
  match _edit_pages with
  | [] => Notice LoadFirst
  | _ =>
      let rows := sorted_rows selected in
      match rows with
      | [] => Notice SelectFirst
      | _ =>
          match rows_of _edit_pages rows with
          | None => EditRaised IndexError
          | Some copies => Edited (_edit_pages ++ copies) None
          end
      end
  end.

(** The duplication on a session: the copies are further references to the
    page objects of the selected rows. *)
Definition duplicate_in_session {P : Type} (selected : list nat)
    (s : EditSession P) : option (EditSession P) :=
  match on_edit_duplicate_pages selected (_edit_pages s) with
  | Edited pages' _ => Some {| objects := objects s; _edit_pages := pages' |}
  | Notice _ => Some s
  | EditRaised _ => None
  end.

(** The pages [r.pages[i]] for [i] in [range(s-1, e)], for each range. *)
Fixpoint pages_of_ranges {A : Type} (src : list A) (rs : list (Z * Z))
  : option (list A) :=
  match rs with
  | [] => Some []
  | (s, e) :: rs' =>
      match collect_pages src (py_range (s - 1) e) with
      | None => None
      | Some pgs =>
          match pages_of_ranges src rs' with
          | None => None
          | Some more => Some (pgs ++ more)
          end
      end
  end.

(** What the dialogs of [on_edit_insert_pages] return and what the PDF
    library gives for the chosen file. *)
Record InsertInput (A : Type) : Type := {
  (** [self.list_edit_pages.currentRow()] *)
  current_row : Z;
  (** the path of [getOpenFileName], empty when dismissed *)
  chosen_path : string;
  (** [PdfReader(src_path, strict=False)] *)
  chosen_reader : exn + Reader A;
  (** [QInputDialog.getText]: the text and the OK flag *)
  ranges_input : string;
  ranges_ok : bool
}.

Arguments current_row {A}.
Arguments chosen_path {A}.
Arguments chosen_reader {A}.
Arguments ranges_input {A}.
Arguments ranges_ok {A}.

(** [PdfManagerWindow.on_edit_insert_pages], with [py_strip] and [py_int]
    for [str.strip] and [int] as in [parse_ranges]; the test
    [_edit_pages is None] never holds, the list being created empty. *)
Definition on_edit_insert_pages {A : Type} (py_strip : string -> string)
    (py_int : string -> option Z) (inp : InsertInput A)
    (_edit_pages : list A) : edit_result A :=
  let pos := if current_row inp >=? 0 then Z.to_nat (current_row inp)
             else 0%nat in
  if is_empty (chosen_path inp) then Notice Cancelled
  else
    match chosen_reader inp with
    | inl _ => Notice InsertReadFailed
    | inr r =>
        if is_encrypted r && decrypt_raises r then Notice EncryptedInsert
        else
          match pages_raise r with
          | Some _ => Notice InsertReadFailed
          | None =>
              let total := Z.of_nat (List.length (pages r)) in
              if negb (ranges_ok inp)
                 || is_empty (py_strip (ranges_input inp))
              then Notice Cancelled
              else
                match parse_ranges py_strip py_int (ranges_input inp)
                        total with
                | [] => Notice InsertBadRanges
                | rs =>
                    match pages_of_ranges (pages r) rs with
                    | None => EditRaised IndexError
                    | Some new =>
                        Edited (insert_each pos new _edit_pages)
                          (Some (Z.of_nat pos))
                    end
                end
          end
    end.

(** The elements of a list whose row satisfies [keep], rows counted from
    [i]. *)
Fixpoint keep_rows {A : Type} (i : nat) (keep : nat -> bool) (xs : list A)
  : list A :=
  match xs with
  | [] => []
  | x :: xs' =>
      if keep i then x :: keep_rows (S i) keep xs'
      else keep_rows (S i) keep xs'
  end.

(** The row is among the selected ones. *)
Definition selected_row (selected : list nat) (i : nat) : bool :=
  existsb (Nat.eqb i) selected.

(** ** Zoom of the preview *)

(** [max(a, b)] on two floats: the first argument unless the second is
    greater. *)
Definition float_max (a b : Q) : Q :=
  match Qcompare b a with Gt => b | _ => a end.

(** The float literals [0.1] and [8.0]. *)
Definition zoom_low : Q := B64.round (1 # 10).
Definition zoom_high : Q := 8%Q.

Record ZoomState : Type := {
  _preview_zoom_mode : ZoomMode;
  _preview_scale : Q
}.

(** [PdfManagerWindow._set_zoom(mode, mul)], before the preview is drawn
    again; [mul or 1.0] replaces a missing or zero factor by [1.0].  A
    product beyond the largest float is infinite in Python and a large
    rational here: [min(8.0, _)] gives [8.0] for both. *)
Definition _set_zoom (mode : ZoomMode) (mul : option Q) (z : ZoomState)
  : ZoomState :=
  match mode with
  | fitw | fitp =>
      {| _preview_zoom_mode := mode; _preview_scale := _preview_scale z |}
  | free =>
      let m := match mul with
               | Some m => if B64.is_zero m then 1%Q else m
               | None => 1%Q
               end in
      let scaled := B64.mul (_preview_scale z) m in
      {| _preview_zoom_mode := free;
         _preview_scale := float_max zoom_low (B64.min zoom_high scaled) |}
  end.

(** The state set by the constructor of the window. *)
Definition zoom_initial : ZoomState :=
  {| _preview_zoom_mode := fitw; _preview_scale := 1%Q |}.

(** A sequence of calls of [_set_zoom], each with its mode and factor. *)
Definition zoom_calls (calls : list (ZoomMode * option Q)) (z : ZoomState)
  : ZoomState :=
  fold_left (fun z c => _set_zoom (fst c) (snd c) z) calls z.

Definition zoom_in_range (z : ZoomState) : Prop :=
  (zoom_low <= _preview_scale z)%Q /\ (_preview_scale z <= zoom_high)%Q.

(** ** The list of the merge tab *)

(** The rows of a [QListWidget], each standing for the path it carries as
    [Qt.UserRole] data.  [takeItem(row)] removes the item of the row and
    returns it (nothing, for a row out of range); [insertItem(row, item)]
    puts it in front of the item of that row (at the end, for a row past
    the end); [addItem(item)] puts it at the end. *)
Definition takeItem {A : Type} (row : nat) (w : list A) : option A * list A :=
  match nth_error w row with
  | Some x => (Some x, firstn row w ++ skipn (S row) w)
  | None => (None, w)
  end.

Definition insertItem {A : Type} (row : nat) (item : option A) (w : list A)
  : list A :=
  match item with
  | Some x => firstn row w ++ x :: skipn row w
  | None => w
  end.

Definition addItem {A : Type} (item : option A) (w : list A) : list A :=
  match item with
  | Some x => w ++ [x]
  | None => w
  end.

(** The model of the merge tab: [self.items] and the rows of
    [self.list_widget]. *)
Record MergeTab : Type := {
  items : list PdfItem;
  list_widget : list string
}.

(** [path_to_item[p]] for [path_to_item = {it.path: it for it in items}]:
    the last item with that path. *)
Definition path_to_item (its : list PdfItem) (p : string) : option PdfItem :=
  find (fun it => String.eqb (path it) p) (rev its).

(** [PdfManagerWindow._sync_model_from_list] *)
Definition _sync_model_from_list (t : MergeTab) : MergeTab :=
  {| items :=
       flat_map (fun p => match path_to_item (items t) p with
                          | Some it => [it]
                          | None => []
                          end) (list_widget t);
     list_widget := list_widget t |}.

(** [PdfManagerWindow._refresh_list_widget]: one row per item. *)
Definition _refresh_list_widget (t : MergeTab) : MergeTab :=
  {| items := items t; list_widget := map path (items t) |}.

(** The loop of [_move_top]: [idx] counts the rows done. *)
Fixpoint move_top_rows {A : Type} (idx : nat) (rows : list nat) (w : list A)
  : list A :=
  match rows with
  | [] => w
  | row :: rows' =>
      let (item, w1) := takeItem (row - idx) w in
      move_top_rows (S idx) rows' (insertItem idx item w1)
  end.

(** [PdfManagerWindow._move_top] with the selected rows. *)
Definition _move_top (selected : list nat) (t : MergeTab) : MergeTab :=
  match sorted_rows selected with
  | [] => t
  | rows =>
      _sync_model_from_list
        {| items := items t;
           list_widget := move_top_rows 0 rows (list_widget t) |}
  end.

(** The loop of [_move_bottom]. *)
Fixpoint move_bottom_rows {A : Type} (rows : list nat) (w : list A) : list A :=
  match rows with
  | [] => w
  | row :: rows' =>
      let (item, w1) := takeItem row w in
      move_bottom_rows rows' (addItem item w1)
  end.

(** [PdfManagerWindow._move_bottom] *)
Definition _move_bottom (selected : list nat) (t : MergeTab) : MergeTab :=
  match rev (sorted_rows selected) with
  | [] => t
  | rows =>
      _sync_model_from_list
        {| items := items t;
           list_widget := move_bottom_rows rows (list_widget t) |}
  end.

(** The loop of [_move_selected]. *)
Fixpoint move_rows {A : Type} (delta : Z) (rows : list nat) (w : list A)
  : list A :=
  match rows with
  | [] => w
  | row :: rows' =>
      let new_row := Z.of_nat row + delta in
      if (0 <=? new_row) && (new_row <? Z.of_nat (List.length w)) then
        let (item, w1) := takeItem row w in
        move_rows delta rows' (insertItem (Z.to_nat new_row) item w1)
      else move_rows delta rows' w
  end.

(** [PdfManagerWindow._move_selected(delta)] *)
Definition _move_selected (delta : Z) (selected : list nat) (t : MergeTab)
  : MergeTab :=
  match sorted_rows selected with
  | [] => t
  | rows =>
      _sync_model_from_list
        {| items := items t;
           list_widget := move_rows delta rows (list_widget t) |}
  end.

(** The loop of [_remove_selected]. *)
Fixpoint remove_rows {A : Type} (rows : list nat) (w : list A) : list A :=
  match rows with
  | [] => w
  | row :: rows' => remove_rows rows' (snd (takeItem row w))
  end.

(** [PdfManagerWindow._remove_selected] *)
Definition _remove_selected (selected : list nat) (t : MergeTab) : MergeTab :=
  _sync_model_from_list
    {| items := items t;
       list_widget := remove_rows (rev (sorted_rows selected)) (list_widget t) |}.

(** The tab after a scan: the paths of the items are distinct, and the
    rows of the widget are the items in order. *)
Definition tab_ok (t : MergeTab) : Prop :=
  NoDup (map path (items t)) /\ list_widget t = map path (items t).

(** The rows [r, r+1, .., r+k-1]. *)
Definition row_block (r k : nat) : list nat := seq r k.

(** ** The split form *)

(** The fields of the split tab that [on_split] reads. *)
Record SplitForm : Type := {
  txt_src : string;
  txt_outdir : string;
  txt_prefix : string;
  rb_each : bool;
  rb_chunk : bool;
  spin_chunk : Z;
  txt_ranges : string;
  spin_pad : Z;
  spin_start : Z
}.

(** [PdfManagerWindow.on_split], up to the construction of the worker;
    [None] is the warning about the missing source.  [default_outdir src]
    stands for [os.path.join(os.path.dirname(src), "split")]. *)
Definition on_split (default_outdir : string -> string) (f : SplitForm)
  : option SplitWorker :=
  let src := PyStr.strip (txt_src f) in
  if is_empty src then None
  else
    let outdir := str_or (PyStr.strip (txt_outdir f)) (default_outdir src) in
    let prefix := str_or (PyStr.strip (txt_prefix f)) "part" in
    let pad := spin_pad f in
    let start := spin_start f in
    if rb_each f then
      Some (SplitWorker_init src outdir prefix MODE_EACH 1 "" pad start)
    else if rb_chunk f then
      Some (SplitWorker_init src outdir prefix MODE_CHUNK (spin_chunk f) ""
              pad start)
    else
      Some (SplitWorker_init src outdir prefix MODE_RANGES 1
              (PyStr.strip (txt_ranges f)) pad start).

(** The ranges that the constructor of the window gives to the three spin
    boxes. *)
Definition spin_ranges (f : SplitForm) : Prop :=
  1 <= spin_chunk f <= 9999
  /\ 1 <= spin_pad f <= 6
  /\ 0 <= spin_start f <= 999999.

(** ** Extraction of pages *)

(** [s.endswith(suffix)] *)
Definition ends_with (suffix s : string) : bool :=
  let n := String.length s in
  let k := String.length suffix in
  (k <=? n)%nat && String.eqb (substring (n - k) k s) suffix.

(** What [on_edit_extract_pages] does: a notice, the file written with its
    pages, or an exception that leaves the slot. *)
Inductive extract_result (A : Type) : Type :=
| ExtractNotice (n : edit_notice)
| Extracted (file : string) (pages : list A)
| ExtractRaised (e : exn).

Arguments ExtractNotice {A}.
Arguments Extracted {A}.
Arguments ExtractRaised {A}.

(** [PdfManagerWindow.on_edit_extract_pages]: [save_path] is what
    [getSaveFileName] returns, [write_raises] the exception of
    [open(path, "wb")] or [w.write(f)], if any.  The page list is not
    changed. *)
Definition on_edit_extract_pages {A : Type} (selected : list nat)
    (save_path : string) (write_raises : string -> option exn)
    (_edit_pages : list A) : extract_result A :=
  match _edit_pages with
  | [] => ExtractNotice LoadFirst
  | _ =>
      match sorted_rows selected with
      | [] => ExtractNotice SelectFirst
      | rows =>
          if is_empty save_path then ExtractNotice Cancelled
          else
            let file :=
              if ends_with ".pdf" (py_lower save_path) then save_path
              else (save_path ++ ".pdf")%string in
            match rows_of _edit_pages rows with
            | None => ExtractRaised IndexError
            | Some pgs =>
                match write_raises file with
                | Some e => ExtractRaised e
                | None => Extracted file pgs
                end
            end
      end
  end.

(** * Properties *)

(** ** The range parser *)

Section RangeParserFacts.

Variable py_strip : string -> string.
Variable py_int : string -> option Z.

Let part_of := parse_part py_strip py_int.

Lemma parse_part_app (total : Z) (rngs : list (Z * Z)) (part : string) :
  part_of total rngs part = rngs ++ part_of total [] part.
Proof.
  unfold part_of, parse_part.
  destruct (is_empty (py_strip part)); [now rewrite app_nil_r|].
  destruct (PyStr.split_first "-" (py_strip part)) as [[a b]|].
  - destruct (py_int a) as [ia|]; [|now rewrite app_nil_r].
    now destruct (_ >? _).
  - destruct (py_int (py_strip part)); [reflexivity|now rewrite app_nil_r].
Qed.

Lemma parse_fold_flat_map (total : Z) (parts : list string) :
  forall rngs,
    fold_left (part_of total) parts rngs
    = rngs ++ flat_map (part_of total []) parts.
Proof.
  induction parts as [|part parts IH]; intros rngs; simpl.
  - now rewrite app_nil_r.
  - rewrite IH, parse_part_app, <- app_assoc. reflexivity.
Qed.

Lemma clamp_bounds (total x : Z) :
  1 <= total -> 1 <= clamp total x <= total.
Proof. unfold clamp. lia. Qed.

Lemma parse_part_bounds (total : Z) (part : string) :
  1 <= total -> Forall (in_bounds total) (part_of total [] part).
Proof.
  intros Ht. unfold part_of, parse_part.
  destruct (is_empty (py_strip part)); [constructor|].
  destruct (PyStr.split_first "-" (py_strip part)) as [[a b]|].
  - destruct (py_int a) as [ia|]; [|constructor].
    pose proof (clamp_bounds total ia Ht) as Ha.
    destruct (py_int b) as [ib|].
    + pose proof (clamp_bounds total ib Ht) as Hb.
      destruct (Z.gtb_spec (clamp total ia) (clamp total ib));
        repeat constructor; simpl; lia.
    + rewrite Z.gtb_ltb, Z.ltb_irrefl. repeat constructor; simpl; lia.
  - destruct (py_int (py_strip part)) as [p|]; [|constructor].
    pose proof (clamp_bounds total p Ht).
    repeat constructor; simpl; lia.
Qed.

Lemma parse_part_at_most_one (total : Z) (part : string) :
  (List.length (part_of total [] part) <= 1)%nat.
Proof.
  unfold part_of, parse_part.
  destruct (is_empty (py_strip part)); [simpl; lia|].
  destruct (PyStr.split_first "-" (py_strip part)) as [[a b]|].
  - destruct (py_int a); [|simpl; lia]. destruct (_ >? _); simpl; lia.
  - destruct (py_int (py_strip part)); simpl; lia.
Qed.

Lemma parse_ranges_flat_map (text : string) (total : Z) :
  parse_ranges py_strip py_int text total
  = flat_map (part_of total []) (tokens py_strip text).
Proof.
  unfold parse_ranges, tokens.
  destruct (is_empty (py_strip text)); [reflexivity|].
  apply (parse_fold_flat_map total _ []).
Qed.

End RangeParserFacts.

(** C2. The reference examples of the range parser:
    "1-3,5,7-10" on 10 pages gives (1,3), (5,5), (7,10); "5-2" gives (2,5);
    "0,99" gives (1,1), (10,10); the empty text gives no interval, for every
    page count; "abc" gives no interval. *)
Theorem parse_ranges_examples :
  parse_ranges_ascii "1-3,5,7-10" 10 = [(1, 3); (5, 5); (7, 10)]
  /\ parse_ranges_ascii "5-2" 10 = [(2, 5)]
  /\ parse_ranges_ascii "0,99" 10 = [(1, 1); (10, 10)]
  /\ (forall n : Z, parse_ranges_ascii "" n = [])
  /\ parse_ranges_ascii "abc" 10 = [].
Proof.
  repeat split; try (vm_compute; reflexivity).
Qed.

(** C7, as stated, fails for a document without pages: with [total_pages = 0]
    the text "1" gives the interval (1,1), whose end exceeds the page
    count. *)
Lemma parse_ranges_zero_pages_out_of_bounds :
  parse_ranges PyStr.strip PyStr.int "1" 0 = [(1, 1)]
  /\ ~ Forall (in_bounds 0) (parse_ranges PyStr.strip PyStr.int "1" 0).
Proof.
  split; [reflexivity|].
  intros H. change (Forall (in_bounds 0) [(1, 1)]) in H.
  inversion H as [|r l Hr _]; subst. unfold in_bounds in Hr; simpl in Hr. lia.
Qed.

(** C7 (amended). For every text and every [total_pages >= 1], whatever
    [strip] and [int] accept: every interval returned by [parse_ranges]
    satisfies [1 <= start <= end <= total_pages]; the result is the
    concatenation, in the order of the comma-separated fields, of what each
    field yields on its own, and a field yields at most one interval, so
    nothing is merged or reordered. *)
Theorem parse_ranges_invariant
    (py_strip : string -> string) (py_int : string -> option Z)
    (text : string) (total_pages : Z) :
  1 <= total_pages ->
  Forall (in_bounds total_pages) (parse_ranges py_strip py_int text total_pages)
  /\ parse_ranges py_strip py_int text total_pages
     = flat_map (parse_part py_strip py_int total_pages [])
         (tokens py_strip text)
  /\ (forall part,
        (List.length (parse_part py_strip py_int total_pages [] part) <= 1)%nat).
Proof.
  intros Ht. split; [|split].
  - rewrite parse_ranges_flat_map.
    induction (tokens py_strip text) as [|part parts IH]; simpl.
    + constructor.
    + apply Forall_app. split; [now apply parse_part_bounds|exact IH].
  - apply parse_ranges_flat_map.
  - intros part. apply parse_part_at_most_one.
Qed.

Lemma parse_ranges_invariant_witness :
  1 <= 10
  /\ Forall (in_bounds 10) (parse_ranges PyStr.strip PyStr.int "7-2,1-3,x,99" 10).
Proof.
  split; [lia|].
  apply (parse_ranges_invariant PyStr.strip PyStr.int "7-2,1-3,x,99" 10). lia.
Defined.

(** ** Percentages *)

Lemma percent_defined (a b : Z) : b <> 0 -> exists p, percent a b = Some p.
Proof.
  intros Hb. unfold percent, int_truediv, B64.truediv, B64.is_zero. simpl.
  destruct b; [congruence| |]; eexists; reflexivity.
Qed.

(** The model of binary64 rounding gives the results of the IEEE 754
    division and multiplication of the standard library on all quotients
    and percentages of two integers from 1 to 64. *)
Lemma model_agrees_with_ieee : agrees_with_ieee 64 = true.
Proof. vm_compute. reflexivity. Qed.

(** [int(29 / 100 * 100)] is 28: the float nearest to 0.29, times 100,
    rounds to a float just below 29. *)
Example percent_29_of_100 : percent 29 100 = Some 28.
Proof. vm_compute. reflexivity. Qed.

(** *** Rounding is monotone *)

Lemma rne_floor (n d : Z) : 0 < d -> n / d <= B64.rne n d <= n / d + 1.
Proof.
  intros Hd. unfold B64.rne.
  destruct (2 * (n mod d) ?= d); [destruct (Z.even (n / d))| |]; lia.
Qed.

Lemma rne_ge (n d c : Z) : 0 < d -> c * d <= n -> c <= B64.rne n d.
Proof.
  intros Hd H. pose proof (rne_floor n d Hd).
  assert (c <= n / d) by (apply Z.div_le_lower_bound; lia). lia.
Qed.

Lemma rne_le (n d c : Z) : 0 < d -> n <= c * d -> B64.rne n d <= c.
Proof.
  intros Hd H. unfold B64.rne.
  pose proof (Z.div_mod n d ltac:(lia)) as Hdm.
  pose proof (Z.mod_pos_bound n d Hd) as Hm.
  assert (Hq : n / d <= c) by (apply Z.div_le_upper_bound; lia).
  destruct (Z.eq_dec (n / d) c) as [E|N].
  - assert (n mod d = 0) by nia.
    replace (2 * (n mod d) ?= d) with Lt; [lia|].
    symmetry. apply Z.compare_lt_iff. lia.
  - destruct (2 * (n mod d) ?= d); [destruct (Z.even (n / d))| |]; lia.
Qed.

Lemma rne_monotone (n1 d1 n2 d2 : Z) :
  0 < d1 -> 0 < d2 -> n1 * d2 <= n2 * d1 -> B64.rne n1 d1 <= B64.rne n2 d2.
Proof.
  intros H1 H2 H.
  pose proof (Z.div_mod n1 d1 ltac:(lia)) as Hdm1.
  pose proof (Z.mod_pos_bound n1 d1 H1) as Hm1.
  pose proof (Z.div_mod n2 d2 ltac:(lia)) as Hdm2.
  pose proof (Z.mod_pos_bound n2 d2 H2) as Hm2.
  pose proof (rne_floor n1 d1 H1) as F1.
  pose proof (rne_floor n2 d2 H2) as F2.
  assert (Hq : n1 / d1 <= n2 / d2).
  { apply Z.div_le_lower_bound; [lia|].
    assert (d1 * (d2 * (n1 / d1)) <= d1 * n2) by nia.
    apply Z.mul_le_mono_pos_l with (p := d1); lia. }
  destruct (Z.eq_dec (n1 / d1) (n2 / d2)) as [E|N]; [|lia].
  assert (Hr : (n1 mod d1) * d2 <= (n2 mod d2) * d1) by nia.
  unfold B64.rne. rewrite <- E.
  destruct (Z.compare_spec (2 * (n1 mod d1)) d1) as [C1|C1|C1];
    destruct (Z.compare_spec (2 * (n2 mod d2)) d2) as [C2|C2|C2];
    try destruct (Z.even (n1 / d1)); try lia; nia.
Qed.

Lemma ilog2_scaled (n d : Z) :
  0 < n -> 0 < d -> Z.log2 n - Z.log2 d <= 52 ->
  let k := B64.ilog2 n d in
  Z.log2 n - Z.log2 d - 1 <= k <= Z.log2 n - Z.log2 d
  /\ 2 ^ 52 * d <= n * 2 ^ (52 - k) < 2 ^ 53 * d.
Proof.
  intros Hn Hd Hk0. unfold B64.ilog2.
  set (a := Z.log2 n) in *. set (b := Z.log2 d) in *.
  destruct (Z.log2_spec n Hn) as [Ha1 Ha2]. fold a in Ha1, Ha2.
  destruct (Z.log2_spec d Hd) as [Hb1 Hb2]. fold b in Hb1, Hb2.
  pose proof (Z.log2_nonneg n) as Ha0. fold a in Ha0.
  pose proof (Z.log2_nonneg d) as Hb0. fold b in Hb0.
  set (k0 := a - b) in *.
  set (p := 2 ^ (52 - k0)).
  assert (Hp : 0 < p) by (apply Z.pow_pos_nonneg; lia).
  assert (Hp2 : 2 ^ (52 - (k0 - 1)) = 2 * p).
  { unfold p. replace (52 - (k0 - 1)) with (Z.succ (52 - k0)) by lia.
    rewrite Z.pow_succ_r by lia. reflexivity. }
  assert (Hab : 2 ^ Z.succ a * p = 2 ^ 53 * 2 ^ b).
  { unfold p, k0. rewrite <- !Z.pow_add_r by lia. f_equal; lia. }
  rewrite Z.pow_succ_r in Hab, Ha2, Hb2 by lia.
  assert (Htest : (if 0 <=? k0 then d * 2 ^ k0 <=? n else d <=? n * 2 ^ (- k0))
                  = (d * 2 ^ 52 <=? n * p)).
  { destruct (Z.leb_spec 0 k0) as [H0|H0].
    - assert (E : 2 ^ 52 = 2 ^ k0 * p).
      { unfold p. rewrite <- Z.pow_add_r by lia. f_equal; lia. }
      rewrite E.
      assert (0 < 2 ^ k0) by (apply Z.pow_pos_nonneg; lia).
      destruct (Z.leb_spec (d * 2 ^ k0) n);
        destruct (Z.leb_spec (d * (2 ^ k0 * p)) (n * p)); try reflexivity; nia.
    - assert (E : p = 2 ^ 52 * 2 ^ (- k0)).
      { unfold p. rewrite <- Z.pow_add_r by lia. f_equal; lia. }
      rewrite E.
      destruct (Z.leb_spec d (n * 2 ^ (- k0)));
        destruct (Z.leb_spec (d * 2 ^ 52) (n * (2 ^ 52 * 2 ^ (- k0))));
        try reflexivity; nia. }
  rewrite Htest.
  destruct (Z.leb_spec (d * 2 ^ 52) (n * p)) as [Ht|Ht].
  - split; [lia|]. fold p. split; [lia|]. nia.
  - split; [lia|]. rewrite Hp2. split; nia.
Qed.

Lemma round_pos_normal (n d : Z) :
  in_range n d ->
  let s := 52 - B64.ilog2 n d in
  let m := B64.rne (n * 2 ^ s) d in
  0 < s <= 1074
  /\ 2 ^ 52 * d <= n * 2 ^ s < 2 ^ 53 * d
  /\ 2 ^ 52 <= m <= 2 ^ 53
  /\ B64.round_pos n d = Qred (m # Z.to_pos (2 ^ s)).
Proof.
  intros (Hn & Hd & Hlo & Hhi) s m.
  assert (Hk0 : Z.log2 n - Z.log2 d <= 52).
  { assert (Z.log2 n <= Z.log2 (d * 2 ^ 52)) by (apply Z.log2_le_mono; lia).
    rewrite Z.log2_mul_pow2 in H by lia. lia. }
  destruct (ilog2_scaled n d Hn Hd Hk0) as [Hk [Hs1 Hs2]].
  fold s in Hs1, Hs2.
  assert (Hs : 0 < s <= 1074).
  { split.
    - destruct (Z.lt_ge_cases 0 s) as [|Hle]; [assumption|exfalso].
      assert (2 ^ s <= 1).
      { destruct (Z.eq_dec s 0) as [->|]; [simpl; lia|].
        rewrite Z.pow_neg_r by lia. lia. }
      nia.
    - destruct (Z.le_gt_cases s 1074) as [|Hgt]; [assumption|exfalso].
      assert (2 ^ 1075 <= 2 ^ s) by (apply Z.pow_le_mono_r; lia).
      assert (E : 2 ^ 1075 = 2 ^ 53 * 2 ^ 1022) by reflexivity.
      nia. }
  assert (Hpow : 0 < 2 ^ s) by (apply Z.pow_pos_nonneg; lia).
  split; [exact Hs|]. split; [split; assumption|]. split.
  - split.
    + apply rne_ge; lia.
    + apply rne_le; lia.
  - unfold B64.round_pos, B64.significand, B64.ulp_exp.
    replace (Z.max (B64.ilog2 n d - 52) (-1074)) with (- s) by (unfold s; lia).
    destruct (Z.leb_spec 0 (- s)); [lia|].
    rewrite Z.opp_involutive. reflexivity.
Qed.

Lemma round_pos_monotone (n1 d1 n2 d2 : Z) :
  in_range n1 d1 -> in_range n2 d2 -> n1 * d2 <= n2 * d1 ->
  (B64.round_pos n1 d1 <= B64.round_pos n2 d2)%Q.
Proof.
  intros R1 R2 Hle.
  destruct (round_pos_normal n1 d1 R1) as (Hs1 & [Hl1 Hu1] & Hm1 & E1).
  destruct (round_pos_normal n2 d2 R2) as (Hs2 & [Hl2 Hu2] & Hm2 & E2).
  destruct R1 as (Hn1 & Hd1 & _). destruct R2 as (Hn2 & Hd2 & _).
  rewrite E1, E2, !Qred_correct. clear E1 E2.
  set (s1 := 52 - B64.ilog2 n1 d1) in *.
  set (s2 := 52 - B64.ilog2 n2 d2) in *.
  set (m1 := B64.rne (n1 * 2 ^ s1) d1) in *.
  set (m2 := B64.rne (n2 * 2 ^ s2) d2) in *.
  assert (P1 : 0 < 2 ^ s1) by (apply Z.pow_pos_nonneg; lia).
  assert (P2 : 0 < 2 ^ s2) by (apply Z.pow_pos_nonneg; lia).
  unfold Qle. cbn [Qnum Qden]. rewrite !Z2Pos.id by assumption.
  destruct (Z.lt_trichotomy s1 s2) as [Hlt|[Heq|Hgt]].
  - (* the first value lies in a higher binade: impossible *)
    exfalso.
    assert (E : 2 ^ s2 = 2 ^ s1 * 2 ^ (s2 - s1)).
    { rewrite <- Z.pow_add_r by lia. f_equal; lia. }
    assert (2 ^ 1 <= 2 ^ (s2 - s1)) by (apply Z.pow_le_mono_r; lia).
    change (2 ^ 1) with 2 in *.
    set (q := 2 ^ (s2 - s1)) in *. rewrite E in *.
    assert (2 ^ 52 * d1 * d2 * q <= n1 * 2 ^ s1 * d2 * q) by nia.
    assert (n1 * 2 ^ s1 * d2 * q <= n2 * 2 ^ s1 * d1 * q) by nia.
    assert (n2 * 2 ^ s1 * d1 * q < 2 ^ 53 * d2 * d1).
    { replace (n2 * 2 ^ s1 * d1 * q) with (n2 * (2 ^ s1 * q) * d1) by ring.
      nia. }
    change (2 ^ 53) with (2 * 2 ^ 52) in *. nia.
  - (* the same binade *)
    unfold m1, m2. rewrite Heq.
    apply Z.mul_le_mono_nonneg_r; [lia|].
    apply rne_monotone; try assumption. nia.
  - (* the first value lies in a lower binade *)
    assert (E : 2 ^ s1 = 2 ^ s2 * 2 ^ (s1 - s2)).
    { rewrite <- Z.pow_add_r by lia. f_equal; lia. }
    assert (2 ^ 1 <= 2 ^ (s1 - s2)) by (apply Z.pow_le_mono_r; lia).
    change (2 ^ 1) with 2 in *.
    set (q := 2 ^ (s1 - s2)) in *. rewrite E.
    change (2 ^ 53) with (2 * 2 ^ 52) in *. nia.
Qed.

Lemma in_rangeQ_between (lo hi x : Q) :
  in_rangeQ lo -> in_rangeQ hi -> (lo <= x)%Q -> (x <= hi)%Q -> in_rangeQ x.
Proof.
  unfold in_rangeQ, in_range, Qle.
  destruct lo as [nl dl], hi as [nh dh], x as [n d]. cbn [Qnum Qden].
  intros (L1 & L2 & L3 & L4) (H1 & H2 & H3 & H4) Hlo Hhi.
  set (T := 2 ^ 1022) in *. set (U := 2 ^ 52) in *.
  assert (0 < T) by (unfold T; apply Z.pow_pos_nonneg; lia).
  assert (0 < U) by (unfold U; apply Z.pow_pos_nonneg; lia).
  assert (Hn : 0 < n) by nia.
  repeat split; try lia.
  - assert (Z.pos dl * Z.pos d <= Z.pos dl * (n * T)); [|nia].
    assert (Z.pos dl * Z.pos d <= nl * T * Z.pos d) by nia.
    assert (nl * T * Z.pos d = (nl * Z.pos d) * T) by ring.
    assert ((nl * Z.pos d) * T <= (n * Z.pos dl) * T) by nia.
    nia.
  - assert (n * Z.pos dh < U * Z.pos d * Z.pos dh); [|nia].
    assert (n * Z.pos dh <= nh * Z.pos d) by lia.
    assert (nh * Z.pos d < U * Z.pos dh * Z.pos d) by nia.
    nia.
Qed.

Lemma round_monotone (x y : Q) :
  in_rangeQ x -> in_rangeQ y -> (x <= y)%Q -> (B64.round x <= B64.round y)%Q.
Proof.
  intros Rx Ry Hle. unfold B64.round.
  assert (Hx : 0 < Qnum x) by apply Rx.
  assert (Hy : 0 < Qnum y) by apply Ry.
  destruct (Qnum x) as [|nx|nx] eqn:Ex; try lia.
  destruct (Qnum y) as [|ny|ny] eqn:Ey; try lia.
  apply round_pos_monotone.
  - unfold in_rangeQ in Rx. now rewrite Ex in Rx.
  - unfold in_rangeQ in Ry. now rewrite Ey in Ry.
  - unfold Qle in Hle. now rewrite Ex, Ey in Hle.
Qed.

Lemma round_in_range (lo hi x : Q) :
  in_rangeQ lo -> in_rangeQ hi -> (lo <= x)%Q -> (x <= hi)%Q ->
  (B64.round lo <= B64.round x)%Q /\ (B64.round x <= B64.round hi)%Q.
Proof.
  intros Rl Rh Hl Hh.
  assert (Rx : in_rangeQ x) by (apply (in_rangeQ_between lo hi x); assumption).
  split; apply round_monotone; assumption.
Qed.

Lemma bounds_in_range :
  in_rangeQ q_min /\ in_rangeQ q_below_one /\ in_rangeQ 1
  /\ in_rangeQ (q_min * 100) /\ in_rangeQ (q_below_one * 100) /\ in_rangeQ 100.
Proof.
  unfold in_rangeQ, in_range.
  repeat split; vm_compute; reflexivity || discriminate.
Qed.

Lemma bounds_rounded :
  B64.round q_min = q_min /\ B64.round q_below_one = q_below_one
  /\ B64.round 1 = 1%Q /\ B64.round 100 = 100%Q
  /\ Qfloor (B64.round (q_below_one * 100)) = 99
  /\ (0 < B64.round (q_min * 100))%Q.
Proof. repeat split; vm_compute; reflexivity. Qed.

Lemma quotient_bounds (a t : Z) :
  1 <= a <= t -> t < 2 ^ 53 ->
  (q_min <= inject_Z a / inject_Z t)%Q
  /\ (inject_Z a / inject_Z t <= 1)%Q
  /\ (a < t -> (inject_Z a / inject_Z t <= q_below_one)%Q).
Proof.
  intros Ha Ht.
  destruct a as [|a|a]; try lia. destruct t as [|t|t]; try lia.
  assert (E : (inject_Z (Z.pos a) / inject_Z (Z.pos t) == Z.pos a # t)%Q).
  { unfold Qeq, Qdiv, Qmult, Qinv, inject_Z. cbn [Qnum Qden]. lia. }
  rewrite E. unfold q_min, q_below_one, Qle. cbn [Qnum Qden].
  rewrite !Z2Pos.id by (apply Z.pow_pos_nonneg; lia).
  repeat split; lia.
Qed.

Lemma quotient_monotone (a b t : Z) :
  0 < t -> a <= b -> (inject_Z a / inject_Z t <= inject_Z b / inject_Z t)%Q.
Proof.
  intros Ht Hab. unfold Qdiv. apply Qmult_le_compat_r.
  - now rewrite <- Zle_Qle.
  - apply Qinv_le_0_compat. change 0%Q with (inject_Z 0). rewrite <- Zle_Qle. lia.
Qed.

Lemma percent_float_bounds (a t : Z) :
  1 <= a <= t -> t < 2 ^ 53 ->
  (0 < percent_float a t)%Q
  /\ (percent_float a t <= 100)%Q
  /\ (a < t -> Qfloor (percent_float a t) <= 99)
  /\ in_rangeQ (inject_Z a / inject_Z t)
  /\ in_rangeQ (B64.round (inject_Z a / inject_Z t) * 100).
Proof.
  intros Ha Ht.
  destruct bounds_in_range as (R1 & R2 & R3 & R4 & R5 & R6).
  destruct bounds_rounded as (E1 & E2 & E3 & E4 & E5 & E6).
  destruct (quotient_bounds a t Ha Ht) as (Hlo & Hhi & Hlt).
  set (x := (inject_Z a / inject_Z t)%Q) in *.
  destruct (round_in_range q_min 1 x R1 R3 Hlo Hhi) as [Hy1 Hy2].
  rewrite E1 in Hy1. rewrite E3 in Hy2.
  set (y := B64.round x) in *.
  assert (Hz1 : (q_min * 100 <= y * 100)%Q)
    by (apply Qmult_le_compat_r; [assumption|discriminate]).
  assert (Hz2 : (y * 100 <= 100)%Q).
  { setoid_replace 100%Q with (1 * 100)%Q at 2 by reflexivity.
    apply Qmult_le_compat_r; [assumption|discriminate]. }
  destruct (round_in_range (q_min * 100) 100 (y * 100) R4 R6 Hz1 Hz2)
    as [Hw1 Hw2].
  rewrite E4 in Hw2.
  unfold percent_float, B64.mul. fold x. fold y.
  split; [eapply Qlt_le_trans; [exact E6|exact Hw1]|].
  split; [exact Hw2|]. split.
  - intros Hat. specialize (Hlt Hat).
    assert (Rx : in_rangeQ x) by (apply (in_rangeQ_between q_min 1 x); assumption).
    assert (Hy3 : (y <= q_below_one)%Q).
    { rewrite <- E2. apply round_monotone; assumption. }
    assert (Hz3 : (y * 100 <= q_below_one * 100)%Q)
      by (apply Qmult_le_compat_r; [assumption|discriminate]).
    assert (Rz : in_rangeQ (y * 100))
      by (apply (in_rangeQ_between (q_min * 100) 100); assumption).
    rewrite <- E5. apply Qfloor_resp_le. apply round_monotone; assumption.
  - split.
    + apply (in_rangeQ_between q_min 1 x); assumption.
    + apply (in_rangeQ_between (q_min * 100) 100); assumption.
Qed.

Lemma percent_is_floor (a t : Z) :
  1 <= a <= t -> t < 2 ^ 53 ->
  percent a t = Some (Qfloor (percent_float a t)).
Proof.
  intros Ha Ht.
  destruct (percent_float_bounds a t Ha Ht) as (Hpos & _).
  unfold percent, int_truediv, B64.truediv, B64.is_zero.
  destruct t as [|t|t]; try lia. cbn [inject_Z Qnum].
  fold (inject_Z (Z.pos t)). fold (percent_float a (Z.pos t)).
  unfold B64.trunc.
  assert (0 < Qnum (percent_float a (Z.pos t))).
  { unfold Qlt in Hpos. cbn [Qnum Qden] in Hpos. lia. }
  destruct (Z.leb_spec 0 (Qnum (percent_float a (Z.pos t)))); [reflexivity|lia].
Qed.

Lemma percent_float_monotone (a b t : Z) :
  1 <= a -> a <= b -> b <= t -> t < 2 ^ 53 ->
  (percent_float a t <= percent_float b t)%Q.
Proof.
  intros H1 Hab Hbt Ht.
  destruct (percent_float_bounds a t ltac:(lia) Ht) as (_ & _ & _ & Rxa & Rza).
  destruct (percent_float_bounds b t ltac:(lia) Ht) as (_ & _ & _ & Rxb & Rzb).
  unfold percent_float, B64.mul.
  apply round_monotone; try assumption.
  apply Qmult_le_compat_r; [|discriminate].
  apply round_monotone; try assumption.
  apply quotient_monotone; lia.
Qed.

Lemma percent_float_full (t : Z) :
  1 <= t < 2 ^ 53 -> (percent_float t t == 100)%Q.
Proof.
  intros Ht.
  destruct bounds_in_range as (R1 & R2 & R3 & R4 & R5 & R6).
  destruct bounds_rounded as (E1 & E2 & E3 & E4 & E5 & E6).
  destruct (percent_float_bounds t t ltac:(lia) ltac:(lia))
    as (_ & Hle & _ & Rx & Rz).
  apply Qle_antisym; [exact Hle|].
  assert (Hx : (1 <= inject_Z t / inject_Z t)%Q).
  { destruct t as [|t|t]; try lia.
    unfold Qle, Qdiv, Qmult, Qinv, inject_Z. cbn [Qnum Qden]. lia. }
  assert (Hy : (1 <= B64.round (inject_Z t / inject_Z t))%Q).
  { rewrite <- E3 at 1. apply round_monotone; assumption. }
  unfold percent_float, B64.mul. rewrite <- E4 at 1.
  apply round_monotone; try assumption.
  setoid_replace 100%Q with (1 * 100)%Q at 1 by reflexivity.
  apply Qmult_le_compat_r; [assumption|discriminate].
Qed.

(** ** The split worker *)

Lemma py_range_length (a b : Z) :
  List.length (py_range a b) = Z.to_nat (b - a).
Proof. unfold py_range. now rewrite length_map, length_seq. Qed.

Lemma py_range_In (a b x : Z) : In x (py_range a b) <-> a <= x < b.
Proof.
  unfold py_range. rewrite in_map_iff. split.
  - intros [i [<- Hi]]. apply in_seq in Hi. lia.
  - intros H. exists (Z.to_nat (x - a)). split; [lia|]. apply in_seq. lia.
Qed.

Lemma py_range_cons (a b : Z) :
  a < b -> py_range a b = a :: py_range (a + 1) b.
Proof.
  intros H. unfold py_range.
  replace (Z.to_nat (b - a)) with (S (Z.to_nat (b - (a + 1)))) by lia.
  simpl. f_equal; [lia|].
  rewrite <- seq_shift, map_map. apply map_ext. intros i. lia.
Qed.

Lemma py_range_nil (a b : Z) : b <= a -> py_range a b = [].
Proof.
  intros H. unfold py_range. now replace (Z.to_nat (b - a)) with O by lia.
Qed.

Section SplitFacts.

Variable page : Type.
Variable py_strip : string -> string.
Variable py_int : string -> option Z.
Variable senv : SplitEnv page.

Lemma py_index_nat (xs : list page) (i : nat) :
  (i < List.length xs)%nat -> py_index xs (Z.of_nat i) = nth_error xs i.
Proof.
  intros Hi. unfold py_index.
  destruct (Z.ltb_spec (Z.of_nat i) 0); [lia|].
  destruct (Z.leb_spec 0 (Z.of_nat i)); [|lia].
  destruct (Z.ltb_spec (Z.of_nat i) (Z.of_nat (List.length xs))); [|lia].
  simpl. now rewrite Nat2Z.id.
Qed.

Lemma collect_pages_from (xs : list page) (n : nat) :
  forall a : nat,
    (a + n <= List.length xs)%nat ->
    collect_pages xs (py_range (Z.of_nat a) (Z.of_nat (a + n)))
    = Some (firstn n (skipn a xs)).
Proof.
  induction n as [|n IH]; intros a Ha.
  - rewrite py_range_nil by lia. reflexivity.
  - rewrite py_range_cons by lia. simpl collect_pages.
    rewrite py_index_nat by lia.
    destruct (nth_error xs a) as [pg|] eqn:Hn.
    2:{ apply nth_error_None in Hn. lia. }
    replace (Z.of_nat a + 1) with (Z.of_nat (S a)) by lia.
    replace (a + S n)%nat with (S a + n)%nat by lia.
    rewrite IH by lia.
    assert (Hs : skipn a xs = pg :: skipn (S a) xs).
    { clear -Hn. revert a Hn. induction xs as [|x xs IHxs]; intros [|a] Hn;
        simpl in *; try discriminate.
      - now inversion Hn.
      - now apply IHxs. }
    rewrite Hs. reflexivity.
Qed.

(** The pages that [write_range(s, e)] collects, for a span within the
    document. *)
Lemma collect_pages_span (xs : list page) (s e : Z) :
  1 <= s -> s - 1 <= e -> e <= Z.of_nat (List.length xs) ->
  collect_pages xs (py_range (s - 1) e) = Some (span_pages xs s e).
Proof.
  intros Hs Hse He. unfold span_pages.
  replace (s - 1) with (Z.of_nat (Z.to_nat (s - 1))) at 1 by lia.
  replace e with (Z.of_nat (Z.to_nat (s - 1) + Z.to_nat (e - s + 1))) at 1
    by lia.
  apply collect_pages_from. lia.
Qed.

Lemma output_spans_app (t1 t2 : list event) :
  output_spans (t1 ++ t2) = output_spans t1 ++ output_spans t2.
Proof.
  induction t1 as [|ev t1 IH]; [reflexivity|].
  destruct ev as [p|m|o|d]; simpl; try exact IH.
  destruct m; simpl; try exact IH. now rewrite IH.
Qed.

(** A loop whose body is one [write_range] followed by one progress
    emission, in an environment where every write succeeds. *)
Lemma s_for_writes (self : SplitWorker) (xs : list page) (A : Type)
    (body : A -> SplitState page -> SplitState page * option exn)
    (sp : A -> Z * Z) (pr : A -> Z * Z) (items : list A) :
  (forall dir name, write_raises senv dir name = None) ->
  (forall x st,
      body x st
      = s_then (write_range senv self xs (fst (sp x)) (snd (sp x)) st)
          (s_emit_progress (fst (pr x)) (snd (pr x)))) ->
  (forall x, In x items ->
     1 <= fst (sp x) /\ fst (sp x) - 1 <= snd (sp x)
     /\ snd (sp x) <= Z.of_nat (List.length xs) /\ snd (pr x) <> 0) ->
  forall st, exists st',
    s_for body items st = (st', None)
    /\ s_idx st' = s_idx st + Z.of_nat (List.length items)
    /\ map f_pages (s_files st')
       = map f_pages (s_files st)
         ++ map (fun x => span_pages xs (fst (sp x)) (snd (sp x))) items
    /\ output_spans (s_trace st') = output_spans (s_trace st) ++ map sp items.
Proof.
  intros Hw Hbody. induction items as [|x items IH]; intros Hok st.
  - exists st. simpl. rewrite !app_nil_r. repeat split. lia.
  - simpl s_for. rewrite Hbody. unfold write_range.
    destruct (Hok x (or_introl eq_refl)) as (H1 & H2 & H3 & H4).
    rewrite collect_pages_span by assumption. rewrite Hw.
    unfold s_then, s_emit_progress.
    destruct (percent_defined (fst (pr x)) (snd (pr x)) H4) as [p ->].
    match goal with |- context [s_for body items ?s] =>
      destruct (IH (fun y Hy => Hok y (or_intror Hy)) s)
        as (st' & Hrun & Hidx & Hfiles & Htr) end.
    exists st'. rewrite Hrun. split; [reflexivity|].
    simpl in Hidx, Hfiles, Htr.
    split; [|split].
    + rewrite Hidx. simpl List.length. lia.
    + rewrite Hfiles, map_app, <- app_assoc. reflexivity.
    + rewrite Htr, !output_spans_app. simpl. rewrite app_nil_r, <- app_assoc.
      destruct (sp x). reflexivity.
Qed.

End SplitFacts.

Section SplitRun.

Variable page : Type.
Variable py_strip : string -> string.
Variable py_int : string -> option Z.
Variable senv : SplitEnv page.

Let run := split_run py_strip py_int senv.
Let modes := split_modes py_strip py_int senv.

(** With a usable environment [run] reaches the branches on the mode. *)
Lemma split_run_reaches_modes (self : SplitWorker) (r : Reader page) :
  split_env_ok senv (src_path self) (out_dir self) r ->
  run self
  = match modes self (pages r) (split_start self) with
    | inl d => s_emit (FinishedError d) (split_start self)
    | inr (st, Some e) => s_emit (FinishedError (Traceback e)) st
    | inr (st, None) => s_emit (FinishedOk (out_dir self)) st
    end.
Proof.
  intros (He & Hm & Ho & (Hr1 & Hr2) & _).
  unfold run, split_run. rewrite He, Hm, Ho, Hr1, Hr2. reflexivity.
Qed.

Lemma ceil_div_bounds (total k : Z) :
  1 <= k ->
  ((total + k - 1) / k - 1) * k < total <= (total + k - 1) / k * k.
Proof.
  intros Hk.
  pose proof (Z.div_mod (total + k - 1) k ltac:(lia)) as Hdm.
  pose proof (Z.mod_pos_bound (total + k - 1) k ltac:(lia)) as Hmod.
  nia.
Qed.

Lemma FixedChunk_run (src out prefix ranges : string) (k pad start : Z)
    (r : Reader page) :
  split_env_ok senv src out r ->
  1 <= k ->
  let total := Z.of_nat (List.length (pages r)) in
  let chunks := (total + k - 1) / k in
  let span := fun c => (c * k + 1, Z.min total ((c + 1) * k)) in
  let res := run (SplitWorker_init src out prefix MODE_CHUNK k ranges pad start) in
  Z.of_nat (List.length (s_files res)) = chunks
  /\ output_spans (s_trace res) = map span (py_range 0 chunks)
  /\ map f_pages (s_files res)
     = map (fun c => span_pages (pages r) (fst (span c)) (snd (span c)))
         (py_range 0 chunks)
  /\ last (s_trace res) (Progress 0) = FinishedOk out.
Proof.
  intros Henv Hk total chunks span res.
  set (self := SplitWorker_init src out prefix MODE_CHUNK k ranges pad start).
  assert (Hcs : chunk_size self = k) by (simpl; lia).
  pose proof (ceil_div_bounds total k Hk) as Hceil. fold chunks in Hceil.
  assert (Htot : 0 <= total) by (unfold total; lia).
  unfold res. fold self.
  rewrite (split_run_reaches_modes self r Henv).
  unfold modes, split_modes. fold total.
  change (String.eqb (mode self) MODE_EACH) with false.
  change (String.eqb (mode self) MODE_CHUNK) with true. cbv iota.
  rewrite Hcs. unfold py_floordiv.
  destruct (Z.eqb_spec k 0) as [|_]; [lia|]. fold chunks.
  destruct (s_for_writes page senv self (pages r) Z
              (chunk_body senv self (pages r) total) span
              (fun c => (snd (span c), total)) (py_range 0 chunks))
    with (st := @split_start page self) as (st' & Hrun & Hidx & Hfiles & Htr).
  - apply Henv.
  - intros c st. unfold chunk_body. rewrite Hcs. reflexivity.
  - intros c Hc. apply py_range_In in Hc. fold total. simpl. nia.
  - rewrite Hrun. simpl s_files. simpl s_trace.
    rewrite output_spans_app, Htr, last_last. simpl.
    rewrite app_nil_r. repeat split; try assumption.
    rewrite <- (length_map f_pages), Hfiles. simpl.
    rewrite length_map, py_range_length. lia.
Qed.

Lemma EachPage_run (src out prefix ranges : string) (k pad start : Z)
    (r : Reader page) :
  split_env_ok senv src out r ->
  let total := Z.of_nat (List.length (pages r)) in
  let res := run (SplitWorker_init src out prefix MODE_EACH k ranges pad start) in
  Z.of_nat (List.length (s_files res)) = total
  /\ output_spans (s_trace res) = map (fun p => (p, p)) (py_range 1 (total + 1))
  /\ map f_pages (s_files res)
     = map (fun p => span_pages (pages r) p p) (py_range 1 (total + 1))
  /\ last (s_trace res) (Progress 0) = FinishedOk out.
Proof.
  intros Henv total res.
  set (self := SplitWorker_init src out prefix MODE_EACH k ranges pad start).
  unfold res. fold self.
  rewrite (split_run_reaches_modes self r Henv).
  unfold modes, split_modes. fold total.
  change (String.eqb (mode self) MODE_EACH) with true. cbv iota.
  destruct (s_for_writes page senv self (pages r) Z
              (each_body senv self (pages r) total) (fun p => (p, p))
              (fun p => (p, total)) (py_range 1 (total + 1)))
    with (st := @split_start page self) as (st' & Hrun & Hidx & Hfiles & Htr).
  - apply Henv.
  - intros p st. reflexivity.
  - intros p Hp. apply py_range_In in Hp. fold total. simpl. lia.
  - rewrite Hrun. simpl s_files. simpl s_trace.
    rewrite output_spans_app, Htr, last_last. simpl.
    rewrite app_nil_r. repeat split; try assumption.
    rewrite <- (length_map f_pages), Hfiles. simpl.
    rewrite length_map, py_range_length. lia.
Qed.

End SplitRun.

(** C3. With a usable source of [total >= 1] pages and writable outputs:
    in FixedChunk mode with chunk size [k >= 1] the run writes exactly
    [ceil(total/k)] files, file [c] holding the pages of the span
    [c*k+1 .. min(total, (c+1)*k)], for [c = 0 .. ceil(total/k)-1], and ends
    with [finished_ok]; in EachPage mode it writes exactly [total] files,
    file [p] holding page [p] alone. *)
Theorem split_chunk_and_each_page
    (page : Type) (py_strip : string -> string) (py_int : string -> option Z)
    (senv : SplitEnv page) (src out prefix ranges : string)
    (k pad start : Z) (r : Reader page) :
  split_env_ok senv src out r ->
  1 <= k ->
  1 <= Z.of_nat (List.length (pages r)) ->
  let total := Z.of_nat (List.length (pages r)) in
  let chunks := (total + k - 1) / k in
  let span := fun c => (c * k + 1, Z.min total ((c + 1) * k)) in
  let chunked :=
    split_run py_strip py_int senv
      (SplitWorker_init src out prefix MODE_CHUNK k ranges pad start) in
  let each :=
    split_run py_strip py_int senv
      (SplitWorker_init src out prefix MODE_EACH k ranges pad start) in
  ((chunks - 1) * k < total <= chunks * k
   /\ Z.of_nat (List.length (s_files chunked)) = chunks
   /\ output_spans (s_trace chunked) = map span (py_range 0 chunks)
   /\ map f_pages (s_files chunked)
      = map (fun c => span_pages (pages r) (fst (span c)) (snd (span c)))
          (py_range 0 chunks)
   /\ last (s_trace chunked) (Progress 0) = FinishedOk out)
  /\ (Z.of_nat (List.length (s_files each)) = total
      /\ output_spans (s_trace each)
         = map (fun p => (p, p)) (py_range 1 (total + 1))
      /\ map f_pages (s_files each)
         = map (fun p => span_pages (pages r) p p) (py_range 1 (total + 1))
      /\ last (s_trace each) (Progress 0) = FinishedOk out).
Proof.
  intros Henv Hk Htotal total chunks span chunked each. split.
  - split; [apply ceil_div_bounds; assumption|].
    apply (FixedChunk_run page py_strip py_int senv src out prefix ranges
             k pad start r Henv Hk).
  - apply (EachPage_run page py_strip py_int senv src out prefix ranges
             k pad start r Henv).
Qed.

Lemma plain_split_env_ok (n : nat) (src out : string) :
  split_env_ok (plain_split_env n) src out (plain_reader n).
Proof. repeat split. Qed.

Lemma split_chunk_and_each_page_witness :
  let chunked :=
    split_run PyStr.strip PyStr.int (plain_split_env 10)
      (SplitWorker_init "in.pdf" "out" "" MODE_CHUNK 4 "" 3 1) in
  Z.of_nat (List.length (s_files chunked)) = 3
  /\ output_spans (s_trace chunked) = [(1, 4); (5, 8); (9, 10)].
Proof.
  pose proof (split_chunk_and_each_page nat PyStr.strip PyStr.int
                (plain_split_env 10) "in.pdf" "out" "" "" 4 3 1
                (plain_reader 10) (plain_split_env_ok 10 "in.pdf" "out")
                ltac:(lia) ltac:(simpl; lia)) as [(_ & Hn & Hs & _) _].
  split; [exact Hn | exact Hs].
Defined.

(** C4. When the source file does not exist, when the source is encrypted
    and the attempt [decrypt("")] fails (the pages of the document then
    cannot be read, or the call itself raises), or when in CustomRanges mode
    the ranges text yields no interval on a source with pages, the run emits
    the failure event alone and writes no file. *)
Theorem split_failure_writes_nothing
    (page : Type) (py_strip : string -> string) (py_int : string -> option Z)
    (senv : SplitEnv page) (self : SplitWorker) (d : diagnostic) :
  split_failure py_strip py_int senv self d ->
  s_trace (split_run py_strip py_int senv self) = [FinishedError d]
  /\ s_files (split_run py_strip py_int senv self) = [].
Proof.
  intros H. unfold split_run.
  destruct H as [He | r why He Hm Ho Hu | r He Hm Ho [Hr1 Hr2] Hm1 Hm2 Hlen Hp].
  - rewrite He. split; reflexivity.
  - rewrite He, Hm, Ho. simpl negb. cbv iota.
    destruct Hu as [e Henc Hdec _ Hr | Henc Hdec].
    + rewrite Henc, Hdec, Hr. split; reflexivity.
    + rewrite Henc, Hdec. split; reflexivity.
  - rewrite He, Hm, Ho, Hr1, Hr2. simpl negb. cbv iota.
    unfold split_modes.
    apply String.eqb_neq in Hm1, Hm2. rewrite Hm1, Hm2, Hp.
    split; reflexivity.
Qed.

Lemma split_failure_writes_nothing_witness :
  (let senv := {| path_exists := fun _ => false;
                  makedirs_raises := fun _ => None;
                  s_open_pdf := fun _ => inr (plain_reader 3);
                  write_raises := fun _ _ => None |} in
   s_files (split_run PyStr.strip PyStr.int senv
              (SplitWorker_init "in.pdf" "out" "p" MODE_EACH 1 "" 3 1)) = [])
  /\ (let senv := {| path_exists := fun _ => true;
                     makedirs_raises := fun _ => None;
                     s_open_pdf := fun _ => inr locked_reader;
                     write_raises := fun _ _ => None |} in
      s_trace (split_run PyStr.strip PyStr.int senv
                 (SplitWorker_init "in.pdf" "out" "p" MODE_EACH 1 "" 3 1))
      = [FinishedError
           (Traceback (LibraryError "File has not been decrypted"))]
      /\ s_files (split_run PyStr.strip PyStr.int senv
                    (SplitWorker_init "in.pdf" "out" "p" MODE_EACH 1 "" 3 1))
         = [])
  /\ (let senv := {| path_exists := fun _ => true;
                     makedirs_raises := fun _ => None;
                     s_open_pdf := fun _ => inr encrypted_reader;
                     write_raises := fun _ _ => None |} in
      s_files (split_run PyStr.strip PyStr.int senv
                 (SplitWorker_init "in.pdf" "out" "p" MODE_EACH 1 "" 3 1)) = [])
  /\ s_files (split_run PyStr.strip PyStr.int (plain_split_env 3)
                (SplitWorker_init "in.pdf" "out" "p" MODE_RANGES 1 "abc" 3 1))
     = [].
Proof.
  split; [|split; [|split]].
  - eapply split_failure_writes_nothing. apply fail_missing. reflexivity.
  - apply (split_failure_writes_nothing nat PyStr.strip PyStr.int _ _
             (encrypted_diagnostic
                (Some (LibraryError "File has not been decrypted")))).
    apply (fail_encrypted _ _ _ _ locked_reader); try reflexivity.
    apply decrypt_refuses; reflexivity.
  - eapply split_failure_writes_nothing.
    apply (fail_encrypted _ _ _ _ encrypted_reader None); try reflexivity.
    apply decrypt_raised; reflexivity.
  - eapply split_failure_writes_nothing.
    apply (fail_ranges _ _ _ _ (plain_reader 3)); try reflexivity.
    + split; reflexivity.
    + discriminate.
    + discriminate.
    + simpl. lia.
Defined.

(** C10. Whatever [chunk_size] and [pad] the caller passes, the worker
    stores [max(1, chunk_size)] and [max(1, pad)]; so the chunk count
    [(total + chunk_size - 1) // chunk_size] of FixedChunk is computed
    without a division by zero, and the padding width is at least 1. *)
Theorem split_worker_init_clamps
    (src out prefix mode ranges : string) (chunk pad_ start total : Z) :
  let self := SplitWorker_init src out prefix mode chunk ranges pad_ start in
  chunk_size self = Z.max 1 chunk
  /\ pad self = Z.max 1 pad_
  /\ 1 <= chunk_size self
  /\ 1 <= pad self
  /\ py_floordiv (total + chunk_size self - 1) (chunk_size self)
     = Some ((total + chunk_size self - 1) / chunk_size self).
Proof.
  simpl. repeat split; try lia.
  unfold py_floordiv. destruct (Z.eqb_spec (Z.max 1 chunk) 0); [lia|reflexivity].
Qed.

(** *** Output names *)

Section SplitNames.

Variable page : Type.
Variable py_strip : string -> string.
Variable py_int : string -> option Z.
Variable senv : SplitEnv page.
Variable self : SplitWorker.

Lemma names_inv_emit (ev : event) (st : SplitState page) :
  names_inv self st -> names_inv self (s_emit ev st).
Proof. intros H. exact H. Qed.

Lemma names_inv_write_range (xs : list page) (s e : Z) (st : SplitState page) :
  names_inv self st -> names_inv self (fst (write_range senv self xs s e st)).
Proof.
  intros [Hidx Hnames]. unfold write_range.
  destruct (collect_pages xs (py_range (s - 1) e)) as [pgs|]; [|now split].
  destruct (write_raises senv (out_dir self) _); [now split|].
  simpl. split; simpl.
  - rewrite length_app. simpl. lia.
  - intros k f Hk.
    destruct (Nat.lt_ge_cases k (List.length (s_files st))) as [Hlt|Hge].
    + rewrite nth_error_app1 in Hk by assumption. now apply Hnames.
    + rewrite nth_error_app2 in Hk by assumption.
      destruct (k - List.length (s_files st))%nat as [|j] eqn:Hj.
      * simpl in Hk. inversion Hk; subst f; simpl. split; [reflexivity|].
        rewrite Hidx. f_equal. lia.
      * simpl in Hk. destruct j; discriminate.
Qed.

Lemma names_inv_progress (a b : Z) (st : SplitState page) :
  names_inv self st -> names_inv self (fst (s_emit_progress a b st)).
Proof.
  intros H. unfold s_emit_progress. now destruct (percent a b).
Qed.

Lemma names_inv_then (r : SplitState page * option exn)
    (k : SplitState page -> SplitState page * option exn) :
  names_inv self (fst r) ->
  (forall st, names_inv self st -> names_inv self (fst (k st))) ->
  names_inv self (fst (s_then r k)).
Proof.
  intros Hr Hk. destruct r as [st [e|]]; simpl in *; auto.
Qed.

Lemma names_inv_for (A : Type)
    (body : A -> SplitState page -> SplitState page * option exn)
    (items : list A) :
  (forall x st, names_inv self st -> names_inv self (fst (body x st))) ->
  forall st, names_inv self st -> names_inv self (fst (s_for body items st)).
Proof.
  intros Hbody. induction items as [|x items IH]; intros st Hst; simpl.
  - exact Hst.
  - specialize (Hbody x st Hst).
    destruct (body x st) as [st' [e|]]; simpl in *; auto.
Qed.

Lemma names_inv_modes (xs : list page) (st : SplitState page) :
  names_inv self st ->
  match split_modes py_strip py_int senv self xs st with
  | inl _ => True
  | inr r => names_inv self (fst r)
  end.
Proof.
  intros Hst. unfold split_modes.
  destruct (String.eqb (mode self) MODE_EACH).
  { apply names_inv_for; [|exact Hst]. intros p st' H. unfold each_body.
    apply names_inv_then; [now apply names_inv_write_range|].
    intros st''. apply names_inv_progress. }
  destruct (String.eqb (mode self) MODE_CHUNK).
  { destruct (py_floordiv _ _); [|exact Hst].
    apply names_inv_for; [|exact Hst]. intros c st' H. unfold chunk_body.
    apply names_inv_then; [now apply names_inv_write_range|].
    intros st''. apply names_inv_progress. }
  destruct (parse_ranges _ _ _ _) as [|r0 rs] eqn:Hrs; [exact I|].
  apply names_inv_for; [|exact Hst]. intros [i [s e]] st' H.
  unfold ranges_body.
  apply names_inv_then; [now apply names_inv_write_range|].
  intros st''. apply names_inv_progress.
Qed.

Lemma names_inv_run : names_inv self (split_run py_strip py_int senv self).
Proof.
  assert (H0 : names_inv self (@split_start page self)).
  { split; simpl; [lia|]. intros [|k] f; discriminate. }
  unfold split_run.
  destruct (negb _); [exact H0|].
  destruct (makedirs_raises _ _); [exact H0|].
  destruct (s_open_pdf _ _) as [e|r]; [exact H0|].
  destruct (_ && _); [exact H0|].
  destruct (pages_raise r); [exact H0|].
  pose proof (names_inv_modes (pages r) _ H0) as Hm.
  destruct (split_modes _ _ _ _ _ _) as [d|[st [e|]]]; [exact H0| |];
    exact Hm.
Qed.

End SplitNames.

Lemma str_unsigned (n : Z) :
  0 <= n ->
  match PyStr.str n with
  | String "-" _ | String "+" _ => False
  | _ => True
  end.
Proof.
  intros Hn. unfold PyStr.str.
  destruct n as [|p|p]; [exact I| |lia].
  simpl. destruct (Pos.to_uint p); exact I.
Qed.

Lemma zfill_unsigned (n width : Z) :
  0 <= n ->
  PyStr.zfill (PyStr.str n) width
  = (PyStr.zeros (Z.to_nat (width - Z.of_nat (String.length (PyStr.str n))))
     ++ PyStr.str n)%string.
Proof.
  intros Hn. pose proof (str_unsigned n Hn) as H.
  unfold PyStr.zfill. destruct (PyStr.str n) as [|c s]; [reflexivity|].
  destruct c as [[] [] [] [] [] [] [] []]; try reflexivity; contradiction.
Qed.

(** C9. In every run and every mode, file number [k] (from 0) written by
    the split worker is put in the output directory under the name
    [{prefix}_{index}.pdf], where [index] is [start_index + k] written in
    decimal with [zfill(max(1, pad))], which for an index that is not
    negative puts zeros in front of the digits up to that width, and where
    the prefix is "split" when the supplied one is the empty string. *)
Theorem split_output_names
    (page : Type) (py_strip : string -> string) (py_int : string -> option Z)
    (senv : SplitEnv page) (src out prefix mode ranges : string)
    (chunk pad_ start : Z) (k : nat) (f : OutFile page) :
  let self := SplitWorker_init src out prefix mode chunk ranges pad_ start in
  let index := start + Z.of_nat k in
  let width := Z.max 1 pad_ in
  nth_error (s_files (split_run py_strip py_int senv self)) k = Some f ->
  f_dir f = out
  /\ f_name f
     = ((if is_empty prefix then "split" else prefix) ++ "_"
        ++ PyStr.zfill (PyStr.str index) width ++ ".pdf")%string
  /\ (0 <= index ->
      PyStr.zfill (PyStr.str index) width
      = (PyStr.zeros
           (Z.to_nat (width - Z.of_nat (String.length (PyStr.str index))))
         ++ PyStr.str index)%string).
Proof.
  intros self index width Hk.
  destruct (names_inv_run page py_strip py_int senv self) as [_ Hnames].
  destruct (Hnames k f Hk) as [Hdir Hname].
  split; [exact Hdir|]. split; [exact Hname|].
  apply zfill_unsigned.
Qed.

(** Only the empty prefix is replaced: a prefix made of spaces is kept. *)
Example split_prefix_of_spaces_kept :
  filename_prefix (SplitWorker_init "in.pdf" "out" "  " MODE_EACH 1 "" 3 1)
  = "  ".
Proof. reflexivity. Qed.

Lemma split_output_names_witness :
  let res :=
    split_run PyStr.strip PyStr.int (plain_split_env 10)
      (SplitWorker_init "in.pdf" "out" "" MODE_CHUNK 4 "" 3 9) in
  nth_error (s_files res) 1
  = Some {| f_dir := "out"; f_name := "split_010.pdf"; f_pages := [5; 6; 7; 8]%nat |}
  /\ f_name {| f_dir := "out"; f_name := "split_010.pdf"; f_pages := [5; 6; 7; 8]%nat |}
     = "split_010.pdf".
Proof.
  assert (H : nth_error
                (s_files
                   (split_run PyStr.strip PyStr.int (plain_split_env 10)
                      (SplitWorker_init "in.pdf" "out" "" MODE_CHUNK 4 "" 3 9))) 1
              = Some {| f_dir := "out"; f_name := "split_010.pdf";
                        f_pages := [5; 6; 7; 8]%nat |})
    by (vm_compute; reflexivity).
  split; [exact H|].
  destruct (split_output_names nat PyStr.strip PyStr.int (plain_split_env 10)
              "in.pdf" "out" "" MODE_CHUNK "" 4 3 9 1 _ H) as (_ & Hn & _).
  rewrite Hn. vm_compute. reflexivity.
Defined.

(** ** The merge worker *)

Section MergeFacts.

Variable page : Type.
Variable env : MergeEnv page.
Variable add_bookmarks : bool.

Let item_step := merge_item env add_bookmarks.
Let loop := merge_loop env add_bookmarks.

Ltac progress_defined Ht :=
  repeat match goal with
  | |- context [percent ?a ?b] =>
      let p := fresh "p" in
      let Hp := fresh "Hp" in
      destruct (percent_defined a b Ht) as [p Hp]; rewrite Hp; clear Hp
  end.

(** An iteration does not raise, and the writer it leaves depends on the
    writer it finds and on the item alone. *)
Lemma merge_item_writer (t1 t2 : Z) (st1 st2 : MergeState page) (x : PdfItem) :
  t1 <> 0 -> t2 <> 0 -> m_writer st1 = m_writer st2 ->
  snd (item_step t1 st1 x) = None
  /\ m_writer (fst (item_step t1 st1 x)) = m_writer (fst (item_step t2 st2 x)).
Proof.
  intros H1 H2 Hw. unfold item_step, merge_item, merge_try, m_emit_progress.
  simpl. rewrite <- Hw.
  destruct (open_pdf env (path x)) as [e|rd]; simpl.
  { progress_defined H1. progress_defined H2. now split. }
  destruct (is_encrypted rd && decrypt_raises rd); simpl.
  { progress_defined H1. simpl. progress_defined H1.
    progress_defined H2. simpl. progress_defined H2. now split. }
  destruct (pages_raise rd); simpl.
  { progress_defined H1. progress_defined H2. now split. }
  destruct add_bookmarks; [destruct (add_outline_raises env _ _)|]; simpl;
    progress_defined H1; progress_defined H2; now split.
Qed.

Lemma merge_loop_writer (t1 t2 : Z) (items : list PdfItem) :
  t1 <> 0 -> t2 <> 0 ->
  forall st1 st2,
    m_writer st1 = m_writer st2 ->
    snd (loop t1 st1 items) = None
    /\ m_writer (fst (loop t1 st1 items)) = m_writer (fst (loop t2 st2 items)).
Proof.
  intros H1 H2. induction items as [|x items IH]; intros st1 st2 Hw.
  - now split.
  - unfold loop in *. simpl.
    destruct (merge_item_writer t1 t2 st1 st2 x H1 H2 Hw) as [Hn Hw'].
    destruct (merge_item_writer t2 t1 st2 st1 x H2 H1 (eq_sym Hw)) as [Hn' _].
    unfold item_step in *.
    destruct (merge_item env add_bookmarks t1 st1 x) as [s1 [e|]];
      [discriminate|].
    destruct (merge_item env add_bookmarks t2 st2 x) as [s2 [e|]];
      [discriminate|].
    now apply IH.
Qed.

Lemma merge_loop_app (total : Z) (l1 l2 : list PdfItem) :
  total <> 0 ->
  forall st,
    loop total st (l1 ++ l2) = loop total (fst (loop total st l1)) l2.
Proof.
  intros Ht. induction l1 as [|x l1 IH]; intros st; [reflexivity|].
  unfold loop in *. simpl.
  destruct (merge_item_writer total total st st x Ht Ht eq_refl) as [Hn _].
  unfold item_step in Hn.
  destruct (merge_item env add_bookmarks total st x) as [s [e|]];
    [discriminate|]. apply IH.
Qed.

(** The trace only grows, and every item of the loop is announced. *)
Lemma merge_item_trace (total : Z) (st : MergeState page) (x : PdfItem) :
  exists t,
    m_trace (fst (item_step total st x))
    = m_trace st ++ Message (MsgReading (path x)) :: t.
Proof.
  unfold item_step, merge_item, merge_try, m_emit_progress.
  destruct (open_pdf env (path x)) as [e|rd]; simpl.
  { destruct (percent _ _); simpl; rewrite <- ?app_assoc; simpl;
      eexists; reflexivity. }
  destruct (is_encrypted rd && decrypt_raises rd); simpl.
  { destruct (percent (m_done st + 1) total); simpl;
      destruct (percent _ _); simpl; rewrite <- ?app_assoc; simpl;
      eexists; reflexivity. }
  destruct (pages_raise rd); simpl.
  { destruct (percent _ _); simpl; rewrite <- ?app_assoc; simpl;
      eexists; reflexivity. }
  destruct add_bookmarks; [destruct (add_outline_raises env _ _)|]; simpl;
    destruct (percent _ _); simpl; rewrite <- ?app_assoc; simpl;
    eexists; reflexivity.
Qed.

Lemma merge_loop_trace (total : Z) (items : list PdfItem) :
  total <> 0 ->
  forall st, exists t,
    m_trace (fst (loop total st items)) = m_trace st ++ t
    /\ forall y, In y items -> In (Message (MsgReading (path y))) t.
Proof.
  intros Ht. induction items as [|x items IH]; intros st.
  - exists []. simpl. rewrite app_nil_r. split; [reflexivity|]. intros y [].
  - unfold loop in *. simpl.
    destruct (merge_item_writer total total st st x Ht Ht eq_refl) as [Hn _].
    destruct (merge_item_trace total st x) as [t1 Ht1].
    unfold item_step in *.
    destruct (merge_item env add_bookmarks total st x) as [s [e|]];
      [discriminate|]. simpl in Ht1.
    destruct (IH s) as (t2 & Ht2 & Hin).
    exists (Message (MsgReading (path x)) :: t1 ++ t2). split.
    + rewrite Ht2, Ht1, <- app_assoc. reflexivity.
    + intros y [<-|Hy]; [now left|]. right. apply in_or_app. right. auto.
Qed.

(** The iteration on an encrypted document whose [decrypt("")] raises. *)
Lemma merge_item_unreadable (total : Z) (st : MergeState page) (x : PdfItem)
    (rd : Reader page) :
  total <> 0 ->
  open_pdf env (path x) = inr rd ->
  is_encrypted rd = true -> decrypt_raises rd = true ->
  m_writer (fst (item_step total st x)) = m_writer st
  /\ exists t,
      m_trace (fst (item_step total st x))
      = m_trace st
        ++ Message (MsgReading (path x))
           :: Message (MsgSkipEncrypted (path x)) :: t.
Proof.
  intros Ht Ho He Hd.
  unfold item_step, merge_item, merge_try, m_emit_progress.
  rewrite Ho, He, Hd. simpl.
  progress_defined Ht. simpl. progress_defined Ht. simpl.
  split; [reflexivity|]. rewrite <- !app_assoc. simpl. eexists. reflexivity.
Qed.

(** The iteration on an encrypted document that [decrypt("")] does not
    open: the item is skipped with its message and adds nothing. *)
Lemma merge_item_undecryptable (total : Z) (st : MergeState page)
    (x : PdfItem) (rd : Reader page) (why : option exn) :
  total <> 0 ->
  open_pdf env (path x) = inr rd ->
  undecryptable rd why ->
  m_writer (fst (item_step total st x)) = m_writer st
  /\ exists t,
      m_trace (fst (item_step total st x))
      = m_trace st
        ++ Message (MsgReading (path x))
           :: Message (skip_message x why) :: t.
Proof.
  intros Ht Ho Hu. destruct Hu as [e He Hd Hp Hr | He Hd].
  - unfold item_step, merge_item, merge_try, m_emit_progress.
    rewrite Ho, He, Hd, Hp, Hr. simpl.
    progress_defined Ht. simpl.
    split.
    + rewrite app_nil_r. now destruct (m_writer st).
    + rewrite <- !app_assoc. simpl. eexists. reflexivity.
  - now apply (merge_item_unreadable total st x rd).
Qed.

End MergeFacts.

Section MergeRun.

Variable page : Type.
Variable env : MergeEnv page.
Variable add_bookmarks : bool.

Let run := merge_run env add_bookmarks.
Let loop := merge_loop env add_bookmarks.

Lemma merge_run_unfold (items : list PdfItem) (out : string) :
  items <> [] ->
  let total := Z.of_nat (List.length items) in
  let st := fst (loop total m_init items) in
  total <> 0
  /\ m_writer (run items out) = m_writer st
  /\ m_trace (run items out)
     = m_trace st
       ++ [match write_output env out with
           | Some e => FinishedError (Traceback e)
           | None => FinishedOk out
           end]
  /\ (write_output env out = None -> m_output (run items out) = Some (m_writer st)).
Proof.
  intros Hne total st.
  assert (Ht : total <> 0).
  { unfold total. destruct items; [congruence|simpl; lia]. }
  split; [exact Ht|].
  destruct (merge_loop_writer page env add_bookmarks total total items Ht Ht
              m_init m_init eq_refl) as [Hn _].
  unfold run, merge_run. destruct items as [|x items]; [congruence|].
  fold total. unfold st, loop in *.
  destruct (merge_loop env add_bookmarks total m_init (x :: items))
    as [s [e|]]; [discriminate|]. simpl.
  destruct (write_output env out); simpl; repeat split; congruence.
Qed.

Lemma merge_loop_single_pages (total : Z) (items : list PdfItem) :
  total <> 0 ->
  (forall y, In y items -> single_page env y) ->
  forall st,
    List.length (w_pages (m_writer (fst (loop total st items))))
    = (List.length (w_pages (m_writer st)) + List.length items)%nat.
Proof.
  intros Ht. induction items as [|x items IH]; intros Hall st.
  - simpl. lia.
  - unfold loop in *. simpl.
    destruct (merge_item_writer page env add_bookmarks total total st st x
                Ht Ht eq_refl) as [Hn _].
    assert (Hx : List.length
                   (w_pages (m_writer (fst (merge_item env add_bookmarks total st x))))
                 = S (List.length (w_pages (m_writer st)))).
    { destruct (Hall x (or_introl eq_refl)) as (ry & pg & Ho & [Hr1 Hr2] & Hp).
      unfold merge_item, merge_try, m_emit_progress.
      rewrite Ho, Hr1, Hr2, Hp. simpl.
      destruct add_bookmarks; [destruct (add_outline_raises env _ _)|]; simpl;
        destruct (percent _ _); simpl; rewrite length_app; simpl; lia. }
    destruct (merge_item env add_bookmarks total st x) as [s [e|]];
      [discriminate|]. simpl in Hx.
    rewrite IH by (intros y Hy; apply Hall; now right). rewrite Hx. lia.
Qed.

End MergeRun.

(** C5. When a plan contains an encrypted document for which the attempt
    [decrypt("")] fails (the pages of the document then cannot be read, or
    the call itself raises): the run emits the skip message for it and then
    still reads every later item; the accumulated document is the one of
    the plan without that item, so none of its pages is added; when the
    final write succeeds that document is written and the run ends with
    [finished_ok]; and when the other items are single-page documents, the
    output has one page for each of them: 2 pages for a plan of 3. *)
Theorem merge_skips_unreadable
    (page : Type) (env : MergeEnv page) (add_bookmarks : bool)
    (l1 l2 : list PdfItem) (x : PdfItem) (rd : Reader page)
    (why : option exn) (out : string) :
  open_pdf env (path x) = inr rd ->
  undecryptable rd why ->
  let res := merge_run env add_bookmarks (l1 ++ x :: l2) out in
  (exists t1 t2,
      m_trace res = t1 ++ Message (skip_message x why) :: t2
      /\ forall y, In y l2 -> In (Message (MsgReading (path y))) t2)
  /\ m_writer res = m_writer (merge_run env add_bookmarks (l1 ++ l2) out)
  /\ (write_output env out = None ->
      m_output res = Some (m_writer res)
      /\ last (m_trace res) (Progress 0) = FinishedOk out)
  /\ ((forall y, In y (l1 ++ l2) -> single_page env y) ->
      List.length (w_pages (m_writer res))
      = (List.length l1 + List.length l2)%nat
      /\ ((List.length (l1 ++ x :: l2) = 3)%nat ->
          (List.length (w_pages (m_writer res)) = 2)%nat)).
Proof.
  intros Ho Hu res.
  assert (Hne : l1 ++ x :: l2 <> []) by (destruct l1; discriminate).
  destruct (merge_run_unfold page env add_bookmarks (l1 ++ x :: l2) out Hne)
    as (Ht & Hw & Htr & Hout).
  fold res in Hw, Htr, Hout.
  set (total := Z.of_nat (List.length (l1 ++ x :: l2))) in *.
  rewrite merge_loop_app in Hw, Htr, Hout by exact Ht.
  set (s1 := fst (merge_loop env add_bookmarks total m_init l1)) in *.
  simpl merge_loop in Hw, Htr, Hout.
  destruct (merge_item_writer page env add_bookmarks total total s1 s1 x
              Ht Ht eq_refl) as [Hn _].
  destruct (merge_item_undecryptable page env add_bookmarks total s1 x rd
              why Ht Ho Hu) as [Hwx [tx Htx]].
  destruct (merge_item env add_bookmarks total s1 x) as [sx [e|]];
    [discriminate|]. simpl in Hwx, Htx.
  destruct (merge_loop_trace page env add_bookmarks total l2 Ht sx)
    as (t2 & Ht2 & Hin).
  (* the writer after the loop is the one of the plan without [x] *)
  assert (Hsame : m_writer res
                  = m_writer (merge_run env add_bookmarks (l1 ++ l2) out)).
  { rewrite Hw.
    assert (Hl : l1 ++ l2 = [] \/ l1 ++ l2 <> [])
      by (destruct (l1 ++ l2); [now left|right; discriminate]).
    destruct Hl as [Hl|Hne'].
    - apply app_eq_nil in Hl. destruct Hl as [-> ->]. simpl.
      rewrite Hwx. reflexivity.
    - destruct (merge_run_unfold page env add_bookmarks (l1 ++ l2) out Hne')
        as (Ht' & Hw' & _).
      rewrite Hw', merge_loop_app by exact Ht'.
      set (s1' := fst (merge_loop env add_bookmarks _ m_init l1)).
      assert (H1 : m_writer s1 = m_writer s1').
      { apply (merge_loop_writer page env add_bookmarks total _ l1 Ht Ht'
                 m_init m_init eq_refl). }
      apply (merge_loop_writer page env add_bookmarks total _ l2 Ht Ht').
      congruence. }
  split; [|split; [exact Hsame|split]].
  - exists (m_trace s1 ++ [Message (MsgReading (path x))]).
    exists (tx ++ t2 ++ [match write_output env out with
                          | Some e => FinishedError (Traceback e)
                          | None => FinishedOk out
                          end]).
    split.
    + rewrite Htr, Ht2, Htx, <- !app_assoc. reflexivity.
    + intros y Hy. apply in_or_app. right. apply in_or_app. left. auto.
  - intros Hwo. split.
    + rewrite (Hout Hwo), <- Hw. reflexivity.
    + rewrite Htr, Hwo. apply last_last.
  - intros Hall.
    assert (Hlen : List.length (w_pages (m_writer res))
                   = (List.length l1 + List.length l2)%nat).
    { rewrite Hw.
      rewrite (merge_loop_single_pages page env add_bookmarks total l2 Ht)
        by (intros y Hy; apply Hall, in_or_app; now right).
      rewrite Hwx. unfold s1.
      rewrite (merge_loop_single_pages page env add_bookmarks total l1 Ht)
        by (intros y Hy; apply Hall, in_or_app; now left).
      simpl. lia. }
    split; [exact Hlen|]. intros H3. rewrite Hlen.
    rewrite length_app in H3. simpl in H3. lia.
Qed.

Lemma merge_skips_unreadable_witness :
  (List.length
     (w_pages
        (m_writer
           (merge_run three_docs_locked_env true
              ([item "a.pdf"] ++ item "b.pdf" :: [item "c.pdf"]) "out.pdf")))
   = 2)%nat.
Proof.
  destruct (merge_skips_unreadable nat three_docs_locked_env true
              [item "a.pdf"] [item "c.pdf"] (item "b.pdf") locked_reader
              (Some (LibraryError "File has not been decrypted"))
              "out.pdf" eq_refl
              (decrypt_refuses locked_reader _ eq_refl eq_refl eq_refl eq_refl))
    as (_ & _ & _ & Hpages).
  apply Hpages; [|reflexivity].
  intros y [<-|[<-|[]]]; exists (plain_reader 1), 1%nat; repeat split.
Defined.

(** *** Progress of a merge that meets no encrypted skip *)

Lemma progress_values_app (t1 t2 : list event) :
  progress_values (t1 ++ t2) = progress_values t1 ++ progress_values t2.
Proof.
  induction t1 as [|ev t1 IH]; [reflexivity|].
  simpl. destruct (progress_of ev); simpl; now rewrite IH.
Qed.

Section MergeProgress.

Variable page : Type.
Variable env : MergeEnv page.
Variable add_bookmarks : bool.

(** Outside the encrypted branch an iteration counts the item once and
    emits one progress value. *)
Lemma merge_item_progress (total : Z) (st : MergeState page) (x : PdfItem) :
  1 <= m_done st + 1 <= total -> total < 2 ^ 53 ->
  no_encrypted_skip env [x] ->
  let st' := fst (merge_item env add_bookmarks total st x) in
  snd (merge_item env add_bookmarks total st x) = None
  /\ m_done st' = m_done st + 1
  /\ progress_values (m_trace st')
     = progress_values (m_trace st)
       ++ [Qfloor (percent_float (m_done st + 1) total)].
Proof.
  intros Hd Ht Hx.
  pose proof (percent_is_floor (m_done st + 1) total Hd Ht) as Hp.
  unfold merge_item, merge_try, m_emit_progress.
  destruct (open_pdf env (path x)) as [e|rd] eqn:Ho; simpl.
  { rewrite Hp. simpl. rewrite !progress_values_app. simpl.
    rewrite ?app_nil_r. repeat split. }
  rewrite (Hx x rd (or_introl eq_refl) Ho).
  destruct (pages_raise rd); simpl.
  { rewrite Hp. simpl. rewrite !progress_values_app. simpl.
    rewrite ?app_nil_r. repeat split. }
  destruct add_bookmarks; [destruct (add_outline_raises env _ _)|]; simpl;
    rewrite Hp; simpl; rewrite !progress_values_app; simpl;
    rewrite ?app_nil_r; repeat split.
Qed.

Lemma merge_loop_progress (total : Z) (items : list PdfItem) :
  total < 2 ^ 53 ->
  no_encrypted_skip env items ->
  forall st,
    0 <= m_done st ->
    m_done st + Z.of_nat (List.length items) <= total ->
    let st' := fst (merge_loop env add_bookmarks total st items) in
    progress_values (m_trace st')
    = progress_values (m_trace st)
      ++ map (fun i => Qfloor (percent_float (m_done st + Z.of_nat i) total))
           (seq 1 (List.length items)).
Proof.
  intros Ht. induction items as [|x items IH]; intros Hall st H0 Hlen;
    cbv zeta in *.
  - simpl. now rewrite app_nil_r.
  - simpl List.length in *. simpl merge_loop.
    destruct (merge_item_progress total st x ltac:(lia) Ht) as (Hn & Hd & Hp).
    { intros y rd [<-|[]] Ho. apply (Hall x rd); [now left|exact Ho]. }
    destruct (merge_item env add_bookmarks total st x) as [s1 [e|]];
      [discriminate|]. simpl in Hd, Hp.
    rewrite IH.
    + rewrite Hp, <- app_assoc. f_equal. simpl. f_equal.
      rewrite <- (seq_shift (List.length items) 1), map_map.
      apply map_ext. intros i. rewrite Hd. f_equal. f_equal. lia.
    + intros y rd Hy. apply Hall. now right.
    + lia.
    + lia.
Qed.

(** X11. For a plan, of fewer than [2^53] items, with no encrypted document
    whose [decrypt("")] raises, [run] emits one progress value per item,
    item [i] (from 1) giving [int(i / total * 100)]; these values do not
    decrease, stay below 100 before the last item and are 100 at the last
    one. *)
Lemma merge_progress_without_encrypted_skip (items : list PdfItem)
    (out : string) :
  items <> [] ->
  Z.of_nat (List.length items) < 2 ^ 53 ->
  no_encrypted_skip env items ->
  let total := Z.of_nat (List.length items) in
  let value := fun i : nat => Qfloor (percent_float (Z.of_nat i) total) in
  progress_values (m_trace (merge_run env add_bookmarks items out))
  = map value (seq 1 (List.length items))
  /\ (forall i j : nat, (1 <= i)%nat -> (i <= j)%nat ->
        (j <= List.length items)%nat -> value i <= value j)
  /\ (forall i : nat, (1 <= i)%nat -> (i < List.length items)%nat ->
        value i <= 99)
  /\ value (List.length items) = 100.
Proof.
  intros Hne Ht Hall total value.
  destruct (merge_run_unfold page env add_bookmarks items out Hne)
    as (Ht0 & _ & Htr & _).
  fold total in Ht0, Htr.
  split; [|split; [|split]].
  - rewrite Htr, progress_values_app.
    pose proof (merge_loop_progress total items Ht Hall m_init) as Hl.
    simpl in Hl. rewrite Hl by (unfold total; lia).
    destruct (write_output env out); simpl; rewrite app_nil_r;
      apply map_ext; intros i; reflexivity.
  - intros i j Hi Hij Hj. unfold value. apply Qfloor_resp_le.
    apply percent_float_monotone; unfold total; lia.
  - intros i Hi Hlt. unfold value.
    apply (percent_float_bounds (Z.of_nat i) total); unfold total; lia.
  - unfold value. fold total.
    rewrite (Qfloor_comp _ _ (percent_float_full total ltac:(unfold total in *; lia))).
    reflexivity.
Qed.

End MergeProgress.

(** ** Page rotation *)

Section RotationFacts.

Variable P : Type.
Variable api : PageAPI P.
Hypothesis laws : rotation_laws api.

Lemma quarter_turns (d : Z) :
  d mod 90 = 0 ->
  d mod 360 = 0 \/ d mod 360 = 90 \/ d mod 360 = 180 \/ d mod 360 = 270.
Proof.
  intros H.
  assert (Hm : (d mod 360) mod 90 = 0).
  { rewrite <- H. apply Z.mod_mod_divide. exists 4. lia. }
  pose proof (Z.mod_pos_bound d 360 ltac:(lia)) as Hb.
  pose proof (Z.div_mod (d mod 360) 90 ltac:(lia)) as Hdm.
  rewrite Hm in Hdm. lia.
Qed.

Lemma add_mod_360 (r d k : Z) :
  d mod 360 = k -> (r + k) mod 360 = (r + d) mod 360.
Proof. intros <-. now rewrite Zplus_mod_idemp_r. Qed.

(** A call of [rotate_page_inplace] with a multiple of 90 that returns has
    turned the page by that angle, up to full turns. *)
Lemma rotate_page_inplace_adds (pg pg' : P) (d : Z) :
  d mod 90 = 0 ->
  rotate_page_inplace api pg d = Some pg' ->
  rotation api pg' mod 360 = (rotation api pg + d) mod 360.
Proof.
  destruct laws as (Hr & Hcw & Hccw).
  intros Hd. unfold rotate_page_inplace.
  destruct (rotate api pg d) as [q|] eqn:Hq.
  { intros [= <-]. now apply Hr. }
  destruct (Z.eqb_spec (d mod 360) 90) as [E|N90].
  { intros H. rewrite (Hcw _ _ _ H). now apply add_mod_360. }
  destruct (Z.eqb_spec (d mod 360) 180) as [E|N180].
  { intros H. rewrite (Hcw _ _ _ H). now apply add_mod_360. }
  destruct (Z.eqb_spec (d mod 360) 270) as [E|N270].
  { intros H. rewrite (Hccw _ _ _ H).
    replace (rotation api pg - 90) with (rotation api pg + 270 + (-1) * 360)
      by lia.
    rewrite Z_mod_plus_full. now apply add_mod_360. }
  intros [= <-].
  destruct (quarter_turns d Hd) as [E|[E|[E|E]]]; try contradiction.
  replace (rotation api pg) with (rotation api pg + 0) at 1 by lia.
  now apply add_mod_360.
Qed.

Lemma rotate_rows_adds (pages : list nat) (d : Z) (rows : list nat) :
  d mod 90 = 0 ->
  forall objs objs',
    rotate_rows api pages d rows objs = Some objs' ->
    forall ref,
      rotation api (objs' ref) mod 360
      = (rotation api (objs ref) + d * hits pages rows ref) mod 360.
Proof.
  intros Hd. induction rows as [|r rows IH]; intros objs objs' Hrun ref.
  - inversion Hrun; subst. simpl. f_equal. lia.
  - simpl in Hrun. simpl hits.
    destruct (nth_error pages r) as [ref'|]; [|discriminate].
    destruct (rotate_page_inplace api (objs ref') d) as [pg'|] eqn:Hpg;
      [|discriminate].
    rewrite (IH _ _ Hrun ref). unfold set_object.
    destruct (Nat.eqb_spec ref ref') as [->|Hne].
    + rewrite Nat.eqb_refl.
      rewrite Zplus_mod, (rotate_page_inplace_adds _ _ _ Hd Hpg), <- Zplus_mod.
      f_equal. lia.
    + destruct (Nat.eqb_spec ref' ref) as [E|_]; [congruence|]. f_equal; lia.
Qed.

Lemma on_edit_rotate_adds (rows : list nat) (d : Z) (s s' : EditSession P) :
  d mod 90 = 0 ->
  on_edit_rotate api rows d s = Some s' ->
  _edit_pages s' = _edit_pages s
  /\ forall ref,
      rotation api (objects s' ref) mod 360
      = (rotation api (objects s ref) + d * hits (_edit_pages s) rows ref)
        mod 360.
Proof.
  intros Hd. unfold on_edit_rotate.
  destruct (_edit_pages s) as [|p0 ps] eqn:Hp.
  { intros [= <-]. split; [now rewrite Hp|]. intros ref. f_equal.
    assert (H0 : hits [] rows ref = 0).
    { induction rows as [|r rows IH]; [reflexivity|]. simpl.
      rewrite IH. now destruct r. }
    rewrite H0. lia. }
  destruct rows as [|r0 rows'] eqn:Hrows.
  { intros [= <-]. split; [now rewrite Hp|]. intros ref. simpl. f_equal. lia. }
  destruct (rotate_rows api (p0 :: ps) d (r0 :: rows') (objects s))
    as [objs|] eqn:Hrun; [|discriminate].
  intros [= <-]. split; [reflexivity|]. intros ref.
  exact (rotate_rows_adds _ _ _ Hd _ _ Hrun ref).
Qed.

End RotationFacts.

Lemma mod360_eq_elim (a b : Z) :
  a mod 360 = b mod 360 -> exists k, a = b + 360 * k.
Proof.
  intros H. exists (a / 360 - b / 360).
  pose proof (Z.div_mod a 360 ltac:(lia)).
  pose proof (Z.div_mod b 360 ltac:(lia)). lia.
Qed.

Lemma mod360_eq_intro (a b k : Z) :
  a = b + 360 * k -> a mod 360 = b mod 360.
Proof. intros ->. rewrite Z.mul_comm. apply Z_mod_plus_full. Qed.

(** C8. For every page object whose rotation calls add the requested angle
    to the stored rotation up to full turns: four returning calls of
    [rotate_page_inplace] with +90 leave the stored rotation of the page as
    it was, modulo 360, and so does a call with -90 followed by one with
    +90; the same holds for every page object of the document after four
    [on_edit_rotate(+90)] on one selection, and after [on_edit_rotate(-90)]
    then [on_edit_rotate(+90)], also when several rows refer to one object. *)
Theorem rotation_restored_mod_360 (P : Type) (api : PageAPI P) :
  rotation_laws api ->
  (forall pg p1 p2 p3 p4,
      rotate_page_inplace api pg 90 = Some p1 ->
      rotate_page_inplace api p1 90 = Some p2 ->
      rotate_page_inplace api p2 90 = Some p3 ->
      rotate_page_inplace api p3 90 = Some p4 ->
      rotation api p4 mod 360 = rotation api pg mod 360)
  /\ (forall pg p1 p2,
        rotate_page_inplace api pg (-90) = Some p1 ->
        rotate_page_inplace api p1 90 = Some p2 ->
        rotation api p2 mod 360 = rotation api pg mod 360)
  /\ (forall rows s s1 s2 s3 s4,
        on_edit_rotate api rows 90 s = Some s1 ->
        on_edit_rotate api rows 90 s1 = Some s2 ->
        on_edit_rotate api rows 90 s2 = Some s3 ->
        on_edit_rotate api rows 90 s3 = Some s4 ->
        forall ref,
          rotation api (objects s4 ref) mod 360
          = rotation api (objects s ref) mod 360)
  /\ (forall rows s s1 s2,
        on_edit_rotate api rows (-90) s = Some s1 ->
        on_edit_rotate api rows 90 s1 = Some s2 ->
        forall ref,
          rotation api (objects s2 ref) mod 360
          = rotation api (objects s ref) mod 360).
Proof.
  intros laws.
  assert (H90 : 90 mod 90 = 0) by reflexivity.
  assert (Hm90 : (-90) mod 90 = 0) by reflexivity.
  split; [|split; [|split]].
  - intros pg p1 p2 p3 p4 H1 H2 H3 H4.
    apply (rotate_page_inplace_adds P api laws _ _ _ H90) in H1, H2, H3, H4.
    apply mod360_eq_elim in H1, H2, H3, H4.
    destruct H1 as [k1 H1], H2 as [k2 H2], H3 as [k3 H3], H4 as [k4 H4].
    apply (mod360_eq_intro _ _ (k1 + k2 + k3 + k4 + 1)). lia.
  - intros pg p1 p2 H1 H2.
    apply (rotate_page_inplace_adds P api laws _ _ _ Hm90) in H1.
    apply (rotate_page_inplace_adds P api laws _ _ _ H90) in H2.
    apply mod360_eq_elim in H1, H2.
    destruct H1 as [k1 H1], H2 as [k2 H2].
    apply (mod360_eq_intro _ _ (k1 + k2)). lia.
  - intros rows s s1 s2 s3 s4 H1 H2 H3 H4 ref.
    destruct (on_edit_rotate_adds P api laws _ _ _ _ H90 H1) as [E1 A1].
    destruct (on_edit_rotate_adds P api laws _ _ _ _ H90 H2) as [E2 A2].
    destruct (on_edit_rotate_adds P api laws _ _ _ _ H90 H3) as [E3 A3].
    destruct (on_edit_rotate_adds P api laws _ _ _ _ H90 H4) as [E4 A4].
    specialize (A1 ref). specialize (A2 ref).
    specialize (A3 ref). specialize (A4 ref).
    rewrite E3, E2, E1 in A4. rewrite E2, E1 in A3. rewrite E1 in A2.
    set (h := hits (_edit_pages s) rows ref) in *.
    apply mod360_eq_elim in A1, A2, A3, A4.
    destruct A1 as [k1 A1], A2 as [k2 A2], A3 as [k3 A3], A4 as [k4 A4].
    apply (mod360_eq_intro _ _ (k1 + k2 + k3 + k4 + h)). lia.
  - intros rows s s1 s2 H1 H2 ref.
    destruct (on_edit_rotate_adds P api laws _ _ _ _ Hm90 H1) as [E1 A1].
    destruct (on_edit_rotate_adds P api laws _ _ _ _ H90 H2) as [E2 A2].
    specialize (A1 ref). specialize (A2 ref). rewrite E1 in A2.
    set (h := hits (_edit_pages s) rows ref) in *.
    apply mod360_eq_elim in A1, A2.
    destruct A1 as [k1 A1], A2 as [k2 A2].
    apply (mod360_eq_intro _ _ (k1 + k2)). lia.
Qed.

Lemma stored_rotation_laws : rotation_laws stored_rotation_api.
Proof.
  repeat split; simpl; intros pg a pg'; try discriminate.
  destruct (a mod 90 =? 0); [|discriminate]. now intros [= <-].
Qed.

Lemma rotation_restored_mod_360_witness :
  rotate_page_inplace stored_rotation_api 90 90 = Some 180
  /\ rotation stored_rotation_api 450 mod 360
     = rotation stored_rotation_api 90 mod 360.
Proof.
  split; [reflexivity|].
  destruct (rotation_restored_mod_360 Z stored_rotation_api stored_rotation_laws)
    as (H4 & _).
  apply (H4 90 180 270 360 450); reflexivity.
Defined.

Lemma legacy_rotation_laws : rotation_laws legacy_rotation_api.
Proof.
  repeat split; simpl; intros pg a pg'; try discriminate;
    intros [= <-]; apply Z.mod_mod; lia.
Qed.

(** Two rows that refer to one page object: a selection of both turns the
    object twice. *)
Example on_edit_rotate_aliased :
  option_map (fun s => map (objects s) [0; 1]%nat)
    (on_edit_rotate legacy_rotation_api [0; 2]%nat (-90)
       {| objects := fun _ => 0; _edit_pages := [0; 1; 0]%nat |})
  = Some [180; 0].
Proof. reflexivity. Qed.

(** ** Preview scale *)

Lemma rne_integer (n : Z) : B64.rne n 1 = n.
Proof.
  unfold B64.rne. rewrite Z.mod_1_r, Z.div_1_r. reflexivity.
Qed.

(** An integer below [2^53] is a float. *)
Lemma float_of_int_exact (n : Z) :
  0 < n < 2 ^ 53 -> (float_of_int n == inject_Z n)%Q.
Proof.
  intros Hn. unfold float_of_int, B64.round. simpl Qnum. simpl Qden.
  destruct n as [|p|p]; try lia.
  unfold B64.round_pos, B64.significand, B64.ulp_exp.
  assert (Hlog : B64.ilog2 (Z.pos p) 1 = Z.log2 (Z.pos p)).
  { unfold B64.ilog2. change (Z.log2 1) with 0. rewrite Z.sub_0_r.
    pose proof (Z.log2_nonneg (Z.pos p)) as H0.
    destruct (Z.leb_spec 0 (Z.log2 (Z.pos p))); [|lia].
    pose proof (Z.log2_spec (Z.pos p) ltac:(lia)) as [Hl _].
    destruct (Z.leb_spec (1 * 2 ^ Z.log2 (Z.pos p)) (Z.pos p)); [reflexivity|lia]. }
  rewrite Hlog.
  assert (Hle : Z.log2 (Z.pos p) < 53) by (apply Z.log2_lt_pow2; lia).
  set (e := Z.max (Z.log2 (Z.pos p) - 52) (-1074)).
  assert (He : e <= 0) by (unfold e; lia).
  destruct (Z.leb_spec 0 e) as [H0|Hneg].
  - assert (E0 : e = 0) by lia. rewrite E0. change (2 ^ 0) with 1. change (1 * 1) with 1.
    rewrite rne_integer, Z.mul_1_r. reflexivity.
  - rewrite rne_integer, Qred_correct.
    assert (Hpow : 0 < 2 ^ (- e)) by (apply Z.pow_pos_nonneg; lia).
    unfold Qeq. cbn [Qnum Qden inject_Z].
    rewrite Z2Pos.id by exact Hpow. lia.
Qed.

Lemma b64_min_spec (x y : Q) :
  (B64.min x y = x \/ B64.min x y = y)
  /\ (B64.min x y <= x)%Q /\ (B64.min x y <= y)%Q.
Proof.
  unfold B64.min. destruct (Qcompare y x) eqn:Hc.
  - apply Qeq_alt in Hc. repeat split; [now left|apply Qle_refl|].
    rewrite Hc. apply Qle_refl.
  - apply Qlt_alt in Hc. repeat split; [now right| |apply Qle_refl].
    now apply Qlt_le_weak.
  - apply Qgt_alt in Hc. repeat split; [now left|apply Qle_refl|].
    now apply Qlt_le_weak.
Qed.

(** C6, as stated, fails: with a viewport 800 wide and a page 400 wide the
    scale of FitWidth is the float nearest to 794/400 = 1.985, not 2.0. *)
Lemma preview_fit_width_800_is_not_2 :
  _render_preview preview_env_800 1 fitw 1 0
  = PreviewShown (8939645260330435 # 4503599627370496)
  /\ ~ (8939645260330435 # 4503599627370496 == 2)%Q
  /\ (8939645260330435 # 4503599627370496 < 2)%Q.
Proof.
  split; [vm_compute; reflexivity|]. split.
  - unfold Qeq. simpl. lia.
  - unfold Qlt. simpl. lia.
Qed.

(** C6 (amended). When a row is shown, the scale of FitWidth is the float
    quotient of [max(1, viewport_width - 6)] by the page width, and the scale
    of FitPage is the smaller of that quotient and of the quotient of
    [max(1, viewport_height - 6)] by the page height; the two integers are
    floats themselves for viewports below [2^53] pixels. *)
Theorem preview_scale_fit
    (env : PreviewEnv) (n_pages row : Z) (stored : Q) (pw ph : Q) :
  fitz_ok env = true ->
  0 <= row < n_pages ->
  page_rect env row = Some (pw, ph) ->
  (forall s, pixmap_raises env row s = false) ->
  B64.is_zero pw = false ->
  let vw := Z.max 1 (viewport_width env - 6) in
  let vh := Z.max 1 (viewport_height env - 6) in
  _render_preview env n_pages fitw stored row
  = PreviewShown (B64.round (float_of_int vw / pw))
  /\ (B64.is_zero ph = false ->
      let sw := B64.round (float_of_int vw / pw) in
      let sh := B64.round (float_of_int vh / ph) in
      _render_preview env n_pages fitp stored row = PreviewShown (B64.min sw sh)
      /\ (B64.min sw sh = sw \/ B64.min sw sh = sh)
      /\ (B64.min sw sh <= sw)%Q /\ (B64.min sw sh <= sh)%Q)
  /\ (vw < 2 ^ 53 -> (float_of_int vw == inject_Z vw)%Q)
  /\ (vh < 2 ^ 53 -> (float_of_int vh == inject_Z vh)%Q).
Proof.
  intros Hf Hrow Hrect Hpix Hpw vw vh.
  assert (Hsel : (row <? 0) || (row >=? n_pages) = false).
  { destruct (Z.ltb_spec row 0); [lia|]. rewrite Z.geb_leb.
    destruct (Z.leb_spec n_pages row); [lia|reflexivity]. }
  split; [|split; [|split]].
  - unfold _render_preview, preview_scale_for, B64.truediv.
    rewrite Hf, Hsel, Hrect, Hpw, Hpix. reflexivity.
  - intros Hph sw sh. split; [|apply b64_min_spec].
    unfold _render_preview, preview_scale_for, B64.truediv.
    rewrite Hf, Hsel, Hrect, Hpw, Hph, Hpix. reflexivity.
  - intros H. apply float_of_int_exact. unfold vw in *. lia.
  - intros H. apply float_of_int_exact. unfold vh in *. lia.
Qed.

Lemma preview_scale_fit_witness :
  _render_preview preview_env_806 1 fitw 1 0 = PreviewShown 2.
Proof.
  destruct (preview_scale_fit preview_env_806 1 0 1 400 300
              eq_refl ltac:(lia) eq_refl (fun _ => eq_refl) eq_refl)
    as (Hw & _).
  rewrite Hw. vm_compute. reflexivity.
Defined.

(** ** More on the split worker *)

Lemma parse_ranges_in_bounds
    (py_strip : string -> string) (py_int : string -> option Z)
    (text : string) (total : Z) :
  1 <= total -> Forall (in_bounds total) (parse_ranges py_strip py_int text total).
Proof.
  intros Ht. rewrite parse_ranges_flat_map.
  induction (tokens py_strip text) as [|part parts IH]; simpl.
  - constructor.
  - apply Forall_app. split; [now apply parse_part_bounds|exact IH].
Qed.

Lemma enumerate1_snd (A : Type) (xs : list A) :
  map snd (enumerate1 xs) = xs.
Proof.
  unfold enumerate1.
  generalize 1%nat. induction xs as [|x xs IH]; intros n; simpl.
  - reflexivity.
  - f_equal. apply IH.
Qed.

Lemma enumerate1_In (A : Type) (xs : list A) (i : Z) (x : A) :
  In (i, x) (enumerate1 xs) -> 1 <= i /\ In x xs.
Proof.
  unfold enumerate1.
  assert (H : forall n, In (i, x) (combine (map (fun k => Z.of_nat k) (seq n (List.length xs))) xs)
                        -> Z.of_nat n <= i /\ In x xs).
  { induction xs as [|y xs IH]; intros n; simpl; [tauto|].
    intros [E|Hin].
    - inversion E; subst. split; [lia|now left].
    - destruct (IH _ Hin). split; [lia|now right]. }
  intros Hin. destruct (H 1%nat Hin). split; [lia|assumption].
Qed.

(** X1. CustomRanges on a source with pages: one file per interval of the
    parsed text, in the order of the text, each holding the pages of its
    interval (pages of overlapping intervals are written again). *)
Theorem split_custom_ranges
    (page : Type) (py_strip : string -> string) (py_int : string -> option Z)
    (senv : SplitEnv page) (self : SplitWorker) (r : Reader page) :
  split_env_ok senv (src_path self) (out_dir self) r ->
  mode self <> MODE_EACH -> mode self <> MODE_CHUNK ->
  1 <= Z.of_nat (List.length (pages r)) ->
  let rs := parse_ranges py_strip py_int (ranges_text self)
              (Z.of_nat (List.length (pages r))) in
  rs <> [] ->
  let res := split_run py_strip py_int senv self in
  output_spans (s_trace res) = rs
  /\ map f_pages (s_files res)
     = map (fun se => span_pages (pages r) (fst se) (snd se)) rs
  /\ List.length (s_files res) = List.length rs
  /\ last (s_trace res) (Progress 0) = FinishedOk (out_dir self).
Proof.
  intros Henv Hm1 Hm2 Htotal rs Hrs res.
  unfold res. rewrite (split_run_reaches_modes page py_strip py_int senv self r Henv).
  unfold split_modes.
  apply String.eqb_neq in Hm1, Hm2. rewrite Hm1, Hm2. fold rs.
  destruct rs as [|r0 rs'] eqn:Ers; [congruence|]. rewrite <- Ers in *.
  pose proof (parse_ranges_in_bounds py_strip py_int (ranges_text self) _ Htotal)
    as Hb. fold rs in Hb.
  destruct (s_for_writes page senv self (pages r) (Z * (Z * Z))
              (ranges_body senv self (pages r) (Z.of_nat (List.length rs)))
              snd (fun ir => (fst ir, Z.of_nat (List.length rs)))
              (enumerate1 rs))
    with (st := @split_start page self) as (st' & Hrun & Hidx & Hfiles & Htr).
  - apply Henv.
  - intros [i [s e]] st. reflexivity.
  - intros [i [s e]] Hin. apply enumerate1_In in Hin. destruct Hin as [Hi Hin].
    rewrite Forall_forall in Hb. specialize (Hb _ Hin).
    unfold in_bounds in Hb. simpl in *.
    assert (rs <> []) by (rewrite Ers; discriminate).
    destruct rs; [congruence|]. simpl List.length. lia.
  - rewrite Hrun. simpl s_files. simpl s_trace.
    rewrite output_spans_app, Htr, last_last. simpl.
    rewrite app_nil_r, enumerate1_snd.
    assert (Hf : map f_pages (s_files st')
                 = map (fun se => span_pages (pages r) (fst se) (snd se)) rs).
    { rewrite Hfiles. simpl.
      rewrite <- (map_map snd (fun se => span_pages (pages r) (fst se) (snd se))).
      now rewrite enumerate1_snd. }
    repeat split; try assumption.
    rewrite <- (length_map f_pages), Hf, length_map. reflexivity.
Qed.

Lemma concat_chunks (A : Type) (xs : list A) (k : Z) :
  1 <= k ->
  let total := Z.of_nat (List.length xs) in
  let chunks := (total + k - 1) / k in
  forall (m : nat) (a : Z),
    0 <= a <= chunks -> m = Z.to_nat (chunks - a) ->
    List.concat (map (fun c => span_pages xs (c * k + 1) (Z.min total ((c + 1) * k)))
              (py_range a chunks))
    = skipn (Z.to_nat (a * k)) xs.
Proof.
  intros Hk total chunks.
  pose proof (ceil_div_bounds total k Hk) as Hceil. fold chunks in Hceil.
  induction m as [|m IH]; intros a Ha Hm.
  - rewrite py_range_nil by lia. simpl. symmetry. apply skipn_all2.
    assert (a = chunks) by lia. subst a. unfold total in *. nia.
  - rewrite py_range_cons by lia. simpl. rewrite (IH (a + 1)) by lia.
    unfold span_pages.
    replace (Z.to_nat (a * k + 1 - 1)) with (Z.to_nat (a * k)) by (f_equal; lia).
    assert (Hak : 0 <= a * k < total) by nia.
    destruct (Z.le_gt_cases ((a + 1) * k) total) as [Hle|Hgt].
    + rewrite Z.min_r by lia.
      replace (Z.to_nat ((a + 1) * k - (a * k + 1) + 1)) with (Z.to_nat k)
        by (f_equal; lia).
      replace (Z.to_nat ((a + 1) * k)) with (Z.to_nat k + Z.to_nat (a * k))%nat
        by nia.
      rewrite <- skipn_skipn. apply firstn_skipn.
    + rewrite Z.min_l by lia.
      rewrite (skipn_all2 (n := Z.to_nat ((a + 1) * k))) by (unfold total in *; lia).
      rewrite app_nil_r. apply firstn_all2.
      rewrite length_skipn. unfold total in *. lia.
Qed.

(** X2. FixedChunk and EachPage cut the source into consecutive pieces:
    the pages of the written files, put end to end in the order of the
    files, are the pages of the source, none lost, repeated or moved; and
    every file of EachPage has one page. *)
Theorem split_partitions_source
    (page : Type) (py_strip : string -> string) (py_int : string -> option Z)
    (senv : SplitEnv page) (src out prefix ranges : string)
    (k pad start : Z) (r : Reader page) :
  split_env_ok senv src out r ->
  1 <= k ->
  let chunked :=
    split_run py_strip py_int senv
      (SplitWorker_init src out prefix MODE_CHUNK k ranges pad start) in
  let each :=
    split_run py_strip py_int senv
      (SplitWorker_init src out prefix MODE_EACH k ranges pad start) in
  List.concat (map f_pages (s_files chunked)) = pages r
  /\ List.concat (map f_pages (s_files each)) = pages r
  /\ Forall (fun f => List.length (f_pages f) = 1%nat) (s_files each).
Proof.
  intros Henv Hk chunked each.
  set (total := Z.of_nat (List.length (pages r))).
  destruct (FixedChunk_run page py_strip py_int senv src out prefix ranges
              k pad start r Henv Hk) as (_ & _ & Hc & _).
  destruct (EachPage_run page py_strip py_int senv src out prefix ranges
              k pad start r Henv) as (_ & _ & He & _).
  fold chunked in Hc. fold each in He. fold total in Hc, He.
  assert (Hone : map (fun p => span_pages (pages r) p p) (py_range 1 (total + 1))
                 = map (fun c => span_pages (pages r) (c * 1 + 1)
                                   (Z.min total ((c + 1) * 1)))
                     (py_range 0 ((total + 1 - 1) / 1))).
  { rewrite Z.div_1_r. replace (total + 1 - 1) with total by lia.
    unfold py_range. rewrite !map_map.
    replace (Z.to_nat (total + 1 - 1)) with (Z.to_nat (total - 0)) by (f_equal; lia).
    apply map_ext_in. intros i Hi. apply in_seq in Hi.
    f_equal; lia. }
  split; [|split].
  - rewrite Hc.
    eapply (concat_chunks page (pages r) k Hk) with (a := 0); [|reflexivity].
    pose proof (ceil_div_bounds total k Hk). fold total. nia.
  - rewrite He, Hone.
    eapply (concat_chunks page (pages r) 1 ltac:(lia)) with (a := 0); [|reflexivity].
    fold total. rewrite Z.div_1_r. unfold total. lia.
  - assert (Hl : Forall (fun pgs : list page => List.length pgs = 1%nat)
                   (map f_pages (s_files each))).
    { rewrite He. apply Forall_forall. intros pgs Hin.
      apply in_map_iff in Hin. destruct Hin as [p [<- Hp]].
      apply py_range_In in Hp. unfold span_pages.
      rewrite length_firstn, length_skipn. unfold total in *. lia. }
    rewrite Forall_map in Hl. exact Hl.
Qed.

Lemma clamp_single_page (total x : Z) : total <= 1 -> clamp total x = 1.
Proof. unfold clamp. lia. Qed.

Lemma parse_ranges_single_page
    (py_strip : string -> string) (py_int : string -> option Z)
    (text : string) (total : Z) :
  total <= 1 ->
  Forall (fun r => r = (1, 1)) (parse_ranges py_strip py_int text total).
Proof.
  intros Ht. rewrite parse_ranges_flat_map.
  induction (tokens py_strip text) as [|part parts IH]; simpl; [constructor|].
  apply Forall_app. split; [|exact IH].
  unfold parse_part.
  destruct (is_empty (py_strip part)); [constructor|].
  destruct (PyStr.split_first "-" (py_strip part)) as [[a b]|].
  - destruct (py_int a) as [ia|]; [|constructor].
    destruct (py_int b) as [ib|]; rewrite ?clamp_single_page by assumption;
      simpl; repeat constructor.
  - destruct (py_int (py_strip part)) as [p|]; [|constructor].
    rewrite clamp_single_page by assumption. repeat constructor.
Qed.

(** X3. CustomRanges on a source without pages: as soon as one field of the
    text is accepted, the run fails on the first page access with the
    traceback of an [IndexError], not with the message about bad ranges,
    and writes nothing. *)
Theorem split_custom_ranges_without_pages
    (page : Type) (py_strip : string -> string) (py_int : string -> option Z)
    (senv : SplitEnv page) (self : SplitWorker) (r : Reader page) :
  split_source_ok senv (src_path self) (out_dir self) r ->
  mode self <> MODE_EACH -> mode self <> MODE_CHUNK ->
  pages r = [] ->
  parse_ranges py_strip py_int (ranges_text self) 0 <> [] ->
  s_trace (split_run py_strip py_int senv self)
  = [FinishedError (Traceback IndexError)]
  /\ s_files (split_run py_strip py_int senv self) = [].
Proof.
  intros (He & Hm & Ho & Hr1 & Hr2) Hm1 Hm2 Hp Hrs.
  unfold split_run. rewrite He, Hm, Ho, Hr1, Hr2. simpl negb. cbv iota.
  unfold split_modes. apply String.eqb_neq in Hm1, Hm2.
  rewrite Hm1, Hm2, Hp. simpl List.length. simpl Z.of_nat.
  pose proof (parse_ranges_single_page py_strip py_int (ranges_text self) 0
                ltac:(lia)) as Hall.
  destruct (parse_ranges py_strip py_int (ranges_text self) 0) as [|r0 rs];
    [congruence|].
  inversion Hall as [|? ? E _]; subst r0.
  split; reflexivity.
Qed.

Lemma split_custom_ranges_without_pages_witness :
  s_trace (split_run PyStr.strip PyStr.int (plain_split_env 0)
             (SplitWorker_init "in.pdf" "out" "p" MODE_RANGES 1 "1" 3 1))
  = [FinishedError (Traceback IndexError)].
Proof.
  refine (proj1 (split_custom_ranges_without_pages nat PyStr.strip PyStr.int
                   (plain_split_env 0) _ (plain_reader 0) _ _ _ eq_refl _)).
  - repeat split.
  - discriminate.
  - discriminate.
  - discriminate.
Defined.

Section SplitTrace.

Context {page : Type}.
Variable py_strip : string -> string.
Variable py_int : string -> option Z.
Variable senv : SplitEnv page.
Variable self : SplitWorker.

Lemma running_app (t1 t2 : list event) :
  running t1 -> running t2 -> running (t1 ++ t2).
Proof. unfold running. intros H1 H2. now rewrite forallb_app, H1, H2. Qed.

Lemma running_write_range (xs : list page) (s e : Z) (st : SplitState page) :
  running (s_trace st) ->
  running (s_trace (fst (write_range senv self xs s e st))).
Proof.
  intros H. unfold write_range.
  destruct (collect_pages xs (py_range (s - 1) e)); [|exact H].
  destruct (write_raises senv _ _); [exact H|].
  simpl. now apply running_app.
Qed.

Lemma running_progress (a b : Z) (st : SplitState page) :
  running (s_trace st) ->
  running (s_trace (fst (s_emit_progress a b st))).
Proof.
  intros H. unfold s_emit_progress.
  destruct (percent a b); [|exact H]. simpl. now apply running_app.
Qed.

Lemma running_then (r : SplitState page * option exn)
    (k : SplitState page -> SplitState page * option exn) :
  running (s_trace (fst r)) ->
  (forall st, running (s_trace st) -> running (s_trace (fst (k st)))) ->
  running (s_trace (fst (s_then r k))).
Proof. intros Hr Hk. destruct r as [st [e|]]; simpl in *; auto. Qed.

Lemma running_for (A : Type)
    (body : A -> SplitState page -> SplitState page * option exn)
    (items : list A) :
  (forall x st, running (s_trace st) -> running (s_trace (fst (body x st)))) ->
  forall st, running (s_trace st) ->
             running (s_trace (fst (s_for body items st))).
Proof.
  intros Hbody. induction items as [|x items IH]; intros st Hst; simpl.
  - exact Hst.
  - specialize (Hbody x st Hst).
    destruct (body x st) as [st' [e|]]; simpl in *; auto.
Qed.

Lemma running_modes (xs : list page) (st : SplitState page) :
  running (s_trace st) ->
  match split_modes py_strip py_int senv self xs st with
  | inl _ => True
  | inr r => running (s_trace (fst r))
  end.
Proof.
  intros Hst. unfold split_modes.
  destruct (String.eqb (mode self) MODE_EACH).
  { apply running_for; [|exact Hst]. intros p st' H. unfold each_body.
    apply running_then; [now apply running_write_range|].
    intros st''. apply running_progress. }
  destruct (String.eqb (mode self) MODE_CHUNK).
  { destruct (py_floordiv _ _); [|exact Hst].
    apply running_for; [|exact Hst]. intros c st' H. unfold chunk_body.
    apply running_then; [now apply running_write_range|].
    intros st''. apply running_progress. }
  destruct (parse_ranges _ _ _ _) as [|r0 rs]; [exact I|].
  apply running_for; [|exact Hst]. intros [i [s e]] st' H.
  unfold ranges_body.
  apply running_then; [now apply running_write_range|].
  intros st''. apply running_progress.
Qed.

End SplitTrace.

(** X4. Every split run, whatever the environment does, emits exactly one
    terminal signal, as its last signal; it is [finished_ok] with the output
    directory or [finished_error]. *)
Theorem split_run_ends_once
    (page : Type) (py_strip : string -> string) (py_int : string -> option Z)
    (senv : SplitEnv page) (self : SplitWorker) :
  exists t,
    finished_with (s_trace (split_run py_strip py_int senv self)) t
    /\ (t = FinishedOk (out_dir self) \/ exists d, t = FinishedError d).
Proof.
  assert (H0 : running (s_trace (@split_start page self))) by reflexivity.
  assert (Hfail : forall d,
             exists t,
               finished_with (s_trace (s_emit (FinishedError d) (@split_start page self))) t
               /\ (t = FinishedOk (out_dir self) \/ exists d, t = FinishedError d)).
  { intros d. exists (FinishedError d). split; [|right; now exists d].
    exists []. repeat split. }
  unfold split_run.
  destruct (negb _); [apply Hfail|].
  destruct (makedirs_raises _ _); [apply Hfail|].
  destruct (s_open_pdf _ _) as [e|r]; [apply Hfail|].
  destruct (_ && _); [apply Hfail|].
  destruct (pages_raise r); [apply Hfail|].
  pose proof (running_modes py_strip py_int senv self (pages r) _ H0) as Hm.
  destruct (split_modes _ _ _ _ _ _) as [d|[st [e|]]]; [apply Hfail| |].
  - exists (FinishedError (Traceback e)). split; [|right; eauto].
    exists (s_trace st). repeat split. exact Hm.
  - exists (FinishedOk (out_dir self)). split; [|now left].
    exists (s_trace st). repeat split. exact Hm.
Qed.

Lemma each_loop_until_failure (page : Type) (senv : SplitEnv page)
    (self : SplitWorker) (xs : list page) (e : exn) (n : nat) :
  let total := Z.of_nat (List.length xs) in
  forall (p0 : Z) (st : SplitState page),
    1 <= p0 -> p0 + Z.of_nat n <= total ->
    (forall i, (i < n)%nat ->
       write_raises senv (out_dir self)
         (out_name (filename_prefix self) (s_idx st + Z.of_nat i) (pad self))
       = None) ->
    write_raises senv (out_dir self)
      (out_name (filename_prefix self) (s_idx st + Z.of_nat n) (pad self))
    = Some e ->
    exists st',
      s_for (each_body senv self xs total) (py_range p0 (total + 1)) st
      = (st', Some e)
      /\ map f_pages (s_files st')
         = map f_pages (s_files st)
           ++ map (fun p => span_pages xs p p) (py_range p0 (p0 + Z.of_nat n))
      /\ output_spans (s_trace st')
         = output_spans (s_trace st)
           ++ map (fun p => (p, p)) (py_range p0 (p0 + Z.of_nat n))
      /\ running (s_trace st') = running (s_trace st).
Proof.
  intros total. induction n as [|n IH]; intros p0 st Hp0 Hle Hok Hfail.
  - rewrite py_range_cons by lia. simpl s_for.
    unfold each_body at 1, write_range.
    rewrite collect_pages_span by lia.
    replace (s_idx st + Z.of_nat 0) with (s_idx st) in Hfail by lia.
    rewrite Hfail. simpl.
    exists st. rewrite py_range_nil by lia. simpl. rewrite !app_nil_r.
    repeat split.
  - rewrite py_range_cons by lia. simpl s_for.
    unfold each_body at 1, write_range.
    rewrite collect_pages_span by lia.
    pose proof (Hok O ltac:(lia)) as H0.
    replace (s_idx st + Z.of_nat 0) with (s_idx st) in H0 by lia.
    rewrite H0. unfold s_then, s_emit_progress.
    destruct (percent_defined p0 total ltac:(lia)) as [pc ->].
    match goal with |- context [s_for _ _ ?s] =>
      destruct (IH (p0 + 1) s ltac:(lia) ltac:(lia)) as (st' & Hrun & Hf & Hs & Hr)
    end.
    + intros i Hi. simpl s_idx.
      replace (s_idx st + 1 + Z.of_nat i) with (s_idx st + Z.of_nat (S i)) by lia.
      apply Hok. lia.
    + simpl s_idx.
      replace (s_idx st + 1 + Z.of_nat n) with (s_idx st + Z.of_nat (S n)) by lia.
      exact Hfail.
    + exists st'. rewrite Hrun. split; [reflexivity|].
      simpl in Hf, Hs, Hr.
      rewrite (py_range_cons p0 (p0 + Z.of_nat (S n))) by lia.
      replace (p0 + Z.of_nat (S n)) with (p0 + 1 + Z.of_nat n) by lia.
      split; [|split].
      * rewrite Hf, map_app, <- app_assoc. reflexivity.
      * rewrite Hs, !output_spans_app. simpl. rewrite app_nil_r, <- app_assoc.
        reflexivity.
      * rewrite Hr. unfold running. rewrite !forallb_app. simpl.
        now rewrite !andb_true_r.
Qed.

(** X5. EachPage when the write of file number [j] (from 0) raises [e] and
    the earlier writes succeed: the files of pages [1 .. j] have been
    written and stay, no later page is written, and the run ends with the
    traceback of [e]. *)
Theorem split_each_page_write_failure
    (page : Type) (py_strip : string -> string) (py_int : string -> option Z)
    (senv : SplitEnv page) (src out prefix ranges : string)
    (k pad_ start : Z) (r : Reader page) (j : nat) (e : exn) :
  let self := SplitWorker_init src out prefix MODE_EACH k ranges pad_ start in
  split_source_ok senv src out r ->
  (j < List.length (pages r))%nat ->
  (forall i, (i < j)%nat ->
     write_raises senv out
       (out_name (filename_prefix self) (start + Z.of_nat i) (pad self)) = None) ->
  write_raises senv out
    (out_name (filename_prefix self) (start + Z.of_nat j) (pad self)) = Some e ->
  let res := split_run py_strip py_int senv self in
  map f_pages (s_files res) = map (fun pg => [pg]) (firstn j (pages r))
  /\ output_spans (s_trace res)
     = map (fun p => (p, p)) (py_range 1 (1 + Z.of_nat j))
  /\ finished_with (s_trace res) (FinishedError (Traceback e)).
Proof.
  intros self (He & Hm & Ho & Hr1 & Hr2) Hj Hok Hfail res.
  unfold res, split_run. simpl src_path. simpl out_dir.
  rewrite He, Hm, Ho, Hr1, Hr2. simpl negb. cbv iota.
  unfold split_modes.
  change (String.eqb (mode self) MODE_EACH) with true. cbv iota.
  destruct (each_loop_until_failure page senv self (pages r) e j 1
              (@split_start page self) ltac:(lia) ltac:(lia) Hok Hfail)
    as (st' & Hrun & Hf & Hs & Hr).
  rewrite Hrun. simpl s_files. simpl s_trace.
  simpl in Hf, Hs. split; [|split].
  - rewrite Hf. clear -Hj.
    assert (H : forall (xs : list page) (a : nat) (j : nat),
               (a + j <= List.length xs)%nat ->
               map (fun p => span_pages xs p p)
                 (py_range (1 + Z.of_nat a) (1 + Z.of_nat a + Z.of_nat j))
               = map (fun pg => [pg]) (firstn j (skipn a xs))).
    { intros xs a j0. revert a. induction j0 as [|j0 IH]; intros a Ha.
      - rewrite py_range_nil by lia. reflexivity.
      - rewrite py_range_cons by lia. cbn [map].
        replace (1 + Z.of_nat a + 1) with (1 + Z.of_nat (S a)) by lia.
        replace (1 + Z.of_nat a + Z.of_nat (S j0))
          with (1 + Z.of_nat (S a) + Z.of_nat j0) by lia.
        rewrite IH by lia. unfold span_pages.
        replace (Z.to_nat (1 + Z.of_nat a - (1 + Z.of_nat a) + 1)) with 1%nat by lia.
        replace (Z.to_nat (1 + Z.of_nat a - 1)) with a by lia.
        destruct (skipn a xs) as [|x rest] eqn:Hsk.
        + assert (List.length (skipn a xs) = 0%nat) by now rewrite Hsk.
          rewrite length_skipn in H. lia.
        + assert (Hs2 : skipn (S a) xs = rest).
          { replace (S a) with (1 + a)%nat by lia.
            rewrite <- skipn_skipn, Hsk. reflexivity. }
          rewrite Hs2. reflexivity. }
    specialize (H (pages r) O j ltac:(lia)). simpl in H. exact H.
  - rewrite output_spans_app, Hs. simpl. now rewrite app_nil_r.
  - exists (s_trace st'). repeat split.
    rewrite Hr. reflexivity.
Qed.

Lemma split_custom_ranges_witness :
  map f_pages
    (s_files (split_run PyStr.strip PyStr.int (plain_split_env 5)
                (SplitWorker_init "in.pdf" "out" "p" MODE_RANGES 1 "4-2,3" 3 1)))
  = [[2; 3; 4]; [3]]%nat.
Proof.
  destruct (split_custom_ranges nat PyStr.strip PyStr.int (plain_split_env 5)
              (SplitWorker_init "in.pdf" "out" "p" MODE_RANGES 1 "4-2,3" 3 1)
              (plain_reader 5))
    as (_ & Hf & _).
  - apply plain_split_env_ok.
  - discriminate.
  - discriminate.
  - simpl. lia.
  - discriminate.
  - rewrite Hf. reflexivity.
Defined.

Lemma split_partitions_source_witness :
  List.concat
    (map f_pages
       (s_files (split_run PyStr.strip PyStr.int (plain_split_env 10)
                   (SplitWorker_init "in.pdf" "out" "" MODE_CHUNK 4 "" 3 1))))
  = seq 1 10.
Proof.
  exact (proj1 (split_partitions_source nat PyStr.strip PyStr.int
                  (plain_split_env 10) "in.pdf" "out" "" "" 4 3 1
                  (plain_reader 10) (plain_split_env_ok 10 "in.pdf" "out")
                  ltac:(lia))).
Defined.

Lemma split_each_page_write_failure_witness :
  map f_pages
    (s_files (split_run PyStr.strip PyStr.int third_write_fails_env
                (SplitWorker_init "in.pdf" "out" "p" MODE_EACH 1 "" 3 1)))
  = [[1]; [2]]%nat.
Proof.
  destruct (split_each_page_write_failure nat PyStr.strip PyStr.int
              third_write_fails_env "in.pdf" "out" "p" "" 1 3 1
              (plain_reader 5) 2 (LibraryError "disk full"))
    as (Hf & _).
  - repeat split.
  - simpl. lia.
  - intros [|[|i]] Hi; try lia; reflexivity.
  - reflexivity.
  - rewrite Hf. reflexivity.
Defined.

(** ** Output names of one run are distinct *)

Lemma str_injective (a b : Z) : PyStr.str a = PyStr.str b -> a = b.
Proof.
  unfold PyStr.str. intros H.
  assert (Hn : forall z, Z.to_int z <> Decimal.Pos Decimal.Nil
                         /\ Z.to_int z <> Decimal.Neg Decimal.Nil).
  { intros [|p|p]; simpl; split; try discriminate;
      intros E; inversion E as [E']; now apply DecimalPos.Unsigned.to_uint_nonnil in E'. }
  apply DecimalZ.to_int_inj.
  assert (E : Some (Z.to_int a) = Some (Z.to_int b)).
  { rewrite <- (NilZero.isi (Z.to_int a)) by apply Hn.
    rewrite <- (NilZero.isi (Z.to_int b)) by apply Hn.
    now rewrite H. }
  now inversion E.
Qed.

(** The decimal text of an integer that is not negative is "0" or starts
    with a digit other than 0. *)
Lemma str_nonneg_form (a : Z) :
  0 <= a ->
  PyStr.str a = "0"
  \/ exists c r, PyStr.str a = String c r /\ drop_zeros (String c r) = String c r
                 /\ c <> "-"%char.
Proof.
  intros Ha. destruct a as [|p|p]; [now left| |lia]. right.
  unfold PyStr.str. simpl.
  pose proof (DecimalPos.Unsigned.to_uint_nonnil p) as Hnil.
  pose proof (DecimalPos.Unsigned.to_uint_nonzero p) as Hnz.
  assert (Hu : Pos.to_uint p = Decimal.unorm (Pos.to_uint p)).
  { rewrite <- DecimalPos.Unsigned.to_of, DecimalPos.Unsigned.of_to. reflexivity. }
  pose proof (DecimalFacts.nzhead_nonzero (Pos.to_uint p)) as Hh.
  unfold Decimal.unorm in Hu.
  destruct (Pos.to_uint p) as [|u|u|u|u|u|u|u|u|u|u] eqn:E;
    try congruence;
    try (do 2 eexists; split; [reflexivity|split; [reflexivity|discriminate]]).
  exfalso. rewrite <- E in Hu.
  destruct (Decimal.nzhead (Pos.to_uint p)) eqn:Eh; congruence.
Qed.

Lemma str_negative (a : Z) :
  a < 0 -> PyStr.str a = String "-" (PyStr.str (- a)).
Proof.
  intros Ha. destruct a as [|p|p]; try lia. unfold PyStr.str. simpl.
  destruct (Pos.to_uint p); reflexivity.
Qed.

Lemma drop_zeros_fill (n : nat) (s : string) :
  drop_zeros (PyStr.zeros n ++ s) = drop_zeros s.
Proof. induction n as [|n IH]; [reflexivity|exact IH]. Qed.

Lemma fill_unsigned_injective (a b : Z) (n m : nat) :
  0 <= a -> 0 <= b ->
  (PyStr.zeros n ++ PyStr.str a = PyStr.zeros m ++ PyStr.str b)%string ->
  a = b.
Proof.
  intros Ha Hb H. apply str_injective.
  apply (f_equal drop_zeros) in H. rewrite !drop_zeros_fill in H.
  destruct (str_nonneg_form a Ha) as [Ea|(ca & ra & Ea & Da & _)];
    destruct (str_nonneg_form b Hb) as [Eb|(cb & rb & Eb & Db & _)];
    rewrite Ea, Eb in *.
  - reflexivity.
  - rewrite Db in H. discriminate.
  - rewrite Da in H. discriminate.
  - now rewrite Da, Db in H.
Qed.

Lemma fill_head_not_minus (a : Z) (n : nat) (r : string) :
  0 <= a -> (PyStr.zeros n ++ PyStr.str a)%string <> String "-" r.
Proof.
  intros Ha. destruct n as [|n]; simpl; [|discriminate].
  destruct (str_nonneg_form a Ha) as [E|(c & r' & E & _ & Hc)]; rewrite E.
  - discriminate.
  - intros H. inversion H. contradiction.
Qed.

Lemma zfill_str_injective (a b width : Z) :
  PyStr.zfill (PyStr.str a) width = PyStr.zfill (PyStr.str b) width -> a = b.
Proof.
  destruct (Z.lt_ge_cases a 0) as [Ha|Ha];
    destruct (Z.lt_ge_cases b 0) as [Hb|Hb].
  - rewrite (str_negative a Ha), (str_negative b Hb). unfold PyStr.zfill.
    intros H. inversion H as [H'].
    apply fill_unsigned_injective in H'; lia.
  - rewrite (str_negative a Ha), (zfill_unsigned b width) by lia.
    unfold PyStr.zfill. intros H. symmetry in H.
    now apply fill_head_not_minus in H; [|lia].
  - rewrite (str_negative b Hb), (zfill_unsigned a width) by lia.
    unfold PyStr.zfill. intros H.
    now apply fill_head_not_minus in H; [|lia].
  - rewrite !zfill_unsigned by lia. apply fill_unsigned_injective; lia.
Qed.

Lemma append_cancel_l (p s t : string) : (p ++ s = p ++ t)%string -> s = t.
Proof.
  induction p as [|c p IH]; simpl; [auto|]. intros H. inversion H. auto.
Qed.

Lemma append_length (s t : string) :
  String.length (s ++ t) = (String.length s + String.length t)%nat.
Proof. induction s as [|c s IH]; simpl; [reflexivity|now rewrite IH]. Qed.

Lemma append_cancel_r (s t q : string) : (s ++ q = t ++ q)%string -> s = t.
Proof.
  revert t. induction s as [|c s IH]; intros [|d t] H; simpl in H.
  - reflexivity.
  - apply (f_equal String.length) in H. simpl in H.
    rewrite append_length in H. lia.
  - apply (f_equal String.length) in H. simpl in H.
    rewrite append_length in H. lia.
  - inversion H. f_equal. auto.
Qed.

Lemma out_name_injective (prefix : string) (i j pad_ : Z) :
  out_name prefix i pad_ = out_name prefix j pad_ -> i = j.
Proof.
  unfold out_name. intros H.
  apply append_cancel_l in H. apply (append_cancel_l "_") in H.
  apply append_cancel_r in H. now apply zfill_str_injective in H.
Qed.

(** X6. In every run and every mode the files written by the split worker
    have pairwise distinct names: a run never writes over one of its own
    outputs. *)
Theorem split_output_names_distinct
    (page : Type) (py_strip : string -> string) (py_int : string -> option Z)
    (senv : SplitEnv page) (self : SplitWorker) :
  NoDup (map f_name (s_files (split_run py_strip py_int senv self))).
Proof.
  destruct (names_inv_run page py_strip py_int senv self) as [_ Hnames].
  apply NoDup_nth_error. intros i j Hi Hij.
  rewrite length_map in Hi.
  rewrite !nth_error_map in Hij.
  destruct (nth_error (s_files _) i) as [fi|] eqn:Ei.
  2:{ apply nth_error_None in Ei. lia. }
  destruct (nth_error (s_files _) j) as [fj|] eqn:Ej; [|discriminate].
  simpl in Hij. inversion Hij as [Hn].
  destruct (Hnames i fi Ei) as [_ Hni]. destruct (Hnames j fj Ej) as [_ Hnj].
  rewrite Hni, Hnj in Hn. apply out_name_injective in Hn. lia.
Qed.

(** ** More on the merge worker *)

Section MergeMore.

Context {page : Type}.
Variable env : MergeEnv page.
Variable add_bookmarks : bool.

Ltac progress_known Ht :=
  repeat match goal with
  | |- context [percent ?a ?b] =>
      let p := fresh "p" in
      let Hp := fresh "Hp" in
      destruct (percent_defined a b Ht) as [p Hp]; rewrite Hp; clear Hp
  end.

(** What one iteration does to the writer, the counter and the trace. *)
Lemma merge_item_effect (total : Z) (st : MergeState page) (x : PdfItem) :
  total <> 0 ->
  let st' := fst (merge_item env add_bookmarks total st x) in
  w_pages (m_writer st') = w_pages (m_writer st) ++ contribution env x
  /\ m_done st' = m_done st + (if encrypted_skip env x then 2 else 1)
  /\ List.length (progress_values (m_trace st'))
     = (List.length (progress_values (m_trace st))
        + (if encrypted_skip env x then 2 else 1))%nat
  /\ (running (m_trace st) -> running (m_trace st'))
  /\ m_output st' = m_output st
  /\ (add_bookmarks = false -> w_outline (m_writer st') = w_outline (m_writer st))
  /\ (outline_on_sources env (m_writer st) ->
      outline_on_sources env (m_writer st')).
Proof.
  intros Ht. unfold merge_item, merge_try, m_emit_progress,
    contribution, encrypted_skip.
  assert (Hgrow : forall (w : Writer page) (more : list page) (ol : list (string * nat)),
             outline_on_sources env w ->
             (forall p i, In (p, i) ol ->
                In (p, i) (w_outline w)
                \/ exists rd, open_pdf env p = inr rd /\ i = List.length (w_pages w)
                              /\ more = pages rd) ->
             outline_on_sources env
               {| w_pages := w_pages w ++ more; w_outline := ol |}).
  { intros w more ol Hw Hol p i Hin. simpl.
    destruct (Hol p i Hin) as [Hold|(rd & Ho & -> & ->)].
    - destruct (Hw p i Hold) as (rd & Ho & Hf). exists rd. split; [exact Ho|].
      destruct (pages rd) as [|pg0 pgs] eqn:Hpg; [reflexivity|].
      rewrite <- Hpg in *.
      assert (Hpos : (0 < List.length (pages rd))%nat) by (rewrite Hpg; simpl; lia).
      assert (Hlen : (i + List.length (pages rd) <= List.length (w_pages w))%nat).
      { apply (f_equal (@List.length page)) in Hf.
        rewrite length_firstn, length_skipn in Hf. lia. }
      rewrite skipn_app, firstn_app, length_skipn.
      replace (List.length (pages rd) - (List.length (w_pages w) - i))%nat
        with 0%nat by lia.
      rewrite firstn_O, app_nil_r. exact Hf.
    - exists rd. split; [exact Ho|].
      rewrite skipn_app, skipn_all, Nat.sub_diag. simpl. apply firstn_all. }
  destruct (open_pdf env (path x)) as [e|rd] eqn:Ho; simpl.
  { progress_known Ht. simpl. rewrite !progress_values_app, !length_app. simpl.
    rewrite app_nil_r. repeat split; try lia.
    - intros H. unfold running in *. rewrite !forallb_app, H. reflexivity.
    - auto. }
  destruct (is_encrypted rd && decrypt_raises rd); simpl.
  { progress_known Ht. simpl. progress_known Ht. simpl.
    rewrite !progress_values_app, !length_app. simpl.
    rewrite app_nil_r. repeat split; try lia.
    - intros H. unfold running in *. rewrite !forallb_app, H. reflexivity.
    - auto. }
  destruct (pages_raise rd); simpl.
  { progress_known Ht. simpl. rewrite !progress_values_app, !length_app. simpl.
    repeat split; try lia.
    - intros H. unfold running in *. rewrite !forallb_app, H. reflexivity.
    - intros Hw. apply Hgrow; [exact Hw|]. intros src i Hin. now left. }
  destruct add_bookmarks; [destruct (add_outline_raises env _ _)|]; simpl;
    progress_known Ht; simpl; rewrite !progress_values_app, !length_app; simpl;
    (repeat split; try lia; try discriminate;
     [ intros H; unfold running in *; rewrite !forallb_app, H; reflexivity
     | intros Hw; apply Hgrow; [exact Hw|]; intros src i Hin ]).
  - now left.
  - apply in_app_or in Hin. destruct Hin as [Hin|[E|[]]]; [now left|].
    inversion E; subst. right. exists rd. repeat split. exact Ho.
  - now left.
Qed.

Lemma merge_loop_effect (total : Z) (items : list PdfItem) :
  total <> 0 ->
  forall st,
    let st' := fst (merge_loop env add_bookmarks total st items) in
    w_pages (m_writer st')
    = w_pages (m_writer st) ++ flat_map (contribution env) items
    /\ m_done st'
       = m_done st + Z.of_nat (List.length items)
         + Z.of_nat (List.length (filter (encrypted_skip env) items))
    /\ List.length (progress_values (m_trace st'))
       = (List.length (progress_values (m_trace st))
          + List.length items
          + List.length (filter (encrypted_skip env) items))%nat
    /\ (running (m_trace st) -> running (m_trace st'))
    /\ m_output st' = m_output st
    /\ (add_bookmarks = false ->
        w_outline (m_writer st') = w_outline (m_writer st))
    /\ (outline_on_sources env (m_writer st) ->
        outline_on_sources env (m_writer st')).
Proof.
  intros Ht. induction items as [|x items IH]; intros st; cbv zeta.
  - simpl. rewrite app_nil_r. repeat split; auto; lia.
  - simpl merge_loop.
    destruct (merge_item_writer page env add_bookmarks total total st st x
                Ht Ht eq_refl) as [Hn _].
    destruct (merge_item_effect total st x Ht)
      as (Hp & Hd & Hl & Hr & Ho & Hb & Hs).
    destruct (merge_item env add_bookmarks total st x) as [s1 [e|]];
      [discriminate|]. simpl in Hp, Hd, Hl, Hr, Ho, Hb, Hs.
    destruct (IH s1) as (Hp' & Hd' & Hl' & Hr' & Ho' & Hb' & Hs').
    simpl flat_map. simpl filter. simpl List.length.
    rewrite Hp', Hp, Hd', Hd, Hl', Hl, Ho', Ho, <- app_assoc.
    destruct (encrypted_skip env x); simpl List.length;
      repeat split; auto; try lia; intros E; now rewrite (Hb' E), (Hb E).
Qed.

End MergeMore.

(** X7. The merged document is made of the pages of the documents of the
    plan, in plan order, each document giving its pages in their order;
    the documents that cannot be opened and the encrypted ones whose
    [decrypt("")] raises give none. When the final write succeeds, this is
    the document written. *)
Theorem merge_output_in_plan_order
    (page : Type) (env : MergeEnv page) (add_bookmarks : bool)
    (items : list PdfItem) (out : string) :
  let res := merge_run env add_bookmarks items out in
  w_pages (m_writer res) = flat_map (contribution env) items
  /\ (items <> [] -> write_output env out = None ->
      exists w, m_output res = Some w
                /\ w_pages w = flat_map (contribution env) items).
Proof.
  intros res. destruct items as [|x items].
  - split; [reflexivity|congruence].
  - assert (Hne : x :: items <> []) by discriminate.
    destruct (merge_run_unfold page env add_bookmarks (x :: items) out Hne)
      as (Ht & Hw & _ & Ho).
    destruct (merge_loop_effect env add_bookmarks _ (x :: items) Ht m_init)
      as (Hp & _).
    fold res in Hw, Ho. split.
    + rewrite Hw, Hp. reflexivity.
    + intros _ Hwr. eexists. split; [exact (Ho Hwr)|]. rewrite Hp. reflexivity.
Qed.

(** X8. Every bookmark of the merged document is named after a document
    that was opened and points at the index where the pages of that
    document start in the output; without the bookmark option the outline
    stays empty. *)
Theorem merge_bookmarks_on_sources
    (page : Type) (env : MergeEnv page) (add_bookmarks : bool)
    (items : list PdfItem) (out : string) :
  let res := merge_run env add_bookmarks items out in
  outline_on_sources env (m_writer res)
  /\ (add_bookmarks = false -> w_outline (m_writer res) = []).
Proof.
  intros res. destruct items as [|x items].
  - split; [intros p i []|reflexivity].
  - assert (Hne : x :: items <> []) by discriminate.
    destruct (merge_run_unfold page env add_bookmarks (x :: items) out Hne)
      as (Ht & Hw & _).
    destruct (merge_loop_effect env add_bookmarks _ (x :: items) Ht m_init)
      as (_ & _ & _ & _ & _ & Hb & Hs).
    fold res in Hw. rewrite Hw. split.
    + apply Hs. intros p i [].
    + intros E. now rewrite (Hb E).
Qed.

(** X9. A run over a plan emits one progress value per item and one more
    for each encrypted document whose [decrypt("")] raises. *)
Theorem merge_progress_count
    (page : Type) (env : MergeEnv page) (add_bookmarks : bool)
    (items : list PdfItem) (out : string) :
  items <> [] ->
  List.length (progress_values (m_trace (merge_run env add_bookmarks items out)))
  = (List.length items + List.length (filter (encrypted_skip env) items))%nat.
Proof.
  intros Hne.
  destruct (merge_run_unfold page env add_bookmarks items out Hne)
    as (Ht & _ & Htr & _).
  destruct (merge_loop_effect env add_bookmarks _ items Ht m_init)
    as (_ & _ & Hl & _).
  rewrite Htr, progress_values_app, length_app, Hl.
  destruct (write_output env out); simpl; lia.
Qed.

Lemma merge_progress_count_witness :
  List.length
    (progress_values
       (m_trace (merge_run three_docs_env false
                   [item "a.pdf"; item "b.pdf"; item "c.pdf"] "out.pdf")))
  = 4%nat.
Proof.
  rewrite (merge_progress_count nat three_docs_env false
             [item "a.pdf"; item "b.pdf"; item "c.pdf"] "out.pdf")
    by discriminate.
  reflexivity.
Defined.

(** X10. Every merge run emits exactly one terminal signal, as its last
    signal; it is [finished_ok] with the output path exactly when the
    accumulated document has been written, and [finished_error] otherwise,
    with nothing recorded as written. *)
Theorem merge_run_ends_once
    (page : Type) (env : MergeEnv page) (add_bookmarks : bool)
    (items : list PdfItem) (out : string) :
  let res := merge_run env add_bookmarks items out in
  exists t,
    finished_with (m_trace res) t
    /\ ((t = FinishedOk out /\ m_output res = Some (m_writer res))
        \/ ((exists d, t = FinishedError d) /\ m_output res = None)).
Proof.
  intros res. destruct items as [|x items].
  - exists (FinishedError NoMergeItems). split.
    + exists []. repeat split.
    + right. split; [eauto|reflexivity].
  - assert (Hne : x :: items <> []) by discriminate.
    pose proof (merge_run_unfold page env add_bookmarks (x :: items) out Hne)
      as (Ht & Hw & Htr & Ho).
    destruct (merge_loop_effect env add_bookmarks _ (x :: items) Ht m_init)
      as (_ & _ & _ & Hr & Hout & _).
    fold res in Hw, Htr, Ho.
    destruct (write_output env out) as [e|] eqn:Hwo.
    + exists (FinishedError (Traceback e)). split.
      * eexists. split; [exact Htr|]. split; [now apply Hr|reflexivity].
      * right. split; [eauto|].
        unfold res, merge_run.
        destruct (merge_loop env add_bookmarks _ m_init (x :: items))
          as [s [e'|]] eqn:El; simpl in Hout |- *.
        -- exact Hout.
        -- rewrite Hwo. simpl. exact Hout.
    + exists (FinishedOk out). split.
      * eexists. split; [exact Htr|]. split; [now apply Hr|reflexivity].
      * left. split; [reflexivity|]. rewrite (Ho eq_refl), Hw. reflexivity.
Qed.

Lemma merge_progress_without_encrypted_skip_witness :
  progress_values
    (m_trace (merge_run three_docs_env true
                [item "a.pdf"; item "c.pdf"; item "d.pdf"] "out.pdf"))
  = [33; 66; 100].
Proof.
  destruct (merge_progress_without_encrypted_skip nat three_docs_env true
              [item "a.pdf"; item "c.pdf"; item "d.pdf"] "out.pdf")
    as (Hv & _).
  - discriminate.
  - simpl. lia.
  - intros y rd [<-|[<-|[<-|[]]]] Ho; inversion Ho; reflexivity.
  - rewrite Hv. vm_compute. reflexivity.
Defined.

(** ** Decimal texts read back *)

Lemma digits_step (acc : Z) (last_digit : bool) (c : ascii) (s : string) (d : Z) :
  PyStr.digit_val c = Some d ->
  PyStr.digits acc last_digit (String c s) = PyStr.digits (10 * acc + d) true s.
Proof. intros H. simpl. now rewrite H. Qed.

Lemma digits_of_uint_acc (u : Decimal.uint) :
  forall acc : positive,
    PyStr.digits (Zpos acc) true (NilEmpty.string_of_uint u)
    = Some (Zpos (Pos.of_uint_acc u acc)).
Proof.
  induction u; intros acc;
    cbn [NilEmpty.string_of_uint Pos.of_uint_acc]; [reflexivity|..];
    erewrite digits_step by reflexivity; rewrite <- IHu; f_equal;
    match goal with
    | |- 10 * _ + ?d = _ => let v := eval vm_compute in d in change d with v
    end; lia.
Qed.

Lemma digits_of_uint (u : Decimal.uint) (last_digit : bool) :
  last_digit = true \/ u <> Decimal.Nil ->
  PyStr.digits 0 last_digit (NilEmpty.string_of_uint u)
  = Some (Z.of_N (Pos.of_uint u)).
Proof.
  revert last_digit. induction u; intros ld H;
    cbn [NilEmpty.string_of_uint Pos.of_uint];
    try (erewrite digits_step by reflexivity; apply (digits_of_uint_acc u)).
  - destruct H as [->|H]; [reflexivity|congruence].
  - erewrite digits_step by reflexivity. apply IHu. now left.
Qed.

Lemma string_of_uint_digits (u : Decimal.uint) :
  all_chars is_digit (NilEmpty.string_of_uint u) = true.
Proof. induction u; simpl; auto. Qed.

Lemma digit_not_space (c : ascii) : is_digit c = true -> PyStr.isspace c = false.
Proof.
  unfold is_digit, PyStr.digit_val, PyStr.isspace.
  destruct ((48 <=? nat_of_ascii c)%nat && (nat_of_ascii c <=? 57)%nat) eqn:E;
    [|discriminate].
  intros _. apply andb_true_iff in E. destruct E as [E1 E2].
  apply Nat.leb_le in E1, E2.
  apply orb_false_iff. split; apply andb_false_iff.
  - right. apply Nat.leb_gt. lia.
  - right. apply Nat.leb_gt. lia.
Qed.

Lemma rstrip_no_space (s : string) :
  all_chars (fun c => negb (PyStr.isspace c)) s = true -> PyStr.rstrip s = s.
Proof.
  induction s as [|c s IH]; simpl; [reflexivity|].
  intros H. apply andb_true_iff in H. destruct H as [Hc Hs].
  rewrite (IH Hs). destruct s; [|reflexivity].
  apply negb_true_iff in Hc. now rewrite Hc.
Qed.

Lemma strip_no_space (s : string) :
  all_chars (fun c => negb (PyStr.isspace c)) s = true -> PyStr.strip s = s.
Proof.
  intros H. unfold PyStr.strip.
  assert (Hl : PyStr.lstrip s = s).
  { destruct s as [|c s]; [reflexivity|]. simpl in *.
    apply andb_true_iff in H. destruct H as [Hc _].
    apply negb_true_iff in Hc. now rewrite Hc. }
  rewrite Hl. now apply rstrip_no_space.
Qed.

Lemma all_chars_weaken (P Q : ascii -> bool) (s : string) :
  (forall c, P c = true -> Q c = true) ->
  all_chars P s = true -> all_chars Q s = true.
Proof.
  intros HPQ. induction s as [|c s IH]; simpl; [reflexivity|].
  intros H. apply andb_true_iff in H. destruct H as [Hc Hs].
  now rewrite (HPQ c Hc), (IH Hs).
Qed.

Lemma all_chars_app (P : ascii -> bool) (s t : string) :
  all_chars P (s ++ t) = all_chars P s && all_chars P t.
Proof.
  induction s as [|c s IH]; simpl; [reflexivity|].
  now rewrite IH, andb_assoc.
Qed.

Lemma int_unsigned_text (c : ascii) (r : string) :
  is_digit c = true ->
  all_chars is_digit r = true ->
  PyStr.int (String c r) = PyStr.digits 0 false (String c r).
Proof.
  intros Hc Hr. unfold PyStr.int.
  rewrite strip_no_space.
  2:{ apply (all_chars_weaken is_digit).
      - intros a Ha. now rewrite (digit_not_space a Ha).
      - simpl. now rewrite Hc, Hr. }
  destruct c as [[] [] [] [] [] [] [] []]; try reflexivity; discriminate.
Qed.

(** The decimal text of an integer that is not negative: digits only. *)
Lemma str_nonneg_digits (n : Z) :
  0 <= n ->
  all_chars is_digit (PyStr.str n) = true
  /\ PyStr.digits 0 false (PyStr.str n) = Some n
  /\ exists c r, PyStr.str n = String c r.
Proof.
  intros Hn. unfold PyStr.str.
  destruct n as [|p|p]; [|simpl|lia].
  { split; [reflexivity|]. split; [reflexivity|]. now exists "0"%char, EmptyString. }
  pose proof (DecimalPos.Unsigned.to_uint_nonnil p) as Hnil.
  pose proof (DecimalPos.Unsigned.of_to p) as Hof.
  unfold NilZero.string_of_uint.
  assert (E : match Pos.to_uint p with
              | Decimal.Nil => "0"
              | _ => NilEmpty.string_of_uint (Pos.to_uint p)
              end = NilEmpty.string_of_uint (Pos.to_uint p))
    by (destruct (Pos.to_uint p); congruence).
  rewrite E. split; [apply string_of_uint_digits|]. split.
  - rewrite digits_of_uint by now right. now rewrite Hof.
  - destruct (Pos.to_uint p); try congruence; simpl; eauto.
Qed.

(** [int(str(n)) == n] *)
Lemma int_str (n : Z) : PyStr.int (PyStr.str n) = Some n.
Proof.
  destruct (Z.lt_ge_cases n 0) as [Hneg|Hpos].
  - rewrite (str_negative n Hneg).
    destruct (str_nonneg_digits (- n) ltac:(lia)) as (Hd & Hv & c & r & E).
    unfold PyStr.int. rewrite strip_no_space.
    + rewrite Hv. simpl. f_equal. lia.
    + simpl. apply (all_chars_weaken is_digit); [|exact Hd].
      intros a Ha. now rewrite (digit_not_space a Ha).
  - destruct (str_nonneg_digits n Hpos) as (Hd & Hv & c & r & E).
    rewrite E in *. simpl in Hd. apply andb_true_iff in Hd.
    rewrite int_unsigned_text by apply Hd. exact Hv.
Qed.

(** ** Ranges that are printed parse back *)

Lemma split_first_absent (c : ascii) (s : string) :
  all_chars (fun a => negb (Ascii.eqb a c)) s = true ->
  forall t, PyStr.split_first c (s ++ String c t) = Some (s, t).
Proof.
  induction s as [|a s IH]; simpl; intros H t.
  - now rewrite Ascii.eqb_refl.
  - apply andb_true_iff in H. destruct H as [Ha Hs].
    apply negb_true_iff in Ha. rewrite Ha, (IH Hs). reflexivity.
Qed.

Lemma split_absent (c : ascii) (s : string) :
  all_chars (fun a => negb (Ascii.eqb a c)) s = true ->
  PyStr.split c s = [s]
  /\ forall t, PyStr.split c (s ++ String c t) = s :: PyStr.split c t.
Proof.
  induction s as [|a s IH]; simpl; intros H.
  - split; [reflexivity|]. intros t. now rewrite Ascii.eqb_refl.
  - apply andb_true_iff in H. destruct H as [Ha Hs].
    apply negb_true_iff in Ha. rewrite Ha.
    destruct (IH Hs) as [E1 E2]. split.
    + now rewrite E1.
    + intros t. now rewrite E2.
Qed.

Lemma split_join_comma (ts : list string) :
  ts <> [] ->
  Forall (fun t => all_chars (fun a => negb (Ascii.eqb a ",")) t = true) ts ->
  PyStr.split "," (join_comma ts) = ts.
Proof.
  induction ts as [|t ts IH]; [congruence|]. intros _ Hall.
  inversion Hall as [|? ? Ht Hts]; subst.
  destruct ts as [|t' ts'].
  - simpl. now apply split_absent.
  - change (join_comma (t :: t' :: ts'))
      with (t ++ String "," (join_comma (t' :: ts')))%string.
    destruct (split_absent "," t Ht) as [_ E]. rewrite E.
    f_equal. apply IH; [discriminate|assumption].
Qed.

Lemma range_text_chars (r : Z * Z) :
  0 <= fst r -> 0 <= snd r ->
  all_chars range_char (range_text r) = true.
Proof.
  intros H1 H2. unfold range_text. rewrite !all_chars_app.
  destruct (str_nonneg_digits _ H1) as (D1 & _).
  destruct (str_nonneg_digits _ H2) as (D2 & _).
  assert (Hw : forall c, is_digit c = true -> range_char c = true)
    by (intros c H; unfold range_char; now rewrite H).
  rewrite (all_chars_weaken is_digit range_char _ Hw D1).
  rewrite (all_chars_weaken is_digit range_char _ Hw D2).
  reflexivity.
Qed.

Lemma range_char_facts (a : ascii) :
  range_char a = true ->
  PyStr.isspace a = false /\ Ascii.eqb a "," = false.
Proof.
  unfold range_char. intros H. apply orb_true_iff in H. destruct H as [H|H].
  - split; [now apply digit_not_space|].
    unfold is_digit, PyStr.digit_val in H.
    destruct (Ascii.eqb_spec a ","); [subst; discriminate|reflexivity].
  - apply Ascii.eqb_eq in H. subst. split; reflexivity.
Qed.

Lemma digit_not_dash (a : ascii) :
  is_digit a = true -> negb (Ascii.eqb a "-") = true.
Proof.
  intros H. destruct (Ascii.eqb_spec a "-"); [subst; discriminate|reflexivity].
Qed.

Lemma parse_part_range_text (total : Z) (r : Z * Z) :
  in_bounds total r ->
  parse_part PyStr.strip PyStr.int total [] (range_text r) = [r].
Proof.
  intros [[H1 H2] H3]. destruct r as [s e]. simpl in *.
  unfold parse_part.
  assert (Hc : all_chars range_char (range_text (s, e)) = true)
    by (apply range_text_chars; simpl; lia).
  rewrite strip_no_space.
  2:{ apply (all_chars_weaken range_char); [|exact Hc].
      intros a Ha. now rewrite (proj1 (range_char_facts a Ha)). }
  destruct (str_nonneg_digits s ltac:(lia)) as (Ds & _ & cs & rs & Es).
  unfold range_text. simpl fst. simpl snd.
  assert (Hne : is_empty (PyStr.str s ++ "-" ++ PyStr.str e) = false)
    by (rewrite Es; reflexivity).
  rewrite Hne.
  change (PyStr.str s ++ "-" ++ PyStr.str e)%string
    with (PyStr.str s ++ String "-" (PyStr.str e))%string.
  rewrite split_first_absent
    by (apply (all_chars_weaken is_digit); [apply digit_not_dash|exact Ds]).
  rewrite !int_str. unfold clamp.
  rewrite (Z.min_r total s), (Z.min_r total e), !Z.max_r by lia.
  destruct (Z.gtb_spec s e); [lia|reflexivity].
Qed.

(** X12. A list of ranges within the document, printed as "s-e" fields
    joined by commas, parses back to that list: same ranges, same order,
    repeated and overlapping ones kept. *)
Theorem parse_ranges_of_printed (total : Z) (rs : list (Z * Z)) :
  Forall (in_bounds total) rs ->
  parse_ranges PyStr.strip PyStr.int (join_comma (map range_text rs)) total = rs.
Proof.
  intros Hall. destruct rs as [|r0 rs']; [reflexivity|].
  set (rs := r0 :: rs') in *.
  assert (Hchars : Forall (fun t => all_chars range_char t = true)
                     (map range_text rs)).
  { apply Forall_map. eapply Forall_impl; [|exact Hall].
    intros r [[H1 H2] H3]. apply range_text_chars; lia. }
  assert (Hsp : forall ts,
             Forall (fun t => all_chars range_char t = true) ts ->
             all_chars (fun c => negb (PyStr.isspace c)) (join_comma ts) = true).
  { induction ts as [|t ts IH]; intros Hts; [reflexivity|].
    inversion Hts as [|? ? Ht Hts']; subst.
    assert (Ht' : all_chars (fun c => negb (PyStr.isspace c)) t = true).
    { apply (all_chars_weaken range_char); [|exact Ht].
      intros a Ha. now rewrite (proj1 (range_char_facts a Ha)). }
    destruct ts as [|t' ts']; [exact Ht'|].
    change (join_comma (t :: t' :: ts'))
      with (t ++ String "," (join_comma (t' :: ts')))%string.
    rewrite all_chars_app, Ht'. simpl. apply IH. exact Hts'. }
  rewrite parse_ranges_flat_map. unfold tokens.
  rewrite strip_no_space by (apply Hsp; exact Hchars).
  assert (Hne : is_empty (join_comma (map range_text rs)) = false).
  { unfold rs. simpl map.
    destruct (str_nonneg_digits (fst r0)) as (_ & _ & c & r & E).
    { inversion Hall as [|? ? [[H1 _] _] _]; subst. lia. }
    unfold range_text at 1. rewrite E.
    destruct (map range_text rs'); reflexivity. }
  rewrite Hne, split_join_comma.
  - clear Hne Hchars. induction Hall as [|r l Hr Hl IH]; [reflexivity|].
    simpl. rewrite (parse_part_range_text total r Hr), IH. reflexivity.
  - discriminate.
  - eapply Forall_impl; [|exact Hchars]. intros t Ht.
    apply (all_chars_weaken range_char); [|exact Ht].
    intros a Ha. now rewrite (proj2 (range_char_facts a Ha)).
Qed.

Lemma parse_ranges_of_printed_witness :
  parse_ranges PyStr.strip PyStr.int "3-7,1-1,5-9" 10 = [(3, 7); (1, 1); (5, 9)].
Proof.
  apply (parse_ranges_of_printed 10 [(3, 7); (1, 1); (5, 9)]).
  repeat constructor; simpl; lia.
Defined.

(** ** The natural sort key *)

Lemma digits_defined (s : string) :
  all_chars is_digit s = true ->
  forall acc last_digit,
    last_digit = true \/ s <> EmptyString ->
    exists n, PyStr.digits acc last_digit s = Some n.
Proof.
  induction s as [|c s IH]; intros Hs acc ld H.
  - destruct H as [->|H]; [now exists acc|congruence].
  - simpl in Hs. apply andb_true_iff in Hs. destruct Hs as [Hc Hs].
    unfold is_digit in Hc. simpl.
    destruct (PyStr.digit_val c) as [d|]; [|discriminate].
    apply IH; [exact Hs|now left].
Qed.

Lemma digit_runs_cons (c : ascii) (r : string) :
  exists t ts,
    digit_runs (String c r) = String c t :: ts
    /\ (forall d t' ts', digit_runs r = String d t' :: ts' ->
        (Bool.eqb (is_digit c) (is_digit d) = true
         /\ t = String d t' /\ ts = ts')
        \/ (Bool.eqb (is_digit c) (is_digit d) = false
            /\ t = EmptyString /\ ts = String d t' :: ts')).
Proof.
  simpl. destruct (digit_runs r) as [|[|d t'] ts'].
  - exists EmptyString, []. split; [reflexivity|]. intros; discriminate.
  - exists EmptyString, []. split; [reflexivity|]. intros; discriminate.
  - destruct (Bool.eqb (is_digit c) (is_digit d)) eqn:E.
    + exists (String d t'), ts'. split; [reflexivity|].
      intros d0 t0 ts0 [= <- <- <-]. now left.
    + exists EmptyString, (String d t' :: ts'). split; [reflexivity|].
      intros d0 t0 ts0 [= <- <- <-]. now right.
Qed.

Lemma digit_runs_are_runs (s : string) :
  Forall (fun t => exists digit, run_of digit t) (digit_runs s).
Proof.
  induction s as [|c r IH]; simpl; [constructor|].
  destruct (digit_runs r) as [|[|d t'] ts'].
  - repeat constructor. exists (is_digit c). split; [discriminate|].
    simpl. now rewrite Bool.eqb_reflx.
  - repeat constructor. exists (is_digit c). split; [discriminate|].
    simpl. now rewrite Bool.eqb_reflx.
  - inversion IH as [|? ? [dg [Hne Hu]] Hrest]; subst.
    destruct (Bool.eqb (is_digit c) (is_digit d)) eqn:E.
    + constructor; [|exact Hrest]. exists dg. split; [discriminate|].
      simpl in Hu |- *. apply andb_true_iff in Hu. destruct Hu as [Hd Ht].
      apply Bool.eqb_prop in E. rewrite E, Hd, Ht. reflexivity.
    + constructor; [|constructor; [|exact Hrest]].
      * exists (is_digit c). split; [discriminate|].
        simpl. now rewrite Bool.eqb_reflx.
      * exists dg. now split.
Qed.

Lemma run_isdigit (digit : bool) (t : string) :
  run_of digit t -> py_isdigit t = digit.
Proof.
  intros [Hne Hu]. destruct t as [|c r]; [congruence|].
  unfold py_isdigit. destruct digit.
  - apply (all_chars_weaken _ is_digit) in Hu; [exact Hu|].
    intros a Ha. now apply Bool.eqb_prop in Ha.
  - simpl in Hu |- *. apply andb_true_iff in Hu. destruct Hu as [Hc _].
    apply Bool.eqb_prop in Hc. now rewrite Hc.
Qed.

Lemma key_of_runs_defined (ts : list string) :
  Forall (fun t => exists digit, run_of digit t) ts ->
  exists ks, key_of_runs ts = Some ks.
Proof.
  induction ts as [|t ts IH]; intros H; [now exists []|].
  inversion H as [|? ? [dg Hr] Hts]; subst.
  destruct (IH Hts) as [ks Hks]. simpl. rewrite Hks.
  rewrite (run_isdigit dg t Hr). destruct dg.
  - destruct Hr as [Hne Hu]. destruct t as [|c r]; [congruence|].
    assert (Hd : all_chars is_digit (String c r) = true).
    { apply (all_chars_weaken _ is_digit) in Hu; [exact Hu|].
      intros a Ha. now apply Bool.eqb_prop in Ha. }
    simpl in Hd. apply andb_true_iff in Hd.
    rewrite int_unsigned_text by apply Hd.
    destruct (digits_defined (String c r)) with (acc := 0) (last_digit := false)
      as [n Hn].
    + simpl. now rewrite (proj1 Hd), (proj2 Hd).
    + right. discriminate.
    + rewrite Hn. simpl. eauto.
  - eauto.
Qed.

(** [natural_key] returns a key on every ASCII text. *)
Lemma natural_key_defined (s : string) : exists ks, natural_key s = Some ks.
Proof. apply key_of_runs_defined, digit_runs_are_runs. Qed.

Lemma natural_key_head (c : ascii) (r : string) :
  exists k ks,
    natural_key (String c r) = Some (k :: ks)
    /\ (if is_digit c then exists n, k = KInt n else exists t, k = KStr t).
Proof.
  destruct (natural_key_defined (String c r)) as [ks Hks].
  pose proof (digit_runs_are_runs (String c r)) as Hruns.
  unfold natural_key in *.
  destruct (digit_runs_cons c r) as (t & ts & E & _).
  rewrite E in *. inversion Hruns as [|? ? [dg Hr] _]; subst.
  assert (Hdg : dg = is_digit c).
  { destruct Hr as [_ Hu]. simpl in Hu. apply andb_true_iff in Hu.
    destruct Hu as [Hc _]. apply Bool.eqb_prop in Hc. congruence. }
  subst dg. pose proof (run_isdigit _ _ Hr) as Hd.
  cbn [key_of_runs] in Hks |- *. rewrite Hd in Hks |- *.
  destruct (is_digit c).
  - destruct (PyStr.int (String c t)) as [n|]; [|discriminate].
    cbn [option_map] in Hks |- *.
    destruct (key_of_runs ts) as [ks'|]; [|discriminate].
    do 2 eexists. split; [reflexivity|eauto].
  - destruct (key_of_runs ts) as [ks'|]; [|discriminate].
    do 2 eexists. split; [reflexivity|eauto].
Qed.

(** X13. The comparison that the name sort relies on fails between a name
    that starts with a digit and a name that starts with another character:
    both keys exist, and comparing them either way raises the [TypeError]
    of an integer against a text. *)
Theorem natural_key_mixed_heads_type_error
    (c1 c2 : ascii) (r1 r2 : string) :
  is_digit c1 = true -> is_digit c2 = false ->
  (exists k1 k2,
      natural_key (String c1 r1) = Some k1
      /\ natural_key (String c2 r2) = Some k2)
  /\ natural_lt (String c1 r1) (String c2 r2) = None
  /\ natural_lt (String c2 r2) (String c1 r1) = None.
Proof.
  intros H1 H2.
  destruct (natural_key_head c1 r1) as (k1 & ks1 & E1 & T1).
  destruct (natural_key_head c2 r2) as (k2 & ks2 & E2 & T2).
  rewrite H1 in T1. rewrite H2 in T2.
  destruct T1 as [n ->]. destruct T2 as [t ->].
  unfold natural_lt. rewrite E1, E2. repeat split; eauto.
Qed.

Lemma natural_key_mixed_heads_type_error_witness :
  natural_lt "10.pdf" "a.pdf" = None.
Proof.
  apply (natural_key_mixed_heads_type_error "1" "a" "0.pdf" ".pdf");
    reflexivity.
Defined.

Lemma digit_runs_eq (c : ascii) (r : string) :
  digit_runs (String c r) =
  match digit_runs r with
  | String d t :: ts =>
      if Bool.eqb (is_digit c) (is_digit d)
      then String c (String d t) :: ts
      else String c EmptyString :: String d t :: ts
  | _ => [String c EmptyString]
  end.
Proof. reflexivity. Qed.

Lemma digit_runs_app (digit : bool) (s : string) :
  run_of digit s ->
  forall d t ts rest,
    is_digit d = negb digit ->
    digit_runs rest = String d t :: ts ->
    digit_runs (s ++ rest) = s :: String d t :: ts.
Proof.
  intros [Hne Hu] d t ts rest Hd Hrest.
  induction s as [|c s IH]; [congruence|].
  simpl in Hu. apply andb_true_iff in Hu. destruct Hu as [Hc Hs].
  apply Bool.eqb_prop in Hc.
  change ((String c s ++ rest)%string) with (String c (s ++ rest)%string).
  rewrite digit_runs_eq.
  destruct s as [|c' s'].
  - cbn [append]. rewrite Hrest, Hc, Hd. now destruct digit.
  - rewrite IH by (discriminate || exact Hs).
    simpl in Hs. apply andb_true_iff in Hs. destruct Hs as [Hc' _].
    apply Bool.eqb_prop in Hc'. rewrite Hc, Hc'. now destruct digit.
Qed.

Lemma digit_runs_single (digit : bool) (s : string) :
  run_of digit s -> digit_runs s = [s].
Proof.
  intros [Hne Hu]. induction s as [|c s IH]; [congruence|].
  simpl in Hu. apply andb_true_iff in Hu. destruct Hu as [Hc Hs].
  apply Bool.eqb_prop in Hc.
  destruct s as [|c' s']; [reflexivity|].
  rewrite digit_runs_eq, IH by (discriminate || exact Hs).
  simpl in Hs. apply andb_true_iff in Hs. destruct Hs as [Hc' _].
  apply Bool.eqb_prop in Hc'. rewrite Hc, Hc'. now destruct digit.
Qed.

Lemma append_empty_r (s : string) : (s ++ "")%string = s.
Proof. induction s as [|c s IH]; simpl; congruence. Qed.

Lemma digit_free_run (s : string) :
  digit_free s = true -> s <> EmptyString -> run_of false s.
Proof.
  intros H Hne. split; [exact Hne|].
  revert H. apply all_chars_weaken.
  intros c Hc. now destruct (is_digit c).
Qed.

Lemma digits_run (s : string) :
  all_chars is_digit s = true -> s <> EmptyString -> run_of true s.
Proof.
  intros H Hne. split; [exact Hne|].
  revert H. apply all_chars_weaken.
  intros c Hc. now rewrite Hc.
Qed.

(** The runs of a name made of a text, a number and a text. *)
Lemma digit_runs_numbered (p d q : string) :
  digit_free p = true -> digit_free q = true ->
  all_chars is_digit d = true -> d <> EmptyString ->
  digit_runs (p ++ d ++ q) = whole_run p ++ d :: whole_run q.
Proof.
  intros Hp Hq Hd Hne.
  assert (Htail : digit_runs (d ++ q) = d :: whole_run q).
  { destruct q as [|c t].
    - rewrite append_empty_r. apply (digit_runs_single true).
      now apply digits_run.
    - apply (digit_runs_app true); [now apply digits_run| |].
      + simpl in Hq. apply andb_true_iff in Hq.
        now destruct (is_digit c), Hq.
      + apply (digit_runs_single false). now apply digit_free_run. }
  destruct p as [|c t]; [exact Htail|].
  destruct d as [|dd dt]; [congruence|].
  apply (digit_runs_app false).
  - now apply digit_free_run.
  - simpl in Hd. now apply andb_true_iff in Hd.
  - exact Htail.
Qed.

Lemma key_of_runs_app (ts us : list string) (ks ls : list key_token) :
  key_of_runs ts = Some ks -> key_of_runs us = Some ls ->
  key_of_runs (ts ++ us) = Some (ks ++ ls).
Proof.
  revert ks. induction ts as [|t ts IH]; intros ks Hts Hus.
  - injection Hts as <-. exact Hus.
  - cbn [key_of_runs app] in Hts |- *.
    destruct (if py_isdigit t then option_map KInt (PyStr.int t)
              else Some (KStr (py_lower t))) as [k|]; [|discriminate].
    destruct (key_of_runs ts) as [ks'|] eqn:E; [|discriminate].
    injection Hts as <-. now rewrite (IH ks' eq_refl Hus).
Qed.

Lemma key_of_whole_run (s : string) :
  digit_free s = true ->
  key_of_runs (whole_run s) = Some (map (fun t => KStr (py_lower t)) (whole_run s)).
Proof.
  intros H. destruct s as [|c t]; [reflexivity|].
  cbn [whole_run key_of_runs map].
  now rewrite (run_isdigit false _ (digit_free_run _ H ltac:(discriminate))).
Qed.

Lemma token_eqb_refl (x : key_token) : token_eqb x x = true.
Proof. destruct x; simpl; [apply Z.eqb_refl|apply String.eqb_refl]. Qed.

Lemma key_lt_irrefl (ks : list key_token) : key_lt ks ks = Some false.
Proof.
  induction ks as [|k ks IH]; [reflexivity|].
  simpl. now rewrite token_eqb_refl.
Qed.

Lemma key_lt_common_prefix (ps a b : list key_token) :
  key_lt (ps ++ a) (ps ++ b) = key_lt a b.
Proof.
  induction ps as [|k ps IH]; [reflexivity|].
  simpl. now rewrite token_eqb_refl.
Qed.

(** X14. Two names that differ only in a number are ordered by the value of
    that number, not by its text: with the same digit-free text before and
    after, the comparison of the keys is the comparison of the two
    integers, whatever their number of digits or leading zeros. *)
Theorem natural_key_orders_by_number (p q d1 d2 : string) (a b : Z) :
  digit_free p = true -> digit_free q = true ->
  all_chars is_digit d1 = true -> d1 <> EmptyString ->
  all_chars is_digit d2 = true -> d2 <> EmptyString ->
  PyStr.int d1 = Some a -> PyStr.int d2 = Some b ->
  natural_lt (p ++ d1 ++ q) (p ++ d2 ++ q) = Some (a <? b).
Proof.
  intros Hp Hq Hd1 Hn1 Hd2 Hn2 Ha Hb.
  assert (Hkey : forall d n,
    all_chars is_digit d = true -> d <> EmptyString -> PyStr.int d = Some n ->
    natural_key (p ++ d ++ q) =
    Some (map (fun t => KStr (py_lower t)) (whole_run p)
          ++ KInt n :: map (fun t => KStr (py_lower t)) (whole_run q))).
  { intros d n Hd Hn Hv. unfold natural_key.
    rewrite (digit_runs_numbered p d q Hp Hq Hd Hn).
    apply key_of_runs_app; [now apply key_of_whole_run|].
    cbn [key_of_runs]. rewrite (run_isdigit true d (digits_run d Hd Hn)), Hv.
    cbn [option_map]. now rewrite (key_of_whole_run q Hq). }
  unfold natural_lt.
  rewrite (Hkey d1 a Hd1 Hn1 Ha), (Hkey d2 b Hd2 Hn2 Hb).
  rewrite key_lt_common_prefix. cbn [key_lt token_eqb token_lt].
  destruct (a =? b) eqn:E.
  - apply Z.eqb_eq in E. subst b. now rewrite key_lt_irrefl, Z.ltb_irrefl.
  - reflexivity.
Qed.

Lemma natural_key_orders_by_number_witness :
  natural_lt "file2.pdf" "file10.pdf" = Some true
  /\ String.ltb "file2.pdf" "file10.pdf" = false
  /\ natural_lt "scan007" "scan7" = Some false.
Proof.
  split; [|split].
  - apply (natural_key_orders_by_number "file" ".pdf" "2" "10" 2 10);
      reflexivity || discriminate.
  - reflexivity.
  - apply (natural_key_orders_by_number "scan" "" "007" "7" 7 7);
      reflexivity || discriminate.
Defined.

(** ** The page list of the edit tab *)

Lemma insert_row_In (r x : nat) (rows : list nat) :
  In x (insert_row r rows) <-> x = r \/ In x rows.
Proof.
  induction rows as [|y rows IH]; simpl; [intuition|].
  destruct (Nat.ltb_spec r y); [simpl; intuition|].
  destruct (Nat.eqb_spec r y); simpl; [subst; intuition|].
  rewrite IH. intuition.
Qed.

Lemma sorted_rows_In (x : nat) (selected : list nat) :
  In x (sorted_rows selected) <-> In x selected.
Proof.
  induction selected as [|r sel IH]; simpl; [reflexivity|].
  rewrite insert_row_In, IH. intuition.
Qed.

Lemma insert_row_sorted (r : nat) (rows : list nat) :
  StronglySorted lt rows -> StronglySorted lt (insert_row r rows).
Proof.
  induction 1 as [|y rows Hs IH Hy]; simpl; [repeat constructor|].
  destruct (Nat.ltb_spec r y) as [Hlt|Hge].
  - constructor; [now constructor|].
    constructor; [exact Hlt|].
    rewrite Forall_forall in *. intros z Hz. specialize (Hy z Hz). lia.
  - destruct (Nat.eqb_spec r y) as [->|Hne]; [now constructor|].
    constructor; [exact IH|].
    rewrite Forall_forall in *. intros z Hz.
    apply insert_row_In in Hz. destruct Hz as [->|Hz]; [lia|auto].
Qed.

Lemma sorted_rows_sorted (selected : list nat) :
  StronglySorted lt (sorted_rows selected).
Proof.
  induction selected as [|r sel IH]; simpl; [constructor|].
  now apply insert_row_sorted.
Qed.

Lemma sorted_snoc (rows : list nat) (r : nat) :
  StronglySorted lt (rows ++ [r]) ->
  StronglySorted lt rows /\ forall x, In x rows -> (x < r)%nat.
Proof.
  induction rows as [|y rows IH]; simpl; intros H.
  - split; [constructor|intros x []].
  - inversion H as [|? ? Hs Hy]; subst. destruct (IH Hs) as [Hs' Hlt].
    rewrite Forall_forall in Hy. split.
    + constructor; [exact Hs'|]. rewrite Forall_forall. intros z Hz.
      apply Hy, in_or_app. now left.
    + intros x [<-|Hx]; [|auto]. apply Hy, in_or_app. right. now left.
Qed.

Lemma selected_row_spec (selected : list nat) (i : nat) :
  selected_row selected i = true <-> In i selected.
Proof.
  unfold selected_row. rewrite existsb_exists. split.
  - intros (x & Hx & E). apply Nat.eqb_eq in E. now subst.
  - intros H. exists i. split; [exact H|apply Nat.eqb_refl].
Qed.

Lemma keep_rows_app (A : Type) (keep : nat -> bool) (xs ys : list A) (i : nat) :
  keep_rows i keep (xs ++ ys)
  = keep_rows i keep xs ++ keep_rows (i + List.length xs) keep ys.
Proof.
  revert i. induction xs as [|x xs IH]; intros i; simpl.
  - now rewrite Nat.add_0_r.
  - rewrite IH, <- plus_n_Sm. now destruct (keep i).
Qed.

Lemma keep_rows_ext (A : Type) (f g : nat -> bool) (xs : list A) (i : nat) :
  (forall j, (i <= j < i + List.length xs)%nat -> f j = g j) ->
  keep_rows i f xs = keep_rows i g xs.
Proof.
  revert i. induction xs as [|x xs IH]; intros i H; simpl; [reflexivity|].
  rewrite (H i) by (simpl; lia).
  rewrite (IH (S i)); [reflexivity|].
  intros j Hj. apply H. simpl. lia.
Qed.

Lemma keep_rows_all (A : Type) (f : nat -> bool) (xs : list A) (i : nat) :
  (forall j, (i <= j)%nat -> f j = true) -> keep_rows i f xs = xs.
Proof.
  revert i. induction xs as [|x xs IH]; intros i H; simpl; [reflexivity|].
  rewrite (H i) by lia. f_equal. apply IH. intros j Hj. apply H. lia.
Qed.

(** Popping the selected rows from the last to the first removes exactly
    the elements of these rows. *)
Lemma pop_rows_descending (A : Type) (rows : list nat) :
  StronglySorted lt rows ->
  forall xs : list A,
    (forall r, In r rows -> (r < List.length xs)%nat) ->
    pop_rows (rev rows) xs
    = Some (keep_rows 0 (fun i => negb (selected_row rows i)) xs).
Proof.
  induction rows as [|r rows IH] using rev_ind; intros Hs xs Hlen.
  - simpl. now rewrite keep_rows_all.
  - destruct (sorted_snoc rows r Hs) as [Hs' Hlt].
    rewrite rev_app_distr. simpl rev. simpl app. cbn [pop_rows].
    assert (Hr : (r < List.length xs)%nat).
    { apply Hlen, in_or_app. right. now left. }
    unfold py_pop. destruct (Nat.ltb_spec r (List.length xs)) as [_|]; [|lia].
    rewrite (IH Hs').
    2:{ intros x Hx. specialize (Hlt x Hx).
        rewrite length_app, length_firstn, length_skipn. lia. }
    f_equal.
    rewrite <- (firstn_skipn r xs) at 3.
    destruct (skipn r xs) as [|x rest] eqn:Esk.
    { apply (f_equal (@List.length A)) in Esk.
      rewrite length_skipn in Esk. simpl in Esk. lia. }
    assert (Erest : skipn (S r) xs = rest).
    { replace (S r) with (1 + r)%nat by lia.
      rewrite <- skipn_skipn, Esk. reflexivity. }
    rewrite Erest, !keep_rows_app, length_firstn.
    replace (0 + Nat.min r (List.length xs))%nat with r by lia.
    f_equal.
    + apply keep_rows_ext. intros j Hj. rewrite length_firstn in Hj.
      f_equal. apply eq_true_iff_eq. rewrite !selected_row_spec, in_app_iff.
      simpl. split; [tauto|]. intros [H|[H|[]]]; [exact H|lia].
    + cbn [keep_rows].
      assert (Hin : selected_row (rows ++ [r]) r = true).
      { apply selected_row_spec, in_or_app. right. now left. }
      rewrite Hin. simpl negb. cbv iota.
      rewrite !keep_rows_all; [reflexivity| |].
      * intros j Hj. apply negb_true_iff.
        destruct (selected_row (rows ++ [r]) j) eqn:E; [|reflexivity].
        apply selected_row_spec, in_app_iff in E.
        destruct E as [E|[E|[]]]; [specialize (Hlt j E)|]; lia.
      * intros j Hj. apply negb_true_iff.
        destruct (selected_row rows j) eqn:E; [|reflexivity].
        apply selected_row_spec in E. specialize (Hlt j E). lia.
Qed.

Lemma sorted_rows_head (selected : list nat) (m : nat) :
  In m selected -> (forall r, In r selected -> (m <= r)%nat) ->
  exists rest, sorted_rows selected = m :: rest.
Proof.
  intros Hm Hmin.
  pose proof (sorted_rows_sorted selected) as Hs.
  pose proof (proj2 (sorted_rows_In m selected) Hm) as Hin.
  destruct (sorted_rows selected) as [|h rest] eqn:E; [destruct Hin|].
  exists rest. f_equal.
  assert (Hh : In h selected).
  { apply sorted_rows_In. rewrite E. now left. }
  specialize (Hmin h Hh).
  destruct Hin as [->|Hin]; [reflexivity|].
  inversion Hs as [|? ? _ Hall]; subst.
  rewrite Forall_forall in Hall. specialize (Hall m Hin). lia.
Qed.

(** The page list and the current row after a deletion. *)
Lemma delete_pages_result
    (A : Type) (selected : list nat) (pages : list A) (m : nat) :
  In m selected ->
  (forall r, In r selected -> (m <= r < List.length pages)%nat) ->
  let kept := keep_rows 0 (fun i => negb (selected_row selected i)) pages in
  on_edit_delete_pages selected pages
  = Edited kept
      (Some (match kept with
             | [] => -1
             | _ => Z.min (Z.of_nat m) (Z.of_nat (List.length kept) - 1)
             end)).
Proof.
  intros Hm Hsel kept.
  destruct (sorted_rows_head selected m Hm (fun r Hr => proj1 (Hsel r Hr)))
    as [rest E].
  assert (Hpop :
    pop_rows (rev (sorted_rows selected)) pages
    = Some (keep_rows 0 (fun i => negb (selected_row (sorted_rows selected) i))
              pages)).
  { apply pop_rows_descending; [apply sorted_rows_sorted|].
    intros r Hr. apply Hsel. now apply (proj1 (sorted_rows_In r selected)). }
  assert (Hk :
    keep_rows 0 (fun i => negb (selected_row (sorted_rows selected) i)) pages
    = kept).
  { apply keep_rows_ext. intros j _. f_equal. apply eq_true_iff_eq.
    now rewrite !selected_row_spec, sorted_rows_In. }
  rewrite Hk in Hpop.
  assert (Hlast : last (rev (sorted_rows selected)) 0%nat = m).
  { rewrite E. simpl rev. apply last_last. }
  unfold on_edit_delete_pages. rewrite Hpop, Hlast. fold kept.
  destruct pages as [|p0 ps].
  { specialize (Hsel m Hm). simpl in Hsel. lia. }
  destruct (rev (sorted_rows selected)) as [|r0 rs] eqn:Erev; [|reflexivity].
  apply (f_equal (@List.length nat)) in Erev.
  rewrite length_rev, E in Erev. discriminate.
Qed.

(** X15. Deleting the selected pages keeps exactly the pages of the rows
    that are not selected, in their order, whatever the order in which the
    rows were selected; the row made current afterwards is the smallest
    selected row, or the last row when that one is gone, or -1 when no page
    is left. *)
Theorem on_edit_delete_pages_keeps_unselected
    (A : Type) (selected : list nat) (pages : list A) (m : nat) :
  In m selected ->
  (forall r, In r selected -> (m <= r < List.length pages)%nat) ->
  let kept := keep_rows 0 (fun i => negb (selected_row selected i)) pages in
  on_edit_delete_pages selected pages
  = Edited kept
      (Some (match kept with
             | [] => -1
             | _ => Z.min (Z.of_nat m) (Z.of_nat (List.length kept) - 1)
             end)).
Proof. exact (delete_pages_result A selected pages m). Qed.

Lemma on_edit_delete_pages_keeps_unselected_witness :
  on_edit_delete_pages [3; 1; 3]%nat ["a"; "b"; "c"; "d"; "e"]
  = Edited ["a"; "c"; "e"] (Some 1).
Proof.
  apply (on_edit_delete_pages_keeps_unselected string [3; 1; 3]%nat
           ["a"; "b"; "c"; "d"; "e"] 1%nat).
  - simpl. tauto.
  - simpl. intros r [<-|[<-|[<-|[]]]]; lia.
Defined.

(** X16. A duplicated page is a second reference to the same page object,
    not a copy of it: after duplicating row [r], rotating only the new last
    row rotates what row [r] shows by the same angle, and rotating both
    rows in one selection rotates the page twice. *)
Theorem duplicate_shares_page_object
    (P : Type) (api : PageAPI P) (s s1 : EditSession P) (r ref : nat) (d : Z) :
  rotation_laws api ->
  d mod 90 = 0 ->
  nth_error (_edit_pages s) r = Some ref ->
  duplicate_in_session [r] s = Some s1 ->
  let n := List.length (_edit_pages s) in
  _edit_pages s1 = _edit_pages s ++ [ref]
  /\ (forall s2,
        on_edit_rotate api [n] d s1 = Some s2 ->
        nth_error (_edit_pages s2) r = Some ref
        /\ nth_error (_edit_pages s2) n = Some ref
        /\ rotation api (objects s2 ref) mod 360
           = (rotation api (objects s ref) + d) mod 360)
  /\ (forall s2,
        on_edit_rotate api [r; n] d s1 = Some s2 ->
        rotation api (objects s2 ref) mod 360
        = (rotation api (objects s ref) + 2 * d) mod 360).
Proof.
  intros laws Hd Hr Hdup n.
  assert (Hs1 : s1 = {| objects := objects s;
                        _edit_pages := _edit_pages s ++ [ref] |}).
  { unfold duplicate_in_session, on_edit_duplicate_pages in Hdup.
    destruct (_edit_pages s) as [|p0 ps] eqn:Ep; [now destruct r|].
    cbn [sorted_rows fold_right insert_row rows_of] in Hdup.
    rewrite Hr in Hdup. now injection Hdup as <-. }
  subst s1. cbn [_edit_pages objects].
  assert (Hrow : nth_error (_edit_pages s ++ [ref]) r = Some ref).
  { rewrite nth_error_app1; [exact Hr|]. apply nth_error_Some. congruence. }
  assert (Hnew : nth_error (_edit_pages s ++ [ref]) n = Some ref).
  { unfold n. rewrite nth_error_app2, Nat.sub_diag by lia. reflexivity. }
  split; [reflexivity|]. split.
  - intros s2 Hrot.
    destruct (on_edit_rotate_adds P api laws [n] d _ s2 Hd Hrot) as [Hp Hobj].
    cbn [_edit_pages objects] in Hp, Hobj. rewrite Hp.
    repeat split; [exact Hrow|exact Hnew|].
    rewrite (Hobj ref). cbn [hits]. rewrite Hnew, Nat.eqb_refl.
    f_equal. lia.
  - intros s2 Hrot.
    destruct (on_edit_rotate_adds P api laws [r; n] d _ s2 Hd Hrot)
      as [Hp Hobj].
    cbn [_edit_pages objects] in Hobj.
    rewrite (Hobj ref). cbn [hits]. rewrite Hrow, Hnew, Nat.eqb_refl.
    f_equal. lia.
Qed.

Lemma duplicate_shares_page_object_witness :
  duplicate_in_session [1%nat]
    {| objects := fun _ => 0; _edit_pages := [10; 11; 12]%nat |}
  = Some {| objects := fun _ => 0; _edit_pages := [10; 11; 12; 11]%nat |}
  /\ match on_edit_rotate stored_rotation_api [3%nat] 90
             {| objects := fun _ => 0; _edit_pages := [10; 11; 12; 11]%nat |}
     with
     | Some s2 =>
         nth_error (_edit_pages s2) 1 = Some 11%nat
         /\ rotation stored_rotation_api (objects s2 11%nat) mod 360 = 90
     | None => False
     end.
Proof.
  split; [reflexivity|].
  destruct (on_edit_rotate stored_rotation_api [3%nat] 90
              {| objects := fun _ => 0; _edit_pages := [10; 11; 12; 11]%nat |})
    as [s2|] eqn:E; [|discriminate E].
  destruct (duplicate_shares_page_object Z stored_rotation_api
              {| objects := fun _ => 0; _edit_pages := [10; 11; 12]%nat |}
              {| objects := fun _ => 0; _edit_pages := [10; 11; 12; 11]%nat |}
              1%nat 11%nat 90 stored_rotation_laws eq_refl eq_refl eq_refl)
    as (_ & H & _).
  destruct (H s2 E) as (H1 & _ & H3). split; [exact H1|exact H3].
Defined.

Lemma insert_each_splice (A : Type) (new xs : list A) :
  forall pos, (pos <= List.length xs)%nat ->
    insert_each pos new xs = firstn pos xs ++ new ++ skipn pos xs.
Proof.
  revert xs. induction new as [|pg new IH]; intros xs pos Hpos; simpl.
  - symmetry. apply firstn_skipn.
  - unfold py_insert.
    assert (Hl : List.length (firstn pos xs) = pos).
    { rewrite length_firstn. lia. }
    remember (firstn pos xs) as front. remember (skipn pos xs) as back.
    rewrite IH by (rewrite length_app, Hl; simpl; lia).
    assert (Hf : firstn (S pos) (front ++ pg :: back) = front ++ [pg]).
    { rewrite firstn_app, Hl, firstn_all2 by lia.
      replace (S pos - pos)%nat with 1%nat by lia. reflexivity. }
    assert (Hb : skipn (S pos) (front ++ pg :: back) = back).
    { rewrite skipn_app, Hl, skipn_all2 by lia.
      replace (S pos - pos)%nat with 1%nat by lia. reflexivity. }
    rewrite Hf, Hb, <- app_assoc. reflexivity.
Qed.

Lemma insert_each_past_end (A : Type) (new xs : list A) :
  forall pos, (List.length xs <= pos)%nat -> insert_each pos new xs = xs ++ new.
Proof.
  revert xs. induction new as [|pg new IH]; intros xs pos Hpos; simpl.
  - now rewrite app_nil_r.
  - unfold py_insert. rewrite firstn_all2, skipn_all2 by lia.
    rewrite IH by (rewrite length_app; simpl; lia).
    now rewrite <- app_assoc.
Qed.

Lemma pages_of_ranges_in_bounds (A : Type) (src : list A) (rs : list (Z * Z)) :
  Forall (in_bounds (Z.of_nat (List.length src))) rs ->
  pages_of_ranges src rs
  = Some (flat_map (fun se => span_pages src (fst se) (snd se)) rs).
Proof.
  induction 1 as [|[s e] rs [Hse He] _ IH]; [reflexivity|].
  simpl in Hse, He. cbn [pages_of_ranges flat_map fst snd].
  rewrite collect_pages_span by lia. now rewrite IH.
Qed.

Lemma parse_ranges_blank (py_strip : string -> string)
    (py_int : string -> option Z) (text : string) (total : Z) :
  is_empty (py_strip text) = true ->
  parse_ranges py_strip py_int text total = [].
Proof.
  intros H. rewrite parse_ranges_flat_map. unfold tokens. now rewrite H.
Qed.

(** X17. Inserting pages of another document, for every [str.strip] and
    [int]: when the chosen file can be read and has pages and the text
    yields ranges, the pages of the ranges, in the order of the text (a page
    named twice comes twice), are put in front of the current row, the
    pages before and after keeping their order, and the cursor stays on
    that row; with no current row they are put at the front. The page list
    may be empty: the operation does not ask for a loaded document. *)
Theorem on_edit_insert_pages_splices
    (A : Type) (py_strip : string -> string) (py_int : string -> option Z)
    (inp : InsertInput A) (pages_before : list A) (r : Reader A)
    (rs : list (Z * Z)) :
  chosen_path inp <> EmptyString ->
  chosen_reader inp = inr r ->
  readable r ->
  pages r <> [] ->
  ranges_ok inp = true ->
  (current_row inp < Z.of_nat (List.length pages_before)
   \/ pages_before = []) ->
  parse_ranges py_strip py_int (ranges_input inp)
    (Z.of_nat (List.length (pages r))) = rs ->
  rs <> [] ->
  let pos := Z.to_nat (current_row inp) in
  on_edit_insert_pages py_strip py_int inp pages_before
  = Edited (firstn pos pages_before
            ++ flat_map (fun se => span_pages (pages r) (fst se) (snd se)) rs
            ++ skipn pos pages_before)
      (Some (Z.of_nat pos)).
Proof.
  intros Hpath Hopen [Henc Hpr] Hne Hok Hrow Hparse Hrs pos.
  unfold on_edit_insert_pages.
  assert (Hp : is_empty (chosen_path inp) = false).
  { destruct (chosen_path inp); [congruence|reflexivity]. }
  rewrite Hp, Hopen, Henc, Hpr, Hok. cbn [negb orb].
  destruct (is_empty (py_strip (ranges_input inp))) eqn:Eblank.
  { exfalso. apply Hrs. rewrite <- Hparse. now apply parse_ranges_blank. }
  assert (Hin : Forall (in_bounds (Z.of_nat (List.length (pages r)))) rs).
  { rewrite <- Hparse. apply parse_ranges_in_bounds.
    destruct (pages r); [congruence|simpl; lia]. }
  pose proof (pages_of_ranges_in_bounds A (pages r) rs Hin) as Hpg.
  assert (Hpos : (if current_row inp >=? 0 then Z.to_nat (current_row inp)
                  else 0%nat) = pos).
  { unfold pos. destruct (Z.geb_spec (current_row inp) 0); lia. }
  rewrite Hpos, Hparse.
  destruct rs as [|r0 rs']; [congruence|].
  rewrite Hpg. f_equal. destruct Hrow as [Hrow | ->].
  - apply insert_each_splice. unfold pos. lia.
  - rewrite insert_each_past_end by (simpl; lia).
    now rewrite firstn_nil, skipn_nil, app_nil_r.
Qed.

Lemma on_edit_insert_pages_splices_witness :
  on_edit_insert_pages PyStr.strip PyStr.int
    {| current_row := 1; chosen_path := "b.pdf";
       chosen_reader := inr (plain_reader 3);
       ranges_input := "3,1-2,3"; ranges_ok := true |}
    [10; 20; 30]%nat
  = Edited [10; 3; 1; 2; 3; 20; 30]%nat (Some 1).
Proof.
  apply (on_edit_insert_pages_splices nat PyStr.strip PyStr.int
           {| current_row := 1; chosen_path := "b.pdf";
              chosen_reader := inr (plain_reader 3);
              ranges_input := "3,1-2,3"; ranges_ok := true |}
           [10; 20; 30]%nat (plain_reader 3) [(3, 3); (1, 2); (3, 3)]);
    try (simpl; congruence); try reflexivity.
  - split; reflexivity.
  - left. simpl. lia.
Defined.

(** X18. Inserting from a document without pages, for every [str.strip]
    and [int]: as soon as the text has one accepted field the range is
    (1, 1), the first page access raises [IndexError] outside every handler,
    and the page list is left as it was. *)
Theorem on_edit_insert_pages_without_pages
    (A : Type) (py_strip : string -> string) (py_int : string -> option Z)
    (inp : InsertInput A) (pages_before : list A) (r : Reader A) :
  chosen_path inp <> EmptyString ->
  chosen_reader inp = inr r ->
  readable r ->
  pages r = [] ->
  ranges_ok inp = true ->
  parse_ranges py_strip py_int (ranges_input inp) 0 <> [] ->
  on_edit_insert_pages py_strip py_int inp pages_before
  = EditRaised IndexError.
Proof.
  intros Hpath Hopen [Henc Hpr] He Hok Hrs.
  unfold on_edit_insert_pages.
  assert (Hp : is_empty (chosen_path inp) = false).
  { destruct (chosen_path inp); [congruence|reflexivity]. }
  rewrite Hp, Hopen, Henc, Hpr, Hok, He. cbn [negb orb List.length Z.of_nat].
  destruct (is_empty (py_strip (ranges_input inp))) eqn:Eblank.
  { exfalso. apply Hrs. now apply parse_ranges_blank. }
  pose proof (parse_ranges_single_page py_strip py_int
                (ranges_input inp) 0 ltac:(lia)) as Hall.
  destruct (parse_ranges py_strip py_int (ranges_input inp) 0)
    as [|r0 rs]; [congruence|].
  inversion Hall as [|? ? E _]; subst r0. reflexivity.
Qed.

Lemma on_edit_insert_pages_without_pages_witness :
  on_edit_insert_pages PyStr.strip PyStr.int
    {| current_row := 0; chosen_path := "empty.pdf";
       chosen_reader := inr (plain_reader 0);
       ranges_input := "1"; ranges_ok := true |}
    [10; 20]%nat
  = EditRaised IndexError.
Proof.
  apply (on_edit_insert_pages_without_pages nat PyStr.strip PyStr.int _ _
           (plain_reader 0));
    try reflexivity; try (simpl; congruence).
  - split; reflexivity.
  - vm_compute. discriminate.
Defined.

(** ** Zoom of the preview *)

Lemma zoom_low_le_high : (zoom_low <= zoom_high)%Q.
Proof. now vm_compute. Qed.

Lemma float_max_bounds (a b hi : Q) :
  (a <= hi)%Q -> (b <= hi)%Q ->
  (a <= float_max a b)%Q /\ (float_max a b <= hi)%Q.
Proof.
  intros Ha Hb. unfold float_max.
  destruct (Qcompare b a) eqn:E.
  - split; [apply Qle_refl|exact Ha].
  - split; [apply Qle_refl|exact Ha].
  - split; [|exact Hb]. apply Qlt_le_weak. now apply Qgt_alt.
Qed.

Lemma b64_min_le_first (x y : Q) : (B64.min x y <= x)%Q.
Proof.
  unfold B64.min. destruct (Qcompare y x) eqn:E; try apply Qle_refl.
  apply Qlt_le_weak. now apply Qlt_alt.
Qed.

Lemma set_zoom_free_in_range (mul : option Q) (z : ZoomState) :
  zoom_in_range (_set_zoom free mul z).
Proof.
  unfold zoom_in_range, _set_zoom. cbn [_preview_scale].
  apply float_max_bounds; [apply zoom_low_le_high|apply b64_min_le_first].
Qed.

(** X19. The free zoom scale never leaves [0.1, 8.0]: from the initial
    state, after any sequence of calls of [_set_zoom] with any modes and
    any factors (missing and zero ones included), the stored scale is
    between the floats 0.1 and 8.0, a fit mode leaving it as it was; hence
    whenever the preview is drawn in free mode, it is drawn at a scale in
    that interval. *)
Theorem zoom_scale_stays_in_range (calls : list (ZoomMode * option Q)) :
  let z := zoom_calls calls zoom_initial in
  zoom_in_range z
  /\ (forall mode, mode <> free ->
        _preview_scale (_set_zoom mode None z) = _preview_scale z)
  /\ (forall env n_pages row scale,
        _render_preview env n_pages free (_preview_scale z) row
        = PreviewShown scale ->
        (zoom_low <= scale)%Q /\ (scale <= zoom_high)%Q).
Proof.
  cbv zeta.
  assert (Hinv : forall z0, zoom_in_range z0 ->
                   zoom_in_range (zoom_calls calls z0)).
  { unfold zoom_calls. induction calls as [|[mode mul] calls IH];
      intros z0 H0; [exact H0|].
    simpl. apply IH. destruct mode; [exact H0|exact H0|].
    apply set_zoom_free_in_range. }
  assert (H : zoom_in_range (zoom_calls calls zoom_initial)).
  { apply Hinv. split; now vm_compute. }
  split; [exact H|]. split.
  - intros [| |] Hm; [reflexivity|reflexivity|congruence].
  - intros env n_pages row scale. unfold _render_preview.
    destruct (negb (fitz_ok env)); [discriminate|].
    destruct ((row <? 0) || (row >=? n_pages)); [discriminate|].
    destruct (page_rect env row) as [[pw ph]|]; [|discriminate].
    cbn [preview_scale_for].
    destruct (pixmap_raises env row _); [discriminate|].
    intros [= <-]. exact H.
Qed.

(** ** The list of the merge tab *)

Lemma firstn_exact (A : Type) (a l : list A) :
  firstn (List.length a) (a ++ l) = a.
Proof. induction a as [|x a IH]; simpl; congruence. Qed.

Lemma skipn_exact (A : Type) (a l : list A) :
  skipn (List.length a) (a ++ l) = l.
Proof. induction a as [|x a IH]; simpl; congruence. Qed.

Lemma skipn_past (A : Type) (a c : list A) (x : A) :
  skipn (S (List.length a)) (a ++ x :: c) = c.
Proof. induction a as [|y a IH]; [reflexivity|exact IH]. Qed.

Lemma takeItem_at (A : Type) (a c : list A) (x : A) :
  takeItem (List.length a) (a ++ x :: c) = (Some x, a ++ c).
Proof.
  unfold takeItem. rewrite nth_error_app2, Nat.sub_diag by lia.
  cbn [nth_error]. now rewrite firstn_exact, skipn_past.
Qed.

Lemma insertItem_at (A : Type) (a c : list A) (x : A) :
  insertItem (List.length a) (Some x) (a ++ c) = a ++ x :: c.
Proof. unfold insertItem. now rewrite firstn_exact, skipn_exact. Qed.

Lemma path_to_item_found (its : list PdfItem) (x : PdfItem) :
  NoDup (map path its) -> In x its -> path_to_item its (path x) = Some x.
Proof.
  intros Hnd Hin. unfold path_to_item.
  destruct (find _ (rev its)) as [y|] eqn:E.
  - apply find_some in E. destruct E as [Hy E]. apply String.eqb_eq in E.
    apply in_rev in Hy. f_equal.
    clear -Hnd Hin Hy E. induction its as [|z its IH]; [destruct Hin|].
    simpl in Hnd. inversion Hnd as [|? ? Hz Hnd']; subst.
    destruct Hin as [->|Hin], Hy as [->|Hy]; auto.
    + exfalso. apply Hz. rewrite <- E. now apply in_map.
    + exfalso. apply Hz. rewrite E. now apply in_map.
  - exfalso. apply in_rev in Hin.
    pose proof (find_none _ _ E x Hin) as H. cbv beta in H.
    now rewrite String.eqb_refl in H.
Qed.

(** With distinct paths, the synchronisation reads back any arrangement of
    items of the model from their paths. *)
Lemma sync_of_paths (its arranged : list PdfItem) :
  NoDup (map path its) -> incl arranged its ->
  _sync_model_from_list {| items := its; list_widget := map path arranged |}
  = {| items := arranged; list_widget := map path arranged |}.
Proof.
  intros Hnd Hincl. unfold _sync_model_from_list. cbn [items list_widget].
  f_equal. induction arranged as [|x l IH]; [reflexivity|].
  simpl. rewrite (path_to_item_found its x Hnd) by (apply Hincl; now left).
  simpl. f_equal. apply IH. intros y Hy. apply Hincl. now right.
Qed.

Lemma keep_rows_map (A B : Type) (f : A -> B) (keep : nat -> bool)
    (xs : list A) (i : nat) :
  keep_rows i keep (map f xs) = map f (keep_rows i keep xs).
Proof.
  revert i. induction xs as [|x xs IH]; intros i; simpl; [reflexivity|].
  rewrite IH. now destruct (keep i).
Qed.

Lemma keep_rows_incl (A : Type) (keep : nat -> bool) (xs : list A) (i : nat) :
  incl (keep_rows i keep xs) xs.
Proof.
  revert i. induction xs as [|x xs IH]; intros i; simpl; [easy|].
  destruct (keep i).
  - intros y [<-|Hy]; [now left|right; now apply (IH (S i))].
  - intros y Hy. right. now apply (IH (S i)).
Qed.

(** Moving the selected rows to the bottom, from the last to the first:
    the rows not selected keep their order, and the selected ones follow
    in reverse order. *)
Lemma move_bottom_rows_descending (A : Type) (rows : list nat) :
  StronglySorted lt rows ->
  forall (w moved : list A),
    (forall r, In r rows -> (r < List.length w)%nat) ->
    move_bottom_rows (rev rows) (w ++ moved)
    = keep_rows 0 (fun i => negb (selected_row rows i)) w
      ++ moved ++ rev (keep_rows 0 (selected_row rows) w).
Proof.
  induction rows as [|r rows IH] using rev_ind; intros Hs w moved Hlen.
  - simpl. rewrite keep_rows_all by reflexivity.
    assert (H : keep_rows 0 (selected_row []) w = []).
    { clear. generalize 0%nat. induction w as [|x w IHw]; intros i;
        [reflexivity|].
      cbn [keep_rows]. change (selected_row [] i) with false. apply IHw. }
    rewrite H. simpl. now rewrite app_nil_r.
  - destruct (sorted_snoc rows r Hs) as [Hs' Hlt].
    rewrite rev_app_distr. simpl rev. simpl app. cbn [move_bottom_rows].
    assert (Hr : (r < List.length w)%nat).
    { apply Hlen, in_or_app. right. now left. }
    destruct (nth_error w r) as [x|] eqn:Ex.
    2:{ apply nth_error_None in Ex. lia. }
    apply nth_error_split in Ex. destruct Ex as (a & c & -> & <-).
    rewrite <- app_assoc. simpl app.
    rewrite takeItem_at. cbn [addItem].
    replace ((a ++ c ++ moved) ++ [x]) with ((a ++ c) ++ (moved ++ [x]))
      by (now rewrite <- !app_assoc).
    rewrite (IH Hs').
    2:{ intros y Hy. specialize (Hlt y Hy). rewrite length_app. lia. }
    rewrite !keep_rows_app. cbn [keep_rows]. rewrite Nat.add_0_l.
    assert (Hin : selected_row (rows ++ [List.length a]) (List.length a) = true).
    { apply selected_row_spec, in_or_app. right. now left. }
    rewrite Hin. simpl negb. cbv iota.
    assert (Hfront : forall j, (j < List.length a)%nat ->
              selected_row (rows ++ [List.length a]) j = selected_row rows j).
    { intros j Hj. apply eq_true_iff_eq.
      rewrite !selected_row_spec, in_app_iff. simpl.
      split; [|tauto]. intros [H|[H|[]]]; [exact H|lia]. }
    assert (Hback1 : forall j, (List.length a <= j)%nat ->
              selected_row rows j = false).
    { intros j Hj. destruct (selected_row rows j) eqn:E; [|reflexivity].
      apply selected_row_spec in E. specialize (Hlt j E). lia. }
    assert (Hback2 : forall j, (S (List.length a) <= j)%nat ->
              selected_row (rows ++ [List.length a]) j = false).
    { intros j Hj. destruct (selected_row (rows ++ [List.length a]) j) eqn:E;
        [|reflexivity].
      apply selected_row_spec, in_app_iff in E.
      destruct E as [E|[E|[]]]; [specialize (Hlt j E)|]; lia. }
    assert (K1 : keep_rows 0 (fun i => negb (selected_row (rows ++ [List.length a]) i)) a
                 = keep_rows 0 (fun i => negb (selected_row rows i)) a).
    { apply keep_rows_ext. intros j Hj. now rewrite Hfront by lia. }
    assert (K2 : keep_rows 0 (selected_row (rows ++ [List.length a])) a
                 = keep_rows 0 (selected_row rows) a).
    { apply keep_rows_ext. intros j Hj. now rewrite Hfront by lia. }
    assert (none : forall (f : nat -> bool) (l : list A) i,
              (forall j, (i <= j)%nat -> f j = false) -> keep_rows i f l = []).
    { intros f l. induction l as [|z l IHl]; intros i Hf; simpl; auto.
      rewrite (Hf i) by lia. apply IHl. intros j Hj. apply Hf. lia. }
    rewrite K1, K2.
    rewrite (keep_rows_all _ (fun i => negb (selected_row rows i)) c).
    2:{ intros j Hj. now rewrite Hback1 by lia. }
    rewrite (keep_rows_all _ (fun i => negb (selected_row (rows ++ [List.length a]) i)) c).
    2:{ intros j Hj. now rewrite Hback2 by lia. }
    rewrite (none (selected_row rows) c) by (intros j Hj; apply Hback1; lia).
    rewrite (none (selected_row (rows ++ [List.length a])) c)
      by (intros j Hj; apply Hback2; lia).
    rewrite !app_nil_r, rev_app_distr. simpl.
    now rewrite <- !app_assoc.
Qed.

Lemma keep_rows_split (A : Type) (f : nat -> bool) (l : list A) :
  forall i,
    Permutation l (keep_rows i (fun j => negb (f j)) l
                   ++ rev (keep_rows i f l)).
Proof.
  induction l as [|x l IH]; intros i; simpl; [constructor|].
  destruct (f i); simpl.
  - transitivity (x :: (keep_rows (S i) (fun j => negb (f j)) l
                        ++ rev (keep_rows (S i) f l))).
    + constructor. apply IH.
    + rewrite app_assoc. apply Permutation_cons_append.
  - constructor. apply IH.
Qed.

(** X20. Moving any selection to the bottom: the items that are not
    selected keep their order, the selected ones follow them in reverse
    order, nothing is lost or repeated, and the model and the widget still
    agree. *)
Theorem move_bottom_reverses_selection (selected : list nat) (t : MergeTab) :
  tab_ok t ->
  (forall r, In r selected -> (r < List.length (items t))%nat) ->
  let t' := _move_bottom selected t in
  items t'
  = keep_rows 0 (fun i => negb (selected_row selected i)) (items t)
    ++ rev (keep_rows 0 (selected_row selected) (items t))
  /\ tab_ok t'
  /\ Permutation (items t) (items t').
Proof.
  intros [Hnd Hw] Hsel t'.
  set (arranged :=
         keep_rows 0 (fun i => negb (selected_row selected i)) (items t)
         ++ rev (keep_rows 0 (selected_row selected) (items t))).
  pose proof keep_rows_split as Hperm.
  assert (Hincl : incl arranged (items t)).
  { intros x Hx.
    apply (Permutation_in x
             (Permutation_sym
                (Hperm PdfItem (selected_row selected) (items t) 0%nat))).
    exact Hx. }
  assert (Ht' : t' = {| items := arranged; list_widget := map path arranged |}).
  { unfold t', _move_bottom.
    destruct (rev (sorted_rows selected)) as [|r0 rs] eqn:Erev.
    - assert (Hnone : forall i, selected_row selected i = false).
      { intros i. destruct (selected_row selected i) eqn:E; [|reflexivity].
        apply selected_row_spec, sorted_rows_In in E.
        apply (f_equal (@rev nat)) in Erev. rewrite rev_involutive in Erev.
        rewrite Erev in E. destruct E. }
      assert (Ha : arranged = items t).
      { unfold arranged. rewrite keep_rows_all by (intros; now rewrite Hnone).
        assert (K : forall (l : list PdfItem) i,
                  keep_rows i (selected_row selected) l = []).
        { induction l as [|x l IHl]; intros i; simpl; auto.
          now rewrite Hnone. }
        rewrite K. simpl. apply app_nil_r. }
      rewrite Ha, <- Hw. now destruct t.
    - rewrite <- Erev, Hw.
      pose proof (move_bottom_rows_descending string (sorted_rows selected)
                    (sorted_rows_sorted selected) (map path (items t)) []) as H.
      rewrite app_nil_r in H. cbn [app] in H. rewrite H.
      2:{ intros r Hr. rewrite length_map. apply Hsel.
          now apply (proj1 (sorted_rows_In r selected)). }
      assert (E1 : forall i, selected_row (sorted_rows selected) i
                             = selected_row selected i).
      { intros i. apply eq_true_iff_eq.
        now rewrite !selected_row_spec, sorted_rows_In. }
      rewrite (keep_rows_ext _ _ (fun i => negb (selected_row selected i)))
        by (intros; now rewrite E1).
      rewrite (keep_rows_ext _ (selected_row (sorted_rows selected))
                 (selected_row selected)) by (intros; apply E1).
      rewrite !keep_rows_map, <- map_rev, <- map_app.
      fold arranged. now apply sync_of_paths. }
  rewrite Ht'. cbn [items list_widget].
  split; [reflexivity|]. split.
  - split; [|reflexivity]. cbn [items].
    apply (Permutation_NoDup (l := map path (items t))); [|exact Hnd].
    apply Permutation_map, Hperm.
  - apply Hperm.
Qed.

Lemma move_bottom_reverses_selection_witness :
  items
    (_move_bottom [2; 0]%nat
       (_refresh_list_widget
          {| items := [item "a.pdf"; item "b.pdf"; item "c.pdf"; item "d.pdf"];
             list_widget := [] |}))
  = [item "b.pdf"; item "d.pdf"; item "c.pdf"; item "a.pdf"].
Proof.
  apply (move_bottom_reverses_selection [2; 0]%nat
           (_refresh_list_widget
              {| items := [item "a.pdf"; item "b.pdf"; item "c.pdf";
                           item "d.pdf"];
                 list_widget := [] |})).
  - split; [|reflexivity]. simpl.
    repeat constructor; simpl; intuition discriminate.
  - simpl. intros r [<-|[<-|[]]]; lia.
Defined.

Lemma sorted_rows_of_sorted (rows : list nat) :
  StronglySorted lt rows -> sorted_rows rows = rows.
Proof.
  induction 1 as [|x rows Hs IH Hx]; [reflexivity|].
  simpl. rewrite IH. destruct rows as [|y rows']; [reflexivity|].
  simpl. inversion Hx as [|? ? Hxy _]; subst.
  now destruct (Nat.ltb_spec x y); [|lia].
Qed.

Lemma row_block_sorted (k r : nat) : StronglySorted lt (row_block r k).
Proof.
  unfold row_block. revert r. induction k as [|k IH]; intros r; simpl;
    constructor; [apply IH|].
  apply Forall_forall. intros y Hy. apply in_seq in Hy. lia.
Qed.

(** Moving up a block of rows that follows a row [z]. *)
Lemma move_rows_up_block (A : Type) (block c : list A) (z : A) :
  forall a : list A,
    move_rows (-1) (row_block (S (List.length a)) (List.length block))
      (a ++ z :: block ++ c)
    = a ++ block ++ z :: c.
Proof.
  induction block as [|x block IH]; intros a; [reflexivity|].
  cbn [List.length row_block seq move_rows].
  assert (Hc : (0 <=? Z.of_nat (S (List.length a)) + -1)
               && (Z.of_nat (S (List.length a)) + -1
                   <? Z.of_nat (List.length (a ++ z :: (x :: block) ++ c)))
               = true).
  { rewrite length_app. simpl List.length.
    apply andb_true_iff. split; [apply Z.leb_le|apply Z.ltb_lt]; lia. }
  rewrite Hc.
  replace (Z.to_nat (Z.of_nat (S (List.length a)) + -1)) with (List.length a)
    by lia.
  replace (a ++ z :: (x :: block) ++ c) with ((a ++ [z]) ++ x :: block ++ c)
    by (now rewrite <- app_assoc).
  replace (S (List.length a)) with (List.length (a ++ [z])) at 1
    by (rewrite length_app; simpl; lia).
  rewrite takeItem_at, <- app_assoc. simpl app.
  rewrite insertItem_at.
  replace (a ++ x :: z :: block ++ c) with ((a ++ [x]) ++ z :: block ++ c)
    by (now rewrite <- app_assoc).
  replace (S (S (List.length a))) with (S (List.length (a ++ [x])))
    by (rewrite length_app; simpl; lia).
  fold (row_block (S (List.length (a ++ [x]))) (List.length block)).
  rewrite IH, <- app_assoc. reflexivity.
Qed.

Lemma row_block_cons (r k : nat) :
  row_block r (S k) = r :: row_block (S r) k.
Proof. reflexivity. Qed.

Lemma move_rows_cons (A : Type) (delta : Z) (row : nat) (rows : list nat)
    (w : list A) :
  move_rows delta (row :: rows) w
  = if (0 <=? Z.of_nat row + delta)
       && (Z.of_nat row + delta <? Z.of_nat (List.length w))
    then move_rows delta rows
           (insertItem (Z.to_nat (Z.of_nat row + delta))
              (fst (takeItem row w)) (snd (takeItem row w)))
    else move_rows delta rows w.
Proof. simpl. now destruct (takeItem row w). Qed.

(** Moving down a block of rows that is followed by a row [y]. *)
Lemma move_rows_down_block (A : Type) (block c : list A) (x y : A) :
  forall a : list A,
    move_rows 1 (row_block (List.length a) (S (List.length block)))
      (a ++ x :: block ++ y :: c)
    = a ++ block ++ y :: x :: c.
Proof.
  induction block as [|b0 block IH]; intros a.
  - cbn [List.length app]. rewrite row_block_cons, move_rows_cons.
    assert (Hc : (0 <=? Z.of_nat (List.length a) + 1)
                 && (Z.of_nat (List.length a) + 1
                     <? Z.of_nat (List.length (a ++ x :: y :: c))) = true).
    { rewrite length_app. simpl List.length.
      apply andb_true_iff. split; [apply Z.leb_le|apply Z.ltb_lt]; lia. }
    rewrite Hc, takeItem_at. cbn [fst snd].
    replace (Z.to_nat (Z.of_nat (List.length a) + 1))
      with (List.length (a ++ [y])) by (rewrite length_app; simpl; lia).
    replace (a ++ y :: c) with ((a ++ [y]) ++ c) by (now rewrite <- app_assoc).
    rewrite insertItem_at, <- app_assoc. reflexivity.
  - cbn [List.length]. rewrite row_block_cons, move_rows_cons.
    assert (Hc : (0 <=? Z.of_nat (List.length a) + 1)
                 && (Z.of_nat (List.length a) + 1
                     <? Z.of_nat (List.length
                                    (a ++ x :: (b0 :: block) ++ y :: c)))
                 = true).
    { rewrite length_app. simpl List.length.
      apply andb_true_iff. split; [apply Z.leb_le|apply Z.ltb_lt]; lia. }
    rewrite Hc, takeItem_at. cbn [fst snd].
    replace (Z.to_nat (Z.of_nat (List.length a) + 1))
      with (List.length (a ++ [b0])) by (rewrite length_app; simpl; lia).
    replace (a ++ (b0 :: block) ++ y :: c)
      with ((a ++ [b0]) ++ block ++ y :: c) by (now rewrite <- app_assoc).
    rewrite insertItem_at.
    replace (S (List.length a)) with (List.length (a ++ [b0]))
      by (rewrite length_app; simpl; lia).
    rewrite IH, <- app_assoc. reflexivity.
Qed.

(** The tab after a rearrangement of the widget that is the image of a
    rearrangement of the items. *)
Lemma sync_rearranged (t : MergeTab) (w : list string)
    (arranged : list PdfItem) :
  tab_ok t -> w = map path arranged -> incl arranged (items t) ->
  items (_sync_model_from_list {| items := items t; list_widget := w |})
  = arranged.
Proof.
  intros [Hnd _] -> Hincl. now rewrite sync_of_paths.
Qed.

Lemma selection_not_empty (rows : list nat) (r : nat) (t u : MergeTab) :
  In r rows ->
  match sorted_rows rows with [] => t | _ => u end = u.
Proof.
  intros Hr. apply (proj2 (sorted_rows_In r rows)) in Hr.
  now destruct (sorted_rows rows).
Qed.

(** X21. The move buttons on a block of adjacent selected rows.  Moving up a
    block that has a row above it moves the whole block up by one row, in
    order.  Moving down a block that has a row below it sends the first
    item of the block below that row and moves the other items of the block
    up by one row: the block moves down as a whole only when it has a
    single row. *)
Theorem move_selected_on_a_block
    (t : MergeTab) (a block c : list PdfItem) :
  tab_ok t ->
  (forall z,
      items t = a ++ z :: block ++ c ->
      items (_move_selected (-1)
               (row_block (S (List.length a)) (List.length block)) t)
      = a ++ block ++ z :: c)
  /\ (forall x y,
        items t = a ++ x :: block ++ y :: c ->
        items (_move_selected 1
                 (row_block (List.length a) (S (List.length block))) t)
        = a ++ block ++ y :: x :: c).
Proof.
  intros Hok. pose proof Hok as [Hnd Hw]. split.
  - intros z Hit. unfold _move_selected.
    rewrite sorted_rows_of_sorted by apply row_block_sorted.
    destruct block as [|b0 block']; [exact Hit|].
    cbn [List.length row_block seq].
    change (S (List.length a) :: seq (S (S (List.length a))) (List.length block'))
      with (row_block (S (List.length a)) (List.length (b0 :: block'))).
    apply sync_rearranged; [exact Hok| |].
    + rewrite Hw, Hit, map_app. cbn [map]. rewrite map_app.
      rewrite <- (length_map path a), <- (length_map path (b0 :: block')).
      rewrite move_rows_up_block. now rewrite !map_app.
    + rewrite Hit. intros u Hu. rewrite !in_app_iff in *. simpl in *.
      rewrite in_app_iff. tauto.
  - intros x y Hit. unfold _move_selected.
    rewrite sorted_rows_of_sorted by apply row_block_sorted.
    cbn [row_block seq].
    change (List.length a :: seq (S (List.length a)) (List.length block))
      with (row_block (List.length a) (S (List.length block))).
    apply sync_rearranged; [exact Hok| |].
    + rewrite Hw, Hit, map_app. cbn [map]. rewrite map_app. cbn [map].
      rewrite <- (length_map path a), <- (length_map path block).
      rewrite move_rows_down_block. now rewrite !map_app.
    + rewrite Hit. intros u Hu. rewrite !in_app_iff in *. simpl in *.
      rewrite in_app_iff. simpl. tauto.
Qed.

Lemma move_selected_on_a_block_witness :
  items
    (_move_selected 1 [1; 2]%nat
       (_refresh_list_widget
          {| items := [item "a.pdf"; item "b.pdf"; item "c.pdf"; item "d.pdf"];
             list_widget := [] |}))
  = [item "a.pdf"; item "c.pdf"; item "d.pdf"; item "b.pdf"].
Proof.
  destruct (move_selected_on_a_block
              (_refresh_list_widget
                 {| items := [item "a.pdf"; item "b.pdf"; item "c.pdf";
                              item "d.pdf"];
                    list_widget := [] |})
              [item "a.pdf"] [item "c.pdf"] []) as [_ H].
  - split; [|reflexivity]. simpl.
    repeat constructor; simpl; intuition discriminate.
  - apply (H (item "b.pdf") (item "d.pdf")). reflexivity.
Defined.

Lemma move_top_rows_two (A : Type) (a b c : list A) (x1 y x2 : A) :
  move_top_rows 0 [List.length a; (List.length a + List.length b + 2)%nat]
    (a ++ x1 :: b ++ y :: x2 :: c)
  = x1 :: y :: a ++ b ++ x2 :: c.
Proof.
  cbn [move_top_rows]. rewrite Nat.sub_0_r, takeItem_at.
  change (insertItem 0 (Some x1) (a ++ b ++ y :: x2 :: c))
    with (x1 :: a ++ b ++ y :: x2 :: c).
  replace (List.length a + List.length b + 2 - 1)%nat
    with (List.length (x1 :: a ++ b))
    by (simpl; rewrite length_app; lia).
  replace (x1 :: a ++ b ++ y :: x2 :: c) with ((x1 :: a ++ b) ++ y :: x2 :: c)
    by (simpl; now rewrite <- app_assoc).
  rewrite takeItem_at. simpl. now rewrite <- app_assoc.
Qed.

(** X22. Move to top.  With one selected row its item goes to the top and
    the others keep their order.  With two selected rows that are not
    adjacent, the first selected item goes to the top, but the item moved
    next is the one of the row just above the second selected row, which
    is not selected, and the second selected item stays in its row. *)
Theorem move_top_one_and_two_rows (t : MergeTab) :
  tab_ok t ->
  (forall a c x,
      items t = a ++ x :: c ->
      items (_move_top [List.length a] t) = x :: a ++ c)
  /\ (forall a b c x1 y x2,
        items t = a ++ x1 :: b ++ y :: x2 :: c ->
        let r1 := List.length a in
        let r2 := (List.length a + List.length b + 2)%nat in
        items (_move_top [r2; r1] t) = x1 :: y :: a ++ b ++ x2 :: c
        /\ nth_error (items (_move_top [r2; r1] t)) r2 = Some x2).
Proof.
  intros Hok. pose proof Hok as [Hnd Hw]. split.
  - intros a c x Hit. unfold _move_top. cbn [sorted_rows fold_right insert_row].
    apply sync_rearranged; [exact Hok| |].
    + rewrite Hw, Hit, map_app. cbn [map move_top_rows].
      rewrite Nat.sub_0_r, <- (length_map path a), takeItem_at.
      simpl. now rewrite map_app.
    + rewrite Hit. intros u Hu. rewrite in_app_iff in *. simpl in *.
      rewrite in_app_iff in Hu. tauto.
  - intros a b c x1 y x2 Hit r1 r2.
    assert (Hrows : sorted_rows [r2; r1] = [r1; r2]).
    { cbn [sorted_rows fold_right insert_row]. unfold r1, r2.
      destruct (Nat.ltb_spec (List.length a + List.length b + 2)
                  (List.length a)); [lia|].
      destruct (Nat.eqb_spec (List.length a + List.length b + 2)
                  (List.length a)); [lia|reflexivity]. }
    assert (Hres : items (_move_top [r2; r1] t) = x1 :: y :: a ++ b ++ x2 :: c).
    { unfold _move_top. rewrite Hrows.
      apply sync_rearranged; [exact Hok| |].
      - rewrite Hw, Hit, map_app. cbn [map]. rewrite map_app. cbn [map].
        unfold r1, r2.
        rewrite <- (length_map path a), <- (length_map path b).
        rewrite move_top_rows_two. now rewrite !map_app.
      - rewrite Hit. intros u Hu. simpl in Hu.
        rewrite !in_app_iff in *. simpl in *. rewrite in_app_iff. simpl.
        tauto. }
    split; [exact Hres|]. rewrite Hres.
    change (x1 :: y :: a ++ b ++ x2 :: c)
      with ((x1 :: y :: a) ++ b ++ x2 :: c).
    rewrite app_assoc.
    rewrite nth_error_app2 by (rewrite length_app; simpl; unfold r2; lia).
    replace (r2 - List.length ((x1 :: y :: a) ++ b))%nat with 0%nat
      by (rewrite length_app; simpl; unfold r2; lia).
    reflexivity.
Qed.

Lemma move_top_one_and_two_rows_witness :
  items
    (_move_top [3; 1]%nat
       (_refresh_list_widget
          {| items := [item "a.pdf"; item "b.pdf"; item "c.pdf"; item "d.pdf"];
             list_widget := [] |}))
  = [item "b.pdf"; item "c.pdf"; item "a.pdf"; item "d.pdf"].
Proof.
  destruct (move_top_one_and_two_rows
              (_refresh_list_widget
                 {| items := [item "a.pdf"; item "b.pdf"; item "c.pdf";
                              item "d.pdf"];
                    list_widget := [] |})) as [_ H].
  - split; [|reflexivity]. simpl.
    repeat constructor; simpl; intuition discriminate.
  - apply (H [item "a.pdf"] [] [] (item "b.pdf") (item "c.pdf")
             (item "d.pdf")). reflexivity.
Defined.

Lemma remove_rows_pop (A : Type) (rows : list nat) :
  forall w w' : list A, pop_rows rows w = Some w' -> remove_rows rows w = w'.
Proof.
  induction rows as [|r rows IH]; intros w w' H; simpl in *; [congruence|].
  unfold py_pop in H. destruct (Nat.ltb_spec r (List.length w)) as [Hr|];
    [|discriminate].
  apply IH. unfold takeItem.
  destruct (nth_error w r) eqn:E; [exact H|].
  apply nth_error_None in E. lia.
Qed.

(** X23. Removing the selected rows leaves the items of the other rows, in
    their order, whatever the order of selection, and the model and the
    widget still agree. *)
Theorem remove_selected_keeps_unselected (selected : list nat) (t : MergeTab) :
  tab_ok t ->
  (forall r, In r selected -> (r < List.length (items t))%nat) ->
  let t' := _remove_selected selected t in
  items t' = keep_rows 0 (fun i => negb (selected_row selected i)) (items t)
  /\ tab_ok t'.
Proof.
  intros [Hnd Hw] Hsel t'.
  set (kept := keep_rows 0 (fun i => negb (selected_row selected i)) (items t)).
  assert (Ht' : t' = {| items := kept; list_widget := map path kept |}).
  { unfold t', _remove_selected. rewrite Hw.
    rewrite (remove_rows_pop string _ _
               (keep_rows 0 (fun i => negb (selected_row (sorted_rows selected) i))
                  (map path (items t)))).
    2:{ apply pop_rows_descending; [apply sorted_rows_sorted|].
        intros r Hr. rewrite length_map. apply Hsel.
        now apply (proj1 (sorted_rows_In r selected)). }
    rewrite (keep_rows_ext _ _ (fun i => negb (selected_row selected i))).
    2:{ intros j _. f_equal. apply eq_true_iff_eq.
        now rewrite !selected_row_spec, sorted_rows_In. }
    rewrite keep_rows_map. fold kept.
    apply sync_of_paths; [exact Hnd|apply keep_rows_incl]. }
  rewrite Ht'. cbn [items list_widget]. split; [reflexivity|].
  split; [|reflexivity]. cbn [items].
  unfold kept. rewrite <- keep_rows_map.
  clear -Hnd. revert Hnd. generalize (map path (items t)). generalize 0%nat.
  intros i l. revert i. induction l as [|x l IH]; intros i Hnd; simpl;
    [constructor|].
  inversion Hnd as [|? ? Hx Hl]; subst.
  destruct (negb (selected_row selected i)); [|now apply IH].
  constructor; [|now apply IH].
  intros Hin. apply Hx. now apply (keep_rows_incl _ _ _ _ _ Hin).
Qed.

Lemma remove_selected_keeps_unselected_witness :
  items
    (_remove_selected [2; 0; 2]%nat
       (_refresh_list_widget
          {| items := [item "a.pdf"; item "b.pdf"; item "c.pdf"; item "d.pdf"];
             list_widget := [] |}))
  = [item "b.pdf"; item "d.pdf"].
Proof.
  apply (remove_selected_keeps_unselected [2; 0; 2]%nat
           (_refresh_list_widget
              {| items := [item "a.pdf"; item "b.pdf"; item "c.pdf";
                           item "d.pdf"];
                 list_widget := [] |})).
  - split; [|reflexivity]. simpl.
    repeat constructor; simpl; intuition discriminate.
  - simpl. intros r [<-|[<-|[<-|[]]]]; lia.
Defined.

(** ** Progress of a split *)

Section SplitProgress.

Variable page : Type.
Variable py_strip : string -> string.
Variable py_int : string -> option Z.
Variable senv : SplitEnv page.

(** A loop of [write_range] and progress emissions in an environment where
    every write succeeds: one file and one progress value per iteration. *)
Lemma s_for_progress (self : SplitWorker) (xs : list page) (A : Type)
    (body : A -> SplitState page -> SplitState page * option exn)
    (sp : A -> Z * Z) (done : A -> Z) (t : Z) (todo : list A) :
  (forall dir name, write_raises senv dir name = None) ->
  (forall x st,
      body x st
      = s_then (write_range senv self xs (fst (sp x)) (snd (sp x)) st)
          (s_emit_progress (done x) t)) ->
  t < 2 ^ 53 ->
  (forall x, In x todo ->
     1 <= fst (sp x) /\ fst (sp x) - 1 <= snd (sp x)
     /\ snd (sp x) <= Z.of_nat (List.length xs) /\ 1 <= done x <= t) ->
  forall st, exists st',
    s_for body todo st = (st', None)
    /\ List.length (s_files st')
       = (List.length (s_files st) + List.length todo)%nat
    /\ progress_values (s_trace st')
       = progress_values (s_trace st)
         ++ map (fun a => Qfloor (percent_float a t)) (map done todo).
Proof.
  intros Hw Hbody Ht. induction todo as [|x todo IH]; intros Hok st.
  - exists st. simpl. rewrite app_nil_r. repeat split. lia.
  - simpl s_for. rewrite Hbody. unfold write_range.
    destruct (Hok x (or_introl eq_refl)) as (H1 & H2 & H3 & H4).
    rewrite collect_pages_span by assumption. rewrite Hw.
    unfold s_then, s_emit_progress.
    rewrite (percent_is_floor (done x) t H4 Ht).
    match goal with |- context [s_for body todo ?s] =>
      destruct (IH (fun y Hy => Hok y (or_intror Hy)) s)
        as (st' & Hrun & Hfiles & Htr) end.
    exists st'. rewrite Hrun. split; [reflexivity|].
    simpl in Hfiles, Htr. split.
    + rewrite Hfiles, length_app. simpl. lia.
    + rewrite Htr, !progress_values_app. simpl.
      rewrite app_nil_r, <- app_assoc. reflexivity.
Qed.

End SplitProgress.

Lemma sorted_map_seq (g : nat -> Z) (n : nat) :
  forall s,
    (forall i j, (s <= i)%nat -> (i <= j)%nat -> (j < s + n)%nat ->
                 g i <= g j) ->
    StronglySorted Z.le (map g (seq s n)).
Proof.
  induction n as [|n IH]; intros s Hg; simpl; constructor.
  - apply IH. intros i j Hi Hij Hj. apply Hg; lia.
  - apply Forall_forall. intros y Hy. apply in_map_iff in Hy.
    destruct Hy as (j & <- & Hj). apply in_seq in Hj. apply Hg; lia.
Qed.

Lemma last_map_seq (g : nat -> Z) (n s : nat) (d : Z) :
  last (map g (seq s (S n))) d = g (s + n)%nat.
Proof.
  revert s. induction n as [|n IH]; intros s.
  - simpl. f_equal. lia.
  - change (seq s (S (S n))) with (s :: seq (S s) (S n)).
    change (map g (s :: seq (S s) (S n)))
      with (g s :: map g (seq (S s) (S n))).
    replace (s + S n)%nat with (S s + n)%nat by lia. rewrite <- IH.
    simpl. reflexivity.
Qed.

Lemma combine_fst (A B : Type) (l : list A) :
  forall l' : list B,
    List.length l = List.length l' -> map fst (combine l l') = l.
Proof.
  induction l as [|x l IH]; intros [|y l'] H; try discriminate;
    [reflexivity|].
  simpl. f_equal. apply IH. now injection H.
Qed.

(** The percentages of a rising count that ends at the total: they do not
    decrease, stay between 0 and 100, and the last one is 100. *)
Lemma rising_percentages (t : Z) (g : nat -> Z) (s n : nat) :
  t < 2 ^ 53 ->
  (forall i j, (s <= i)%nat -> (i <= j)%nat -> (j < s + n)%nat -> g i <= g j) ->
  (forall i, (s <= i < s + n)%nat -> 1 <= g i <= t) ->
  (n <> 0%nat -> g (s + n - 1)%nat = t) ->
  let ps := map (fun a => Qfloor (percent_float a t)) (map g (seq s n)) in
  StronglySorted Z.le ps
  /\ Forall (fun p => 0 <= p <= 100) ps
  /\ (ps <> [] -> last ps 0 = 100).
Proof.
  intros Ht Hmono Hb Hlast ps. unfold ps. rewrite map_map.
  split; [|split].
  - apply sorted_map_seq. intros i j Hi Hij Hj.
    apply Qfloor_resp_le. apply percent_float_monotone; try lia.
    + apply Hb. lia.
    + now apply Hmono.
    + apply Hb. lia.
  - apply Forall_forall. intros p Hp. apply in_map_iff in Hp.
    destruct Hp as (i & <- & Hi). apply in_seq in Hi.
    destruct (percent_float_bounds (g i) t (Hb i Hi) Ht) as (H0 & H100 & _).
    split.
    + apply Z.le_trans with (Qfloor (inject_Z 0)); [now rewrite Qfloor_Z|].
      apply Qfloor_resp_le. now apply Qlt_le_weak.
    + apply Z.le_trans with (Qfloor (inject_Z 100)); [|now rewrite Qfloor_Z].
      now apply Qfloor_resp_le.
  - destruct n as [|n]; [intros H; now elim H|]. intros _.
    rewrite last_map_seq.
    replace (s + n)%nat with (s + S n - 1)%nat by lia.
    rewrite Hlast by discriminate.
    assert (H1 : 1 <= t).
    { specialize (Hb s ltac:(lia)). lia. }
    now rewrite (Qfloor_comp _ _ (percent_float_full t ltac:(lia))).
Qed.

(** X24. Progress of a split that can read its source and write every file,
    in each of the three modes (the source having a page in CustomRanges
    mode): one progress value per written file; the values do not
    decrease, lie between 0 and 100, and the last one is 100.  The values
    are [int(done / total * 100)] in binary64 arithmetic, for fewer than
    [2^53] pages and ranges. *)
Theorem split_progress_rises_to_100
    (page : Type) (py_strip : string -> string) (py_int : string -> option Z)
    (senv : SplitEnv page) (self : SplitWorker) (r : Reader page) :
  split_env_ok senv (src_path self) (out_dir self) r ->
  1 <= chunk_size self ->
  Z.of_nat (List.length (pages r)) < 2 ^ 53 ->
  Z.of_nat (List.length
              (parse_ranges py_strip py_int (ranges_text self)
                 (Z.of_nat (List.length (pages r))))) < 2 ^ 53 ->
  (pages r <> [] \/ mode self = MODE_EACH \/ mode self = MODE_CHUNK) ->
  let res := split_run py_strip py_int senv self in
  let ps := progress_values (s_trace res) in
  List.length ps = List.length (s_files res)
  /\ StronglySorted Z.le ps
  /\ Forall (fun p => 0 <= p <= 100) ps
  /\ (ps <> [] -> last ps 0 = 100).
Proof.
  intros Henv Hk Htot Hnr Hmode res ps.
  set (total := Z.of_nat (List.length (pages r))) in *.
  assert (Hw : forall dir name, write_raises senv dir name = None)
    by apply Henv.
  assert (Hfinal : forall (st' : SplitState page) (g : nat -> Z) (s n : nat) t,
    progress_values (s_trace st')
    = map (fun a => Qfloor (percent_float a t)) (map g (seq s n)) ->
    List.length (s_files st') = n ->
    t < 2 ^ 53 ->
    (forall i j, (s <= i)%nat -> (i <= j)%nat -> (j < s + n)%nat ->
                 g i <= g j) ->
    (forall i, (s <= i < s + n)%nat -> 1 <= g i <= t) ->
    (n <> 0%nat -> g (s + n - 1)%nat = t) ->
    let res' := s_emit (FinishedOk (out_dir self)) st' in
    let ps' := progress_values (s_trace res') in
    List.length ps' = List.length (s_files res')
    /\ StronglySorted Z.le ps'
    /\ Forall (fun p => 0 <= p <= 100) ps'
    /\ (ps' <> [] -> last ps' 0 = 100)).
  { intros st' g s n t Hps Hlen Ht Hmono Hb Hlast res' ps'.
    assert (E : ps' = map (fun a => Qfloor (percent_float a t))
                        (map g (seq s n))).
    { unfold ps', res'. simpl s_trace. rewrite progress_values_app, Hps.
      simpl. apply app_nil_r. }
    rewrite E. split.
    - unfold res'. simpl s_files. now rewrite !length_map, length_seq.
    - now apply rising_percentages. }
  unfold ps, res.
  rewrite (split_run_reaches_modes page py_strip py_int senv self r Henv).
  unfold split_modes. fold total.
  destruct (String.eqb (mode self) MODE_EACH) eqn:Eeach.
  { (* one page per file *)
    destruct (s_for_progress page senv self (pages r) Z
                (each_body senv self (pages r) total) (fun p => (p, p))
                (fun p => p) total (py_range 1 (total + 1)) Hw)
      with (st := @split_start page self) as (st' & Hrun & Hfiles & Htr).
    - intros p st. reflexivity.
    - exact Htot.
    - intros p Hp. apply py_range_In in Hp. fold total. simpl. lia.
    - rewrite Hrun. simpl in Hfiles, Htr.
      apply (Hfinal st' (fun i => 1 + Z.of_nat i) 0%nat (Z.to_nat total) total).
      + rewrite Htr, map_id. unfold py_range.
        now replace (total + 1 - 1) with total by lia.
      + rewrite Hfiles, py_range_length. lia.
      + exact Htot.
      + intros; lia.
      + intros; lia.
      + intros; lia. }
  destruct (String.eqb (mode self) MODE_CHUNK) eqn:Echunk.
  { (* chunks of [chunk_size] pages *)
    set (k := chunk_size self) in *.
    unfold py_floordiv. destruct (Z.eqb_spec k 0) as [|_]; [lia|].
    set (chunks := (total + k - 1) / k).
    pose proof (ceil_div_bounds total k Hk) as Hceil. fold chunks in Hceil.
    assert (H0 : 0 <= total) by (unfold total; lia).
    destruct (s_for_progress page senv self (pages r) Z
                (chunk_body senv self (pages r) total)
                (fun c => (c * k + 1, Z.min total ((c + 1) * k)))
                (fun c => Z.min total ((c + 1) * k)) total
                (py_range 0 chunks) Hw)
      with (st := @split_start page self) as (st' & Hrun & Hfiles & Htr).
    - intros c st. reflexivity.
    - exact Htot.
    - intros c Hc. apply py_range_In in Hc. fold total. simpl. nia.
    - rewrite Hrun. simpl in Hfiles, Htr.
      apply (Hfinal st' (fun i => Z.min total ((0 + Z.of_nat i + 1) * k))
               0%nat (Z.to_nat chunks) total).
      + rewrite Htr. unfold py_range.
        rewrite (map_map (fun i : nat => 0 + Z.of_nat i)
                   (fun c => Z.min total ((c + 1) * k))).
        now replace (chunks - 0) with chunks by lia.
      + rewrite Hfiles, py_range_length. f_equal. lia.
      + exact Htot.
      + intros i j _ Hij _. apply Z.min_le_compat_l. nia.
      + intros i Hi. nia.
      + intros Hn. nia. }
  (* custom ranges *)
  destruct Hmode as [Hne|[E|E]];
    [|rewrite E in Eeach; discriminate|rewrite E in Echunk; discriminate].
  assert (H1 : 1 <= total).
  { unfold total. destruct (pages r); [congruence|simpl; lia]. }
  pose proof (parse_ranges_in_bounds py_strip py_int (ranges_text self)
                total H1) as Hin.
  fold total in Hnr.
  destruct (parse_ranges py_strip py_int (ranges_text self) total)
    as [|r0 rs] eqn:Ers.
  { (* no range: the run ends with the message about bad ranges *)
    simpl. repeat split; try constructor. intros H. now elim H. }
  set (rs' := r0 :: rs) in *.
  set (n := Z.of_nat (List.length rs')) in *.
  destruct (s_for_progress page senv self (pages r) (Z * (Z * Z))
              (ranges_body senv self (pages r) n)
              (fun ir => snd ir) (fun ir => fst ir) n
              (enumerate1 rs') Hw)
    with (st := @split_start page self) as (st' & Hrun & Hfiles & Htr).
  - intros [i [s e]] st. reflexivity.
  - exact Hnr.
  - intros [i se] Hi. simpl.
    pose proof (enumerate1_In _ rs' i se Hi) as [Hi1 Hse].
    rewrite Forall_forall in Hin. destruct (Hin se Hse) as [Ha Hb].
    fold total. repeat split; try lia.
    unfold enumerate1 in Hi. apply in_combine_l in Hi.
    apply in_map_iff in Hi. destruct Hi as (j & <- & Hj).
    apply in_seq in Hj. unfold n. lia.
  - rewrite Hrun. simpl in Htr.
    assert (Hlen : List.length (enumerate1 rs') = List.length rs').
    { rewrite <- (length_map snd), enumerate1_snd. reflexivity. }
    apply (Hfinal st' Z.of_nat 1%nat (List.length rs') n).
    + rewrite Htr. f_equal. unfold enumerate1.
      rewrite combine_fst; [reflexivity|].
      now rewrite length_map, length_seq.
    + rewrite Hfiles, Hlen. reflexivity.
    + exact Hnr.
    + intros; lia.
    + intros; unfold n; lia.
    + intros; unfold n; lia.
Qed.

Lemma split_progress_rises_to_100_witness :
  let res := split_run PyStr.strip PyStr.int (plain_split_env 7)
               (SplitWorker_init "in.pdf" "out" "p" MODE_CHUNK 3 "" 3 1) in
  let ps := progress_values (s_trace res) in
  List.length ps = List.length (s_files res)
  /\ StronglySorted Z.le ps
  /\ Forall (fun p => 0 <= p <= 100) ps
  /\ (ps <> [] -> last ps 0 = 100).
Proof.
  apply (split_progress_rises_to_100 nat PyStr.strip PyStr.int
           (plain_split_env 7)
           (SplitWorker_init "in.pdf" "out" "p" MODE_CHUNK 3 "" 3 1)
           (plain_reader 7)).
  - repeat split; reflexivity.
  - simpl. lia.
  - simpl. lia.
  - vm_compute. reflexivity.
  - right. right. reflexivity.
Defined.

(** ** From the split form to the files *)

(** X25. A split started from the form: the worker gets the stripped
    prefix, or "part" when the field is blank, so the default "split" of
    the constructor is never used; with the values the spin boxes allow,
    the constructor keeps the chunk size and the padding as given; and
    every file that the run writes, in any environment, is named after
    that prefix, the start index of the form plus the number of files
    written before, and the padding of the form. *)
Theorem on_split_names_files
    (page : Type) (senv : SplitEnv page) (default_outdir : string -> string)
    (f : SplitForm) (w : SplitWorker) :
  spin_ranges f ->
  on_split default_outdir f = Some w ->
  let prefix := str_or (PyStr.strip (txt_prefix f)) "part" in
  filename_prefix w = prefix
  /\ prefix <> EmptyString
  /\ chunk_size w = (if rb_each f then 1
                     else if rb_chunk f then spin_chunk f else 1)
  /\ pad w = spin_pad f
  /\ forall k file,
       nth_error (s_files (split_run PyStr.strip PyStr.int senv w)) k
       = Some file ->
       f_name file = out_name prefix (spin_start f + Z.of_nat k) (spin_pad f).
Proof.
  intros (Hc & Hp & Hs) Hon prefix.
  assert (Hne : prefix <> EmptyString).
  { unfold prefix, str_or.
    destruct (PyStr.strip (txt_prefix f)); simpl; discriminate. }
  assert (Hfields :
    filename_prefix w = prefix /\ pad w = spin_pad f
    /\ start_index w = spin_start f
    /\ chunk_size w = (if rb_each f then 1
                       else if rb_chunk f then spin_chunk f else 1)).
  { unfold on_split in Hon.
    destruct (is_empty (PyStr.strip (txt_src f))); [discriminate|].
    fold prefix in Hon.
    assert (Hpre : str_or prefix "split" = prefix).
    { unfold str_or at 1. destruct prefix; [congruence|reflexivity]. }
    destruct (rb_each f); [|destruct (rb_chunk f)];
      injection Hon as <-; cbn [SplitWorker_init filename_prefix pad
                                start_index chunk_size];
      rewrite Hpre; repeat split; lia. }
  destruct Hfields as (Hpre & Hpad & Hstart & Hchunk).
  repeat split; try assumption.
  intros k file Hk.
  destruct (names_inv_run page PyStr.strip PyStr.int senv w) as [_ Hnames].
  destruct (Hnames k file Hk) as [_ Hn].
  now rewrite Hn, Hpre, Hpad, Hstart.
Qed.

Lemma on_split_names_files_witness :
  let w := SplitWorker_init "in.pdf" "out" "part" MODE_EACH 1 "" 3 0 in
  filename_prefix w = "part"
  /\ "part" <> EmptyString
  /\ chunk_size w = 1
  /\ pad w = 3
  /\ forall k file,
       nth_error
         (s_files (split_run PyStr.strip PyStr.int (plain_split_env 3) w)) k
       = Some file ->
       f_name file = out_name "part" (0 + Z.of_nat k) 3.
Proof.
  apply (on_split_names_files nat (plain_split_env 3) (fun _ => "out")
           {| txt_src := " in.pdf "; txt_outdir := ""; txt_prefix := "  ";
              rb_each := true; rb_chunk := false; spin_chunk := 10;
              txt_ranges := ""; spin_pad := 3; spin_start := 0 |}
           (SplitWorker_init "in.pdf" "out" "part" MODE_EACH 1 "" 3 0)).
  - unfold spin_ranges. simpl. lia.
  - reflexivity.
Defined.

(** ** Extraction of pages *)

Lemma rows_of_app (A : Type) (xs : list A) (rows1 rows2 : list nat)
    (l1 l2 : list A) :
  rows_of xs rows1 = Some l1 -> rows_of xs rows2 = Some l2 ->
  rows_of xs (rows1 ++ rows2) = Some (l1 ++ l2).
Proof.
  revert l1. induction rows1 as [|r rows1 IH]; intros l1 H1 H2; simpl in *.
  - injection H1 as <-. exact H2.
  - destruct (nth_error xs r) as [x|]; [|discriminate].
    destruct (rows_of xs rows1) as [more|]; [|discriminate].
    injection H1 as <-. now rewrite (IH more eq_refl H2).
Qed.

Lemma keep_rows_none (A : Type) (f : nat -> bool) (l : list A) :
  forall i, (forall j, (i <= j)%nat -> f j = false) -> keep_rows i f l = [].
Proof.
  induction l as [|z l IH]; intros i Hf; simpl; [reflexivity|].
  rewrite (Hf i) by lia. apply IH. intros j Hj. apply Hf. lia.
Qed.

(** Reading the selected rows in increasing order gives the elements of
    these rows in the order of the list. *)
Lemma rows_of_ascending (A : Type) (rows : list nat) :
  StronglySorted lt rows ->
  forall xs : list A,
    (forall r, In r rows -> (r < List.length xs)%nat) ->
    rows_of xs rows = Some (keep_rows 0 (selected_row rows) xs).
Proof.
  induction rows as [|r rows IH] using rev_ind; intros Hs xs Hlen.
  - simpl. now rewrite keep_rows_none.
  - destruct (sorted_snoc rows r Hs) as [Hs' Hlt].
    assert (Hr : (r < List.length xs)%nat).
    { apply Hlen, in_or_app. right. now left. }
    destruct (nth_error xs r) as [x|] eqn:Ex.
    2:{ apply nth_error_None in Ex. lia. }
    pose proof Ex as Ex'.
    apply nth_error_split in Ex'. destruct Ex' as (a & c & Exs & Ea).
    assert (Happ : rows_of xs (rows ++ [r])
                   = Some (keep_rows 0 (selected_row rows) xs ++ [x])).
    { apply rows_of_app.
      - apply IH; [exact Hs'|]. intros y Hy. apply Hlen, in_or_app. now left.
      - simpl. now rewrite Ex. }
    rewrite Happ. f_equal. subst xs r.
    rewrite !keep_rows_app. cbn [keep_rows]. rewrite Nat.add_0_l.
    assert (Hin : selected_row (rows ++ [List.length a]) (List.length a)
                  = true).
    { apply selected_row_spec, in_or_app. right. now left. }
    rewrite Hin.
    assert (Hx : selected_row rows (List.length a) = false).
    { destruct (selected_row rows (List.length a)) eqn:E; [|reflexivity].
      apply selected_row_spec in E. specialize (Hlt _ E). lia. }
    rewrite Hx.
    rewrite (keep_rows_none _ (selected_row rows) c).
    2:{ intros j Hj. destruct (selected_row rows j) eqn:E; [|reflexivity].
        apply selected_row_spec in E. specialize (Hlt _ E). lia. }
    rewrite (keep_rows_none _ (selected_row (rows ++ [List.length a])) c).
    2:{ intros j Hj.
        destruct (selected_row (rows ++ [List.length a]) j) eqn:E;
          [|reflexivity].
        apply selected_row_spec, in_app_iff in E.
        destruct E as [E|[E|[]]]; [specialize (Hlt _ E)|]; lia. }
    rewrite !app_nil_r. f_equal.
    apply keep_rows_ext. intros j Hj. apply eq_true_iff_eq.
    rewrite !selected_row_spec, in_app_iff. simpl.
    split; [tauto|]. intros [H|[H|[]]]; [exact H|lia].
Qed.

Lemma py_lower_append (s t : string) :
  py_lower (s ++ t) = (py_lower s ++ py_lower t)%string.
Proof. induction s as [|c s IH]; simpl; [reflexivity|now rewrite IH]. Qed.

Lemma py_lower_length (s : string) :
  String.length (py_lower s) = String.length s.
Proof. induction s as [|c s IH]; simpl; [reflexivity|now rewrite IH]. Qed.

Lemma substring_whole (t : string) : substring 0 (String.length t) t = t.
Proof. induction t as [|c t IH]; simpl; [reflexivity|now rewrite IH]. Qed.

Lemma substring_suffix (s t : string) :
  substring (String.length s) (String.length t) (s ++ t) = t.
Proof.
  induction s as [|c s IH]; [apply substring_whole|exact IH].
Qed.

Lemma ends_with_suffix (s t : string) : ends_with t (s ++ t) = true.
Proof.
  unfold ends_with. rewrite append_length.
  replace (String.length s + String.length t - String.length t)%nat
    with (String.length s) by lia.
  rewrite substring_suffix, String.eqb_refl.
  apply andb_true_iff. split; [apply Nat.leb_le; lia|reflexivity].
Qed.

Lemma ends_with_added_suffix (s : string) :
  ends_with ".pdf" (py_lower (s ++ ".pdf")) = true.
Proof. rewrite py_lower_append. apply ends_with_suffix. Qed.

(** X26. Extraction writes the pages of the selected rows in the order of
    the list, each once, whatever the order of selection, to the chosen
    file: under the chosen name when it ends with ".pdf" in any letter case
    (ASCII), and else under that name with ".pdf" added.  It is the
    complement of deletion: the pages that extraction writes and the pages
    that deletion keeps for the same selection are together the pages of
    the list, each row once. *)
Theorem extract_complements_delete
    (A : Type) (selected : list nat) (pages : list A) (m : nat)
    (save_path : string) (write_raises : string -> option exn) :
  In m selected ->
  (forall r, In r selected -> (m <= r < List.length pages)%nat) ->
  save_path <> EmptyString ->
  (forall file, write_raises file = None) ->
  exists file extracted kept row,
    on_edit_extract_pages selected save_path write_raises pages
    = Extracted file extracted
    /\ on_edit_delete_pages selected pages = Edited kept row
    /\ extracted = keep_rows 0 (selected_row selected) pages
    /\ (ends_with ".pdf" (py_lower save_path) = true -> file = save_path)
    /\ (ends_with ".pdf" (py_lower save_path) = false ->
        file = (save_path ++ ".pdf")%string)
    /\ ends_with ".pdf" (py_lower file) = true
    /\ Permutation pages (kept ++ extracted).
Proof.
  intros Hm Hsel Hpath Hw.
  pose proof (delete_pages_result A selected pages m Hm Hsel) as Hdel.
  cbv zeta in Hdel.
  assert (Hrows : rows_of pages (sorted_rows selected)
                  = Some (keep_rows 0 (selected_row selected) pages)).
  { rewrite rows_of_ascending.
    - f_equal. apply keep_rows_ext. intros j _. apply eq_true_iff_eq.
      now rewrite !selected_row_spec, sorted_rows_In.
    - apply sorted_rows_sorted.
    - intros r Hr. apply Hsel. now apply (proj1 (sorted_rows_In r selected)). }
  destruct (sorted_rows_head selected m Hm (fun r Hr => proj1 (Hsel r Hr)))
    as [rest E].
  set (file := if ends_with ".pdf" (py_lower save_path) then save_path
               else (save_path ++ ".pdf")%string).
  exists file, (keep_rows 0 (selected_row selected) pages).
  do 2 eexists.
  split; [|split; [exact Hdel|split; [reflexivity|split; [|split; [|split]]]]].
  - unfold on_edit_extract_pages. rewrite E in Hrows |- *.
    clear Hdel. destruct pages as [|p0 ps].
    { specialize (Hsel m Hm). simpl in Hsel. lia. }
    assert (Hp : is_empty save_path = false).
    { destruct save_path; [congruence|reflexivity]. }
    rewrite Hp, Hrows. fold file. now rewrite Hw.
  - intros Hends. unfold file. now rewrite Hends.
  - intros Hends. unfold file. now rewrite Hends.
  - unfold file. destruct (ends_with ".pdf" (py_lower save_path)) eqn:Ee;
      [exact Ee|].
    apply ends_with_added_suffix.
  - rewrite (keep_rows_split A (selected_row selected) pages 0) at 1.
    apply Permutation_app_head. symmetry. apply Permutation_rev.
Qed.

Lemma extract_complements_delete_witness :
  exists file extracted kept row,
    on_edit_extract_pages [3; 1; 3]%nat "out.PDF" (fun _ => None)
      ["a"; "b"; "c"; "d"; "e"]
    = Extracted file extracted
    /\ on_edit_delete_pages [3; 1; 3]%nat ["a"; "b"; "c"; "d"; "e"]
       = Edited kept row
    /\ extracted
       = keep_rows 0 (selected_row [3; 1; 3]%nat) ["a"; "b"; "c"; "d"; "e"]
    /\ (ends_with ".pdf" (py_lower "out.PDF") = true -> file = "out.PDF")
    /\ (ends_with ".pdf" (py_lower "out.PDF") = false ->
        file = ("out.PDF" ++ ".pdf")%string)
    /\ ends_with ".pdf" (py_lower file) = true
    /\ Permutation ["a"; "b"; "c"; "d"; "e"] (kept ++ extracted).
Proof.
  apply (extract_complements_delete string [3; 1; 3]%nat
           ["a"; "b"; "c"; "d"; "e"] 1%nat "out.PDF" (fun _ => None)).
  - simpl. tauto.
  - simpl. intros r [<-|[<-|[<-|[]]]]; lia.
  - discriminate.
  - reflexivity.
Defined.

(** ** Progress of a merge, item by item *)

Section MergeBlocks.

Variable page : Type.
Variable env : MergeEnv page.
Variable add_bookmarks : bool.

(** Outside the handler around [decrypt], an iteration emits the reading
    message of its item, at most one further message, and then the
    progress value of the item. *)
Lemma merge_item_block (total : Z) (st : MergeState page) (x : PdfItem) :
  1 <= m_done st + 1 <= total -> total < 2 ^ 53 ->
  no_encrypted_skip env [x] ->
  let r := merge_item env add_bookmarks total st x in
  snd r = None
  /\ m_done (fst r) = m_done st + 1
  /\ exists msgs,
      m_trace (fst r)
      = m_trace st
        ++ Message (MsgReading (path x))
           :: map Message msgs
           ++ [Progress (Qfloor (percent_float (m_done st + 1) total))].
Proof.
  intros Hd Ht Hx.
  pose proof (percent_is_floor (m_done st + 1) total Hd Ht) as Hp.
  unfold merge_item, merge_try, m_emit_progress.
  destruct (open_pdf env (path x)) as [e|rd] eqn:Ho; simpl.
  { rewrite Hp. simpl. repeat split.
    exists [MsgSkipError (path x) e]. now rewrite <- !app_assoc. }
  rewrite (Hx x rd (or_introl eq_refl) Ho).
  destruct (pages_raise rd) as [e|]; simpl.
  { rewrite Hp. simpl. repeat split.
    exists [MsgSkipError (path x) e]. now rewrite <- !app_assoc. }
  destruct add_bookmarks; [destruct (add_outline_raises env _ _)|]; simpl;
    rewrite Hp; simpl; repeat split.
  - exists [MsgBookmarkFailed (path x)]. now rewrite <- !app_assoc.
  - exists []. now rewrite <- !app_assoc.
  - exists []. now rewrite <- !app_assoc.
Qed.

Lemma merge_loop_blocks (total : Z) (items : list PdfItem) :
  total < 2 ^ 53 ->
  no_encrypted_skip env items ->
  forall st,
    0 <= m_done st ->
    m_done st + Z.of_nat (List.length items) <= total ->
    exists tr,
      m_trace (fst (merge_loop env add_bookmarks total st items))
      = m_trace st ++ tr
      /\ item_blocks items
           (map (fun i => Qfloor (percent_float (m_done st + Z.of_nat i) total))
              (seq 1 (List.length items)))
           tr.
Proof.
  intros Ht. induction items as [|x items IH]; intros Hall st H0 Hlen.
  - exists []. simpl. rewrite app_nil_r. split; [reflexivity|constructor].
  - simpl List.length in *. simpl merge_loop.
    destruct (merge_item_block total st x ltac:(lia) Ht)
      as (Hn & Hd & msgs & Hm).
    { intros y rd [<-|[]] Ho. apply (Hall x rd); [now left|exact Ho]. }
    destruct (merge_item env add_bookmarks total st x) as [s1 [e|]];
      [discriminate|]. simpl in Hd, Hm.
    destruct (IH (fun y rd Hy => Hall y rd (or_intror Hy)) s1
                ltac:(lia) ltac:(lia)) as (tr & Htr & Hb).
    exists (Message (MsgReading (path x))
              :: map Message msgs
              ++ Progress (Qfloor (percent_float (m_done st + 1) total)) :: tr).
    split.
    + rewrite Htr, Hm, <- !app_assoc. simpl. now rewrite <- !app_assoc.
    + simpl seq. simpl map.
      replace (m_done st + Z.of_nat 1) with (m_done st + 1) by lia.
      constructor.
      rewrite <- (seq_shift (List.length items) 1), map_map.
      erewrite map_ext; [exact Hb|].
      intros i. cbv beta. rewrite Hd. f_equal. f_equal. lia.
Qed.

End MergeBlocks.

Lemma item_blocks_progress (xs : list PdfItem) (ps : list Z) (tr : list event) :
  item_blocks xs ps tr -> progress_values tr = ps.
Proof.
  induction 1 as [|x p msgs xs ps tr _ IH]; [reflexivity|].
  simpl. rewrite progress_values_app.
  assert (H : progress_values (map Message msgs) = [])
    by (induction msgs; simpl; auto).
  rewrite H. simpl. now rewrite IH.
Qed.

(** C1. A merge of a non-empty plan (of fewer than [2^53] items) whose
    documents the PDF library reads as it does, a call of [decrypt("")]
    returning rather than raising: the signals of the run are, for each item
    in plan order, the reading message of the item, messages only, and then
    one progress value, whether the item was added or skipped, and after
    the last item the terminal signal; the value after item [i] is
    [int(i / total * 100)]; the values never decrease; and 100 is reached
    exactly once, by the last value. *)
Theorem merge_progress_after_each_item
    (page : Type) (env : MergeEnv page) (add_bookmarks : bool)
    (items : list PdfItem) (out : string) :
  items <> [] ->
  Z.of_nat (List.length items) < 2 ^ 53 ->
  no_encrypted_skip env items ->
  let total := Z.of_nat (List.length items) in
  let res := merge_run env add_bookmarks items out in
  let ps := map (fun i : nat => Qfloor (percent_float (Z.of_nat i) total))
              (seq 1 (List.length items)) in
  (exists body t,
      m_trace res = body ++ [t]
      /\ is_terminal t = true
      /\ item_blocks items ps body)
  /\ progress_values (m_trace res) = ps
  /\ StronglySorted Z.le ps
  /\ exists front,
       ps = front ++ [100] /\ Forall (fun p => 0 <= p <= 99) front.
Proof.
  intros Hne Ht Hall total res ps.
  destruct (merge_run_unfold page env add_bookmarks items out Hne)
    as (Ht0 & _ & Htr & _).
  fold total in Ht0, Htr. fold res in Htr.
  destruct (merge_loop_blocks page env add_bookmarks total items Ht Hall
              m_init ltac:(simpl; lia) ltac:(simpl; unfold total; lia))
    as (body & Hbody & Hblocks).
  simpl in Hbody, Hblocks.
  assert (Hps : item_blocks items ps body).
  { unfold ps. erewrite map_ext; [exact Hblocks|]. intros i. reflexivity. }
  assert (Hn : (1 <= List.length items)%nat).
  { destruct items; [congruence|simpl; lia]. }
  destruct (rising_percentages total Z.of_nat 1 (List.length items) Ht)
    as (Hsorted & Hrange & _).
  { intros; lia. }
  { intros i Hi. unfold total. lia. }
  { intros _. unfold total. lia. }
  rewrite map_map in Hsorted, Hrange. fold ps in Hsorted, Hrange.
  split; [|split; [|split]].
  - exists body. eexists. split; [rewrite Htr, Hbody; reflexivity|].
    split; [now destruct (write_output env out)|exact Hps].
  - rewrite Htr, Hbody, progress_values_app.
    rewrite (item_blocks_progress items ps body Hps).
    destruct (write_output env out); simpl; apply app_nil_r.
  - exact Hsorted.
  - exists (map (fun i : nat => Qfloor (percent_float (Z.of_nat i) total))
              (seq 1 (List.length items - 1))).
    split.
    + unfold ps.
      replace (List.length items) with (S (List.length items - 1)) at 1
        by lia.
      rewrite seq_S, map_app. cbn [map]. f_equal. f_equal.
      match goal with
      | |- Qfloor (percent_float ?a _) = _ =>
          replace a with total by (unfold total; lia)
      end.
      apply (Qfloor_comp _ _ (percent_float_full total
                                ltac:(unfold total; lia))).
    + apply Forall_forall. intros p Hp. apply in_map_iff in Hp.
      destruct Hp as (i & <- & Hi). apply in_seq in Hi.
      destruct (percent_float_bounds (Z.of_nat i) total
                  ltac:(unfold total; lia) Ht) as (H0 & _ & H99 & _).
      split.
      * apply Z.le_trans with (Qfloor (inject_Z 0)); [now rewrite Qfloor_Z|].
        apply Qfloor_resp_le. now apply Qlt_le_weak.
      * apply H99. unfold total. lia.
Qed.

Lemma merge_progress_after_each_item_witness :
  progress_values
    (m_trace
       (merge_run three_docs_locked_env false
          [item "a.pdf"; item "b.pdf"; item "c.pdf"] "out.pdf"))
  = [33; 66; 100].
Proof.
  destruct (merge_progress_after_each_item nat three_docs_locked_env false
              [item "a.pdf"; item "b.pdf"; item "c.pdf"] "out.pdf")
    as (_ & Hv & _).
  - discriminate.
  - simpl. lia.
  - intros y rd [<-|[<-|[<-|[]]]] Ho; inversion Ho; reflexivity.
  - rewrite Hv. vm_compute. reflexivity.
Defined.
